(** * libSoX I/O core (src/soxio.c): a shallow embedding and its properties

    The C code is embedded as Rocq functions over records that mirror the
    structs of the library.  Conventions:

    - C integers ([unsigned], [int], [sox_size_t], enums read from the
      capability tables) are [Z]; bytes are [Z] in [0, 256).
    - [sox_rate_t] is a [double] in C.  The code only compares and copies
      rates, so they are modelled by integers (Hz) and the sentinel
      [HUGE_VAL] by an explicit top element ([None]).
    - Zero-terminated C arrays are lists holding the memory contents; a
      read at or past the end of the list yields the terminator [0].
    - Function pointers of a handler are nullable identifiers
      ([option nat]); what the pointed code does is given by the
      environment ([sox_env]).
    - Calls that leave the function under study (handler hooks, [fclose],
      [sox_seeki]) are recorded, in order, in the [trace] of the [world].
    - [sox_warn], [sox_fail] and [sox_debug] only write to the log and are
      left out, except in [set_endianness_if_not_already_set], whose
      reports are returned. *)

From Stdlib Require Import ZArith List String Ascii Bool Lia.
From coqutil Require Import Z.bitblast.
Import ListNotations.
Local Open Scope string_scope.
Local Open Scope list_scope.
Local Open Scope Z_scope.

(** ** Declarations taken from the headers *)

(** What soxio.c takes from sox.h and sox_i.h and does not define itself:
    flag masks, the endianness of the machine, defaults, status codes, the
    ordinal that separates lossless from lossy encodings, and the
    achievable precision of an (encoding, bits-per-sample) pair. *)
Class sox_h := {
  SOX_FILE_NOSTDIO : Z;
  SOX_FILE_PHONY : Z;
  SOX_FILE_REWIND : Z;
  SOX_FILE_BIT_REV : Z;
  SOX_FILE_NIB_REV : Z;
  SOX_FILE_ENDIAN : Z;
  SOX_FILE_ENDBIG : Z;
  SOX_FILE_MONO : Z;
  SOX_FILE_STEREO : Z;
  SOX_FILE_QUAD : Z;
  SOX_FILE_CHANS : Z;
  SOX_IS_BIGENDIAN : bool;
  SOX_DEFAULT_RATE : Z;
  SOX_DEFAULT_PRECISION : Z;
  SOX_DEFAULT_CHANNELS : Z;
  SOX_ENCODING_LOSSLESS : Z;
  SOX_SUCCESS : Z;
  SOX_EOF : Z;
  SOX_EFMT : Z;
  sox_precision : Z -> Z -> Z
}.

(** ** Data model *)

(** [sox_option_t]: a tri-state option. *)
Inductive sox_option_t := SOX_OPTION_NO | SOX_OPTION_YES | SOX_OPTION_DEFAULT.

(** The integer value of the enumerators, as C compares them. *)
Definition int_of_option (o : sox_option_t) : Z :=
  match o with
  | SOX_OPTION_NO => 0
  | SOX_OPTION_YES => 1
  | SOX_OPTION_DEFAULT => 2
  end.

(** A C truth value (0 or 1) stored in a [sox_option_t] field. *)
Definition option_of_bool (b : bool) : sox_option_t :=
  if b then SOX_OPTION_YES else SOX_OPTION_NO.

Definition int_of_bool (b : bool) : Z := if b then 1 else 0.

Record sox_signalinfo_t := mk_signal {
  rate : Z;
  channels : Z;
  precision : Z
}.

Record sox_encodinginfo_t := mk_encoding {
  encoding : Z;
  bits_per_sample : Z;
  reverse_bytes : sox_option_t;
  reverse_nibbles : sox_option_t;
  reverse_bits : sox_option_t;
  opposite_endian : bool
}.

(** [sox_format_handler_t].  The callbacks are nullable function
    pointers; [write_formats] and [write_rates] are nullable pointers to
    zero-terminated arrays. *)
Record sox_format_handler_t := mk_handler {
  names : list string;
  flags : Z;
  startread : option nat;
  read : option nat;
  stopread : option nat;
  startwrite : option nat;
  write : option nat;
  stopwrite : option nat;
  seek : option nat;
  write_formats : option (list Z);
  write_rates : option (list Z)
}.

(** The handler of a session that [xcalloc] has just zeroed. *)
Definition null_handler : sox_format_handler_t :=
  mk_handler [] 0 None None None None None None None None None.

(** A C stream: one of the two standard streams, or a file opened by
    path. *)
Inductive FILE := stdin | stdout | file_of (path : string).

(** The stream behind [ft->fp], as far as the typed transfer functions see
    it: the bytes still to be read, the bytes written so far, and the
    error indicator that [ferror] reports. *)
Record stream_t := mk_stream {
  pending : list Z;
  written : list Z;
  stream_error : bool
}.

(** [sox_format_t], the session.  [ft_encoding] and [ft_length] are the C
    members [encoding] and [length]. *)
Record sox_format_t := mk_format {
  filename : option string;
  signal : sox_signalinfo_t;
  ft_encoding : sox_encodinginfo_t;
  filetype : option string;
  seekable : bool;
  mode : ascii;
  ft_length : Z;
  olength : Z;
  sox_errno : Z;
  sox_errstr : string;
  fp : option FILE;
  io : stream_t;
  handler : sox_format_handler_t
}.

Definition with_signal (ft : sox_format_t) (s : sox_signalinfo_t) :=
  mk_format (filename ft) s (ft_encoding ft) (filetype ft) (seekable ft)
    (mode ft) (ft_length ft) (olength ft) (sox_errno ft) (sox_errstr ft)
    (fp ft) (io ft) (handler ft).

Definition with_encoding (ft : sox_format_t) (e : sox_encodinginfo_t) :=
  mk_format (filename ft) (signal ft) e (filetype ft) (seekable ft)
    (mode ft) (ft_length ft) (olength ft) (sox_errno ft) (sox_errstr ft)
    (fp ft) (io ft) (handler ft).

Definition with_handler (ft : sox_format_t) (h : sox_format_handler_t) :=
  mk_format (filename ft) (signal ft) (ft_encoding ft) (filetype ft)
    (seekable ft) (mode ft) (ft_length ft) (olength ft) (sox_errno ft)
    (sox_errstr ft) (fp ft) (io ft) h.

Definition with_io (ft : sox_format_t) (s : stream_t) :=
  mk_format (filename ft) (signal ft) (ft_encoding ft) (filetype ft)
    (seekable ft) (mode ft) (ft_length ft) (olength ft) (sox_errno ft)
    (sox_errstr ft) (fp ft) s (handler ft).

Definition with_error (ft : sox_format_t) (code : Z) (msg : string) :=
  mk_format (filename ft) (signal ft) (ft_encoding ft) (filetype ft)
    (seekable ft) (mode ft) (ft_length ft) (olength ft) code msg
    (fp ft) (io ft) (handler ft).

(** [flags & mask] used as a condition. *)
Definition has_flag (fl mask : Z) : bool := negb (Z.land fl mask =? 0).

(** ** Defaults *)

(** [set_signal_defaults]. *)
Definition set_signal_defaults `{sox_h} (s : sox_signalinfo_t)
  : sox_signalinfo_t :=
  mk_signal
    (if rate s =? 0 then SOX_DEFAULT_RATE else rate s)
    (if channels s =? 0 then SOX_DEFAULT_CHANNELS else channels s)
    (if precision s =? 0 then SOX_DEFAULT_PRECISION else precision s).

(** A resolved option is a plain yes or no. *)
Definition resolved (o : sox_option_t) : Prop :=
  o = SOX_OPTION_NO \/ o = SOX_OPTION_YES.

(** ** Order normalisation *)

Section Endianness.
Context `{sox_h}.

(** [set_endianness_if_not_already_set]: returns the session with its
    three order fields resolved, and the reports it issued. *)
Definition set_endianness_if_not_already_set (ft : sox_format_t)
  : sox_format_t * list string :=
  let fl := flags (handler ft) in
  let e := ft_encoding ft in
  let file_endian := has_flag fl SOX_FILE_ENDIAN in
  let not_endbig := negb (has_flag fl SOX_FILE_ENDBIG) in
  let rbytes :=
    if opposite_endian e then
      option_of_bool
        (if file_endian then xorb not_endbig SOX_IS_BIGENDIAN else true)
    else
      match reverse_bytes e with
      | SOX_OPTION_DEFAULT =>
          option_of_bool
            (if file_endian then Bool.eqb not_endbig SOX_IS_BIGENDIAN
             else false)
      | o => o
      end in
  let report_bytes :=
    if file_endian then
      if int_of_option rbytes
         =? int_of_bool (xorb not_endbig SOX_IS_BIGENDIAN)
      then ["overriding file-type byte-order"] else []
    else
      if int_of_option rbytes =? 1
      then ["overriding machine byte-order"] else [] in
  let bit_rev := has_flag fl SOX_FILE_BIT_REV in
  let rbits :=
    match reverse_bits e with
    | SOX_OPTION_DEFAULT => option_of_bool bit_rev
    | o => o
    end in
  let report_bits :=
    match reverse_bits e with
    | SOX_OPTION_DEFAULT => []
    | o => if int_of_option o =? int_of_bool (negb bit_rev)
           then ["overriding file-type bit-order"] else []
    end in
  let nib_rev := has_flag fl SOX_FILE_NIB_REV in
  let rnibbles :=
    match reverse_nibbles e with
    | SOX_OPTION_DEFAULT => option_of_bool nib_rev
    | o => o
    end in
  let report_nibbles :=
    match reverse_nibbles e with
    | SOX_OPTION_DEFAULT => []
    | o => if int_of_option o =? int_of_bool (negb nib_rev)
           then ["overriding file-type nibble-order"] else []
    end in
  (with_encoding ft
     (mk_encoding (encoding e) (bits_per_sample e) rbytes rnibbles rbits
        (opposite_endian e)),
   report_bytes ++ report_bits ++ report_nibbles).

End Endianness.

(** ** Raw stream transfer *)

(** Modelled from the spec: [sox_readbuf] is defined in another file of
    the library.  It pulls up to [len] raw bytes from the stream in one
    buffered call and returns the bytes it got (their number is the C
    return value); fewer than [len] are returned only when the stream runs
    out. *)
Definition sox_readbuf (ft : sox_format_t) (len : nat)
  : list Z * sox_format_t :=
  let s := io ft in
  (firstn len (pending s),
   with_io ft (mk_stream (skipn len (pending s)) (written s)
                 (stream_error s))).

(** Modelled from the spec: [sox_writebuf] is defined in another file of
    the library.  It emits the given bytes in one buffered call and
    returns how many were written; this stream accepts them all. *)
Definition sox_writebuf (ft : sox_format_t) (bytes : list Z)
  : nat * sox_format_t :=
  let s := io ft in
  (List.length bytes,
   with_io ft (mk_stream (pending s) (written s ++ bytes)
                 (stream_error s))).

(** ** Content sniffing *)

Definition bytes_of (s : string) : list Z :=
  map (fun c => Z.of_N (N_of_ascii c)) (list_ascii_of_string s).

(** The array a C string literal denotes: its bytes, then a NUL. *)
Definition c_literal (body : list Z) : list Z := body ++ [0].

(** [!memcmp(a, b, n)]: the first [n] bytes of [a] and [b] agree.  Both
    arrays are long enough whenever the code calls it. *)
Fixpoint memcmp_eq (a b : list Z) (n : nat) {struct n} : bool :=
  match n with
  | O => true
  | S n' =>
      match a, b with
      | x :: a', y :: b' => (x =? y) && memcmp_eq a' b' n'
      | _, _ => false
      end
  end.

(** One use of the [MAGIC] macro, arguments in the macro's order. *)
Record magic_rule := MAGIC {
  magic_type : string;
  p2 : nat;
  l2 : nat;
  d2 : list Z;
  p1 : nat;
  l1 : nat;
  d1 : list Z
}.

(** The condition the [MAGIC] macro tests on the buffer [data] holding
    [len] bytes of the stream. *)
Definition magic_match (data : list Z) (len : nat) (r : magic_rule) : bool :=
  (p1 r + l1 r <=? len)%nat
  && memcmp_eq (skipn (p1 r) data) (d1 r) (l1 r)
  && memcmp_eq (skipn (p2 r) data) (d2 r) (l2 r).

Definition lit (s : string) : list Z := c_literal (bytes_of s).

Definition hcom_rule : magic_rule := MAGIC "hcom" 65 4 (lit "FSSD") 128 4 (lit "HCOM").
Definition wav_rule : magic_rule := MAGIC "wav" 0 4 (lit "RIFF") 8 4 (lit "WAVE").
Definition aiff_rule : magic_rule := MAGIC "aiff" 0 4 (lit "FORM") 8 4 (lit "AIFF").

(** The rules of [detect_magic] that do not depend on the extension, in
    source order. *)
Definition magic_table : list magic_rule :=
  [ MAGIC "voc"    0 0 (lit "") 0 20 (c_literal (bytes_of "Creative Voice File" ++ [26]));
    MAGIC "smp"    0 0 (lit "") 0 17 (lit "SOUND SAMPLE DATA");
    MAGIC "wve"    0 0 (lit "") 0 15 (lit "ALawSoundFile**");
    MAGIC "amr-wb" 0 0 (lit "") 0 9 (c_literal (bytes_of "#!AMR-WB" ++ [10]));
    MAGIC "prc"    0 0 (lit "") 0 8 (c_literal [55; 0; 0; 16; 109; 0; 0; 16]);
    MAGIC "sph"    0 0 (lit "") 0 7 (lit "NIST_1A");
    MAGIC "amr-nb" 0 0 (lit "") 0 6 (c_literal (bytes_of "#!AMR" ++ [10]));
    MAGIC "txw"    0 0 (lit "") 0 6 (lit "LM8953");
    MAGIC "sndt"   0 0 (lit "") 0 6 (c_literal (bytes_of "SOUND" ++ [26]));
    MAGIC "vorbis" 0 4 (lit "OggS") 29 6 (lit "vorbis");
    MAGIC "speex"  0 4 (lit "OggS") 28 6 (lit "Speex");
    hcom_rule;
    wav_rule;
    MAGIC "wav"    0 4 (lit "RIFX") 8 4 (lit "WAVE");
    aiff_rule;
    MAGIC "aifc"   0 4 (lit "FORM") 8 4 (lit "AIFC");
    MAGIC "8svx"   0 4 (lit "FORM") 8 4 (lit "8SVX");
    MAGIC "maud"   0 4 (lit "FORM") 8 4 (lit "MAUD");
    MAGIC "xa"     0 0 (lit "") 0 4 (c_literal (bytes_of "XA" ++ [0; 0]));
    MAGIC "xa"     0 0 (lit "") 0 4 (c_literal (bytes_of "XAI" ++ [0]));
    MAGIC "xa"     0 0 (lit "") 0 4 (c_literal (bytes_of "XAJ" ++ [0]));
    MAGIC "au"     0 0 (lit "") 0 4 (lit ".snd");
    MAGIC "au"     0 0 (lit "") 0 4 (lit "dns.");
    MAGIC "au"     0 0 (lit "") 0 4 (c_literal (0 :: bytes_of "ds."));
    MAGIC "au"     0 0 (lit "") 0 4 (c_literal (bytes_of ".sd" ++ [0]));
    MAGIC "flac"   0 0 (lit "") 0 4 (lit "fLaC");
    MAGIC "avr"    0 0 (lit "") 0 4 (lit "2BIT");
    MAGIC "caf"    0 0 (lit "") 0 4 (lit "caff");
    MAGIC "paf"    0 0 (lit "") 0 4 (lit " paf");
    MAGIC "sf"     0 0 (lit "") 0 4 (c_literal [100; 163; 1; 0]);
    MAGIC "sf"     0 0 (lit "") 0 4 (c_literal [0; 1; 163; 100]);
    MAGIC "sf"     0 0 (lit "") 0 4 (c_literal [100; 163; 2; 0]);
    MAGIC "sf"     0 0 (lit "") 0 4 (c_literal [0; 2; 163; 100]);
    MAGIC "sf"     0 0 (lit "") 0 4 (c_literal [100; 163; 3; 0]);
    MAGIC "sf"     0 0 (lit "") 0 4 (c_literal [0; 3; 163; 100]);
    MAGIC "sf"     0 0 (lit "") 0 4 (c_literal [100; 163; 4; 0]) ].

(** The rule guarded by the extension test. *)
Definition sndr_rule : magic_rule := MAGIC "sndr" 7 1 (lit "") 0 2 (c_literal [0]).

Definition tolower (c : ascii) : ascii :=
  let n := nat_of_ascii c in
  if ((65 <=? n) && (n <=? 90))%nat then ascii_of_nat (n + 32) else c.

(** [!strcasecmp(a, b)]. *)
Definition strcaseeq (a b : string) : bool :=
  String.eqb (string_of_list_ascii (map tolower (list_ascii_of_string a)))
    (string_of_list_ascii (map tolower (list_ascii_of_string b))).

(** The local array [data] after [sox_readbuf] stored [got] into it:
    [junk] is what the 256 bytes of the array held before. *)
Definition fill (junk got : list Z) : list Z :=
  got ++ skipn (List.length got) junk.

(** [detect_magic].  [junk] stands for the indeterminate initial contents
    of the local 256-byte array; [NULL] is [None]. *)
Definition detect_magic (junk : list Z) (ft : sox_format_t)
  (ext : option string) : option string * sox_format_t :=
  let '(got, ft') := sox_readbuf ft 256 in
  let data := fill junk got in
  let len := List.length got in
  (match find (magic_match data len) magic_table with
   | Some r => Some (magic_type r)
   | None =>
       match ext with
       | Some x =>
           if strcaseeq x "snd" && magic_match data len sndr_rule
           then Some (magic_type sndr_rule) else None
       | None => None
       end
   end, ft').

(** ** Output format negotiation *)

(** The elements of a zero-terminated array before its terminator. *)
Fixpoint listed (a : list Z) : list Z :=
  match a with
  | [] => []
  | x :: a' => if x =? 0 then [] else x :: listed a'
  end.

(** First loop over [write_rates]: the value of [r] when the loop ends,
    the requested rate if it is listed and [0] otherwise. *)
Fixpoint find_rate (given : Z) (a : list Z) : Z :=
  match a with
  | [] => 0
  | r :: a' =>
      if r =? 0 then 0
      else if r =? given then r
      else find_rate given a'
  end.

(** [r < ft->signal.rate] while that field may still hold [HUGE_VAL]
    ([None]). *)
Definition below (r : Z) (cur : option Z) : bool :=
  match cur with
  | None => true
  | Some c => r <? c
  end.

(** Second loop over [write_rates]: [cur] is [ft->signal.rate] and [mx]
    is the local [max]. *)
Fixpoint scan_rates (given : Z) (a : list Z) (cur : option Z) (mx : Z)
  : option Z * Z :=
  match a with
  | [] => (cur, mx)
  | r :: a' =>
      if r =? 0 then (cur, mx)
      else if (given <? r) && below r cur
           then scan_rates given a' (Some r) mx
           else scan_rates given a' cur (Z.max r mx)
  end.

(** The rate block of [set_output_format] for a handler with a rate
    list. *)
Definition negotiate_rate (rates : list Z) (given : Z) : Z :=
  if given =? 0 then hd 0 rates
  else if negb (find_rate given rates =? given) then
    match scan_rates given rates None 0 with
    | (Some r, _) => r
    | (None, mx) => mx
    end
  else given.

(** [while (enc_arg(unsigned));]: the array after the next terminator. *)
Fixpoint skip_sizes (l : list Z) : list Z :=
  match l with
  | [] => l
  | s :: l' => if s =? 0 then l' else skip_sizes l'
  end.

(** The search for the given encoding: the final [e], and the array from
    the position [i] the search stopped at. *)
Fixpoint find_encoding (given : Z) (l : list Z) : Z :=
  match l with
  | [] => 0
  | e :: l' =>
      if e =? 0 then 0
      else if e =? given then e
      else find_encoding given (skip_sizes l')
  end.

Fixpoint after_encoding (given : Z) (l : list Z) : list Z :=
  match l with
  | [] => l
  | e :: l' =>
      if e =? 0 then l'
      else if e =? given then l'
      else after_encoding given (skip_sizes l')
  end.

(** Locals of the scan over the sizes of the given encoding. *)
Record size_scan := mk_size_scan {
  found : bool;
  best_bits : Z;
  max_p : Z;
  max_p_s : Z
}.

(** Locals of the two searches over the whole table. *)
Record table_scan := mk_table_scan {
  sel_encoding : Z;
  sel_bits : Z;
  tmax_p : Z;
  tmax_p_e : Z;
  tmax_p_s : Z
}.

(** The search for an encoding that has the given size: the inner loop
    yields the final [s]; the outer loop the final [s] and [e]. *)
Fixpoint find_size_inner (bits : Z) (l : list Z) : Z :=
  match l with
  | [] => 0
  | s :: l' =>
      if (s =? 0) || (s =? bits) then s else find_size_inner bits l'
  end.

Fixpoint after_size_inner (bits : Z) (l : list Z) : list Z :=
  match l with
  | [] => l
  | s :: l' =>
      if (s =? 0) || (s =? bits) then l' else after_size_inner bits l'
  end.

Fixpoint find_size (bits : Z) (l : list Z) : Z * Z :=
  match l with
  | [] => (0, 0)
  | e :: l' =>
      if e =? 0 then (0, 0)
      else
        let s := find_size_inner bits l' in
        if s =? bits then (s, e)
        else find_size bits (after_size_inner bits l')
  end.

Section Negotiation.
Context `{sox_h}.

(** The channel block of [set_output_format]. *)
Definition negotiate_channels (fl ch : Z) : Z :=
  if has_flag fl SOX_FILE_CHANS then
    if (ch =? 1) && negb (has_flag fl SOX_FILE_MONO) then
      if has_flag fl SOX_FILE_STEREO then 2 else 4
    else if (ch =? 2) && negb (has_flag fl SOX_FILE_STEREO) then
      if has_flag fl SOX_FILE_QUAD then 4 else 1
    else if (ch =? 4) && negb (has_flag fl SOX_FILE_QUAD) then
      if has_flag fl SOX_FILE_STEREO then 2 else 1
    else ch
  else Z.max ch 1.

(** Scan of the sizes listed for the given encoding [e]. *)
Fixpoint scan_sizes (e prec given_size : Z) (l : list Z) (st : size_scan)
  : size_scan :=
  match l with
  | [] => st
  | s :: l' =>
      if s =? 0 then st
      else
        let fnd := if s =? given_size then true else found st in
        let st' :=
          if prec <=? sox_precision e s then
            mk_size_scan fnd
              (if s <? best_bits st then s else best_bits st)
              (max_p st) (max_p_s st)
          else if max_p st <? sox_precision e s then
            mk_size_scan fnd (best_bits st) (sox_precision e s) s
          else mk_size_scan fnd (best_bits st) (max_p st) (max_p_s st) in
        scan_sizes e prec given_size l' st'
  end.

(** Lossless search, inner loop over the sizes of [e]. *)
Fixpoint lossless_sizes (e prec : Z) (l : list Z) (st : table_scan)
  : table_scan :=
  match l with
  | [] => st
  | s :: l' =>
      if s =? 0 then st
      else
        lossless_sizes e prec l'
          (if (e <? SOX_ENCODING_LOSSLESS)
              && (prec <=? sox_precision e s) && (s <? sel_bits st)
           then mk_table_scan e s (tmax_p st) (tmax_p_e st) (tmax_p_s st)
           else st)
  end.

Fixpoint lossless_search (prec : Z) (l : list Z) (st : table_scan)
  : table_scan :=
  match l with
  | [] => st
  | e :: l' =>
      if e =? 0 then st
      else lossless_search prec (skip_sizes l') (lossless_sizes e prec l' st)
  end.

(** One pass through the body of the [do ... while (s)] loop. *)
Definition lossy_step (e prec s : Z) (st : table_scan) : table_scan :=
  if prec <=? sox_precision e s then
    if s <? sel_bits st
    then mk_table_scan e s (tmax_p st) (tmax_p_e st) (tmax_p_s st)
    else st
  else if tmax_p st <? sox_precision e s then
    mk_table_scan (sel_encoding st) (sel_bits st) (sox_precision e s) e s
  else st.

(** Search over all encodings, inner loop: the terminator of the size
    list goes through the body as well. *)
Fixpoint lossy_sizes (e prec : Z) (l : list Z) (st : table_scan)
  : table_scan :=
  match l with
  | [] => lossy_step e prec 0 st
  | s :: l' =>
      if s =? 0 then lossy_step e prec s st
      else lossy_sizes e prec l' (lossy_step e prec s st)
  end.

Fixpoint lossy_search (prec : Z) (l : list Z) (st : table_scan)
  : table_scan :=
  match l with
  | [] => st
  | e :: l' =>
      if e =? 0 then st
      else lossy_search prec (skip_sizes l') (lossy_sizes e prec l' st)
  end.

(** The encoding part of [set_output_format], for a handler whose
    [write_formats] is the array [encodings]: the resolved encoding
    and bits-per-sample. *)
Definition negotiate_encoding (encodings : list Z) (prec enc0 bits0 : Z)
  : Z * Z :=
  (* an encoding has been given *)
  let '(enc1, bits1) :=
    if negb (enc0 =? 0) then
      let e := find_encoding enc0 encodings in
      if negb (e =? enc0) then (0, bits0)
      else
        let given_size := bits0 in
        let st := scan_sizes e prec given_size
                    (after_encoding enc0 encodings)
                    (mk_size_scan false 65 0 0) in
        let b := if best_bits st =? 65 then max_p_s st else best_bits st in
        (enc0,
         if negb (given_size =? 0) then
           if found st then given_size else b
         else b)
    else (enc0, bits0) in
  (* a size has been given *)
  let '(enc2, bits2) :=
    if (enc1 =? 0) && negb (bits1 =? 0) then
      let '(s, e) := find_size bits1 encodings in
      if negb (s =? bits1) then (enc1, 0) else (e, bits1)
    else (enc1, bits1) in
  (* smallest lossless encoding with enough precision *)
  let '(enc3, bits3) :=
    if enc2 =? 0 then
      let st := lossless_search prec encodings
                  (mk_table_scan enc2 65 0 0 0) in
      (sel_encoding st, sel_bits st)
    else (enc2, bits2) in
  (* smallest lossy encoding with enough precision, or the most precise *)
  if enc3 =? 0 then
    let st := lossy_search prec encodings (mk_table_scan enc3 bits3 0 0 0) in
    if sel_encoding st =? 0 then (tmax_p_e st, tmax_p_s st)
    else (sel_encoding st, sel_bits st)
  else (enc3, bits3).

(** [set_output_format]. *)
Definition set_output_format (ft : sox_format_t) : sox_format_t :=
  let h := handler ft in
  let s := signal ft in
  let rate1 :=
    match write_rates h with
    | Some rates => negotiate_rate rates (rate s)
    | None => if rate s =? 0 then SOX_DEFAULT_RATE else rate s
    end in
  let channels1 := negotiate_channels (flags h) (channels s) in
  let ft1 := with_signal ft (mk_signal rate1 channels1 (precision s)) in
  match write_formats h with
  | None => ft1
  | Some encodings =>
      let e := ft_encoding ft in
      let '(enc, bits) :=
        negotiate_encoding encodings (precision s) (encoding e)
          (bits_per_sample e) in
      let ft2 :=
        with_encoding ft1
          (mk_encoding enc bits (reverse_bytes e) (reverse_nibbles e)
             (reverse_bits e) (opposite_endian e)) in
      with_signal ft2
        (mk_signal rate1 channels1
           (Z.min (precision s) (sox_precision enc bits)))
  end.

End Negotiation.

(** ** Typed stream transfer *)

(** A tri-state field used as a C condition. *)
Definition is_set (o : sox_option_t) : bool := negb (int_of_option o =? 0).

(** Little-endian digits of an unsigned integer, and the converse. *)
Fixpoint le_bytes (size : nat) (v : Z) : list Z :=
  match size with
  | O => []
  | S n => v mod 256 :: le_bytes n (v / 256)
  end.

Fixpoint le_value (bs : list Z) : Z :=
  match bs with
  | [] => 0
  | b :: bs' => b + 256 * le_value bs'
  end.

(** Modelled from the spec: the byte swaps [sox_swapw], [sox_swapdw],
    [sox_swapf] and [sox_swapdf] come from the headers and another file of
    the library.  Each is the full byte swap of a word of its width; a
    float or a double is handled as its 4- or 8-byte bit pattern. *)
Definition byte_swap (size : nat) (v : Z) : Z :=
  le_value (rev (le_bytes size v)).

Definition sox_swapw : Z -> Z := byte_swap 2.
Definition sox_swapdw : Z -> Z := byte_swap 4.
Definition sox_swapf : Z -> Z := byte_swap 4.
Definition sox_swapdf : Z -> Z := byte_swap 8.

(** Modelled from the spec: the table [cswap] is defined in another file
    of the library; entry [ub] is [ub] with its eight bits in reverse
    order. *)
Definition cswap (ub : Z) : Z :=
  fold_right
    (fun i acc => if Z.testbit ub (Z.of_nat i)
                  then acc + 2 ^ (7 - Z.of_nat i) else acc)
    0 (seq 0 8).

(** Modelled from the spec: [sox_error] and [sox_fail_errno] are defined
    in another file of the library.  [sox_error] tells whether the stream
    of the session is in error, and [sox_fail_errno] sets the per-session
    error code and message. *)
Definition sox_error (ft : sox_format_t) : bool := stream_error (io ft).

Definition sox_fail_errno (ft : sox_format_t) (code : Z) (msg : string)
  : sox_format_t := with_error ft code msg.

Definition premature_eof : string := "premature EOF".

(** Modelled from the spec: [sox_size_t], the type the library counts
    elements and bytes in, is declared in a header that is not among
    these sources, and the spec does not give its width.  It is taken
    as what the header makes it, the unsigned 32-bit integer type, so
    the byte count [len * size] that the typed transfer functions
    compute keeps its low 32 bits. *)
Definition sox_size_mul (len size : nat) : nat :=
  Z.to_nat ((Z.of_nat len * Z.of_nat size) mod 2 ^ 32).

(** Consecutive elements of [size] bytes each. *)
Fixpoint chunks (size n : nat) (bs : list Z) : list (list Z) :=
  match n with
  | O => []
  | S n' => firstn size bs :: chunks size n' (skipn size bs)
  end.

Section Codec.
Context `{sox_h}.

(** How this machine lays out an unsigned integer (or the bit pattern
    of a float) of [size] bytes in memory, and the value of [size]
    bytes of memory read back as one object. *)
Definition store (size : nat) (v : Z) : list Z :=
  if SOX_IS_BIGENDIAN then rev (le_bytes size v) else le_bytes size v.

Definition load (bs : list Z) : Z :=
  le_value (if SOX_IS_BIGENDIAN then rev bs else bs).

Definition TWIDDLE_BYTE (ft : sox_format_t) (ub : Z) : Z :=
  let ub1 :=
    if is_set (reverse_bits (ft_encoding ft)) then cswap ub else ub in
  if is_set (reverse_nibbles (ft_encoding ft))
  then Z.lor (Z.shiftl (Z.land ub1 15) 4) (Z.shiftr ub1 4) mod 256
  else ub1.

(** [TWIDDLE_WORD] and [TWIDDLE_FLOAT], given the swap of the type. *)
Definition TWIDDLE_WORD (swap : Z -> Z) (ft : sox_format_t) (uw : Z) : Z :=
  if is_set (reverse_bytes (ft_encoding ft)) then swap uw else uw.

Definition TWIDDLE_FLOAT (ft : sox_format_t) (f : Z) : Z :=
  if is_set (reverse_bytes (ft_encoding ft)) then sox_swapf f else f.

(** [READ_FUNC]: the elements stored in [buf] (their number is the C
    return value) and the session. *)
Definition READ_FUNC (size : nat) (twiddle : sox_format_t -> Z -> Z)
  (ft : sox_format_t) (len : nat) : list Z * sox_format_t :=
  let '(got, ft') := sox_readbuf ft (sox_size_mul len size) in
  let nread := (List.length got / size)%nat in
  (map (fun c => twiddle ft (load c)) (chunks size nread got), ft').

(** [sox_unpack3], on the three bytes at [p]. *)
Definition sox_unpack3 (ft : sox_format_t) (p : list Z) : Z :=
  let p0 := nth 0 p 0 in
  let p1 := nth 1 p 0 in
  let p2 := nth 2 p 0 in
  if int_of_option (reverse_bytes (ft_encoding ft))
     =? int_of_bool SOX_IS_BIGENDIAN
  then Z.lor (Z.lor p0 (Z.shiftl p1 8)) (Z.shiftl p2 16)
  else Z.lor (Z.lor p2 (Z.shiftl p1 8)) (Z.shiftl p0 16).

(** [READ_FUNC_UNPACK] at size 3. *)
Definition READ_FUNC_UNPACK (ft : sox_format_t) (len : nat)
  : list Z * sox_format_t :=
  let '(got, ft') := sox_readbuf ft (sox_size_mul len 3) in
  let nread := (List.length got / 3)%nat in
  (map (sox_unpack3 ft) (chunks 3 nread got), ft').

Definition sox_read_b_buf := READ_FUNC 1 TWIDDLE_BYTE.
Definition sox_read_w_buf := READ_FUNC 2 (TWIDDLE_WORD sox_swapw).
Definition sox_read_3_buf := READ_FUNC_UNPACK.
Definition sox_read_dw_buf := READ_FUNC 4 (TWIDDLE_WORD sox_swapdw).
Definition sox_read_f_buf := READ_FUNC 4 TWIDDLE_FLOAT.
Definition sox_read_df_buf := READ_FUNC 8 (TWIDDLE_WORD sox_swapdf).

(** [READ1_FUNC]: the status, the datum when one was read, and the
    session.  [errno] is the value of the C variable at the call. *)
Definition READ1_FUNC
  (read_buf : sox_format_t -> nat -> list Z * sox_format_t)
  (errno : Z) (ft : sox_format_t) : Z * option Z * sox_format_t :=
  let '(vals, ft') := read_buf ft 1%nat in
  if (List.length vals =? 1)%nat then (SOX_SUCCESS, hd_error vals, ft')
  else (SOX_EOF, None,
        if negb (sox_error ft') then sox_fail_errno ft' errno premature_eof
        else ft').

Definition sox_readb := READ1_FUNC sox_read_b_buf.
Definition sox_readw := READ1_FUNC sox_read_w_buf.
Definition sox_read3 := READ1_FUNC sox_read_3_buf.
Definition sox_readdw := READ1_FUNC sox_read_dw_buf.
Definition sox_readf := READ1_FUNC sox_read_f_buf.
Definition sox_readdf := READ1_FUNC sox_read_df_buf.

(** [sox_readchars]. *)
Definition sox_readchars (errno : Z) (ft : sox_format_t) (len : nat)
  : Z * list Z * sox_format_t :=
  let '(got, ft') := sox_readbuf ft len in
  if (List.length got =? len)%nat then (SOX_SUCCESS, got, ft')
  else (SOX_EOF, got,
        if negb (sox_error ft') then sox_fail_errno ft' errno premature_eof
        else ft').

(** [WRITE_FUNC] on the [len] elements of [buf], where [len] is the
    length of the list: the number of elements written and the session.
    All elements are put in order in memory; the first [len * size]
    bytes of it, as [sox_size_t] counts them, go to [sox_writebuf]. *)
Definition WRITE_FUNC (size : nat) (twiddle : sox_format_t -> Z -> Z)
  (ft : sox_format_t) (buf : list Z) : nat * sox_format_t :=
  let memory := List.concat (map (fun v => store size (twiddle ft v)) buf) in
  let bytes := firstn (sox_size_mul (List.length buf) size) memory in
  let '(nwritten, ft') := sox_writebuf ft bytes in
  ((nwritten / size)%nat, ft').

(** [sox_pack3]: the three bytes stored at [p]. *)
Definition sox_pack3 (ft : sox_format_t) (v : Z) : list Z :=
  let b0 := Z.land v 255 in
  let b1 := Z.land (Z.shiftr v 8) 255 in
  let b2 := Z.land (Z.shiftr v 16) 255 in
  if int_of_option (reverse_bytes (ft_encoding ft))
     =? int_of_bool SOX_IS_BIGENDIAN
  then [b0; b1; b2] else [b2; b1; b0].

(** [WRITE_FUNC_PACK] at size 3.  The first [len * 3] bytes of the
    packed elements, as [sox_size_t] counts them, go to [sox_writebuf];
    [data] is allocated with that size, so when the count has wrapped
    the C loop also stores past its end, which is not followed here. *)
Definition WRITE_FUNC_PACK (ft : sox_format_t) (buf : list Z)
  : nat * sox_format_t :=
  let data := List.concat (map (sox_pack3 ft) buf) in
  let bytes := firstn (sox_size_mul (List.length buf) 3) data in
  let '(nwritten, ft') := sox_writebuf ft bytes in
  ((nwritten / 3)%nat, ft').

Definition sox_write_b_buf := WRITE_FUNC 1 TWIDDLE_BYTE.
Definition sox_write_w_buf := WRITE_FUNC 2 (TWIDDLE_WORD sox_swapw).
Definition sox_write_3_buf := WRITE_FUNC_PACK.
Definition sox_write_dw_buf := WRITE_FUNC 4 (TWIDDLE_WORD sox_swapdw).
Definition sox_write_f_buf := WRITE_FUNC 4 TWIDDLE_FLOAT.
Definition sox_write_df_buf := WRITE_FUNC 8 (TWIDDLE_WORD sox_swapdf).

End Codec.

(** ** Session lifecycle *)

(** The part of [sox_globals] the I/O core reads and writes. *)
Record sox_globals_t := mk_globals {
  verbosity : Z;
  bufsiz : Z;
  stdin_in_use_by : option string;
  stdout_in_use_by : option string
}.

(** The initial value of [sox_globals]. *)
Definition sox_globals_init : sox_globals_t := mk_globals 2 8192 None None.

(** Calls that leave soxio.c, as they appear in the trace. *)
Inductive event :=
| EvHook (f : nat)
| EvSeek (offset whence : Z)
| EvFclose (stream : option FILE).

(** Process-wide state: the globals and the calls made so far. *)
Record world := mk_world {
  sox_globals : sox_globals_t;
  trace : list event
}.

Definition log (w : world) (e : event) : world :=
  mk_world (sox_globals w) (trace w ++ [e]).

(** What the rest of the library and the C runtime do for soxio.c: the
    code behind the function pointers of the handlers, the handler
    registry, the file system, and helpers defined in other files.
    [stat_regular] tells whether [stat] finds a regular file at a path,
    [is_regular] is the test of [is_seekable] on an open stream, and
    [setvbuf_fails] whether [setvbuf] reports failure. *)
Record sox_env := mk_env {
  call_hook : nat -> sox_format_t -> Z * sox_format_t;
  call_read : nat -> sox_format_t -> Z -> Z * list Z * sox_format_t;
  sox_find_format : string -> bool -> option sox_format_handler_t;
  find_file_extension : string -> option string;
  xfopen : string -> option stream_t;
  stdin_stream : stream_t;
  stat_regular : string -> bool;
  fopen_wb : string -> option stream_t;
  stdout_stream : stream_t;
  setvbuf_fails : FILE -> bool;
  is_regular : FILE -> bool;
  sox_seeki : sox_format_t -> Z -> Z -> Z * sox_format_t;
  sox_init_encodinginfo : sox_encodinginfo_t;
  stack_junk : list Z
}.

Section Lifecycle.
Context `{sox_h} (env : sox_env).

(** Call of a handler hook through its pointer. *)
Definition invoke (f : nat) (ft : sox_format_t) (w : world)
  : Z * sox_format_t * world :=
  let '(rc, ft') := call_hook env f ft in (rc, ft', log w (EvHook f)).

(** Call of [sox_seeki], which is defined in another file. *)
Definition seeki (ft : sox_format_t) (offset whence : Z) (w : world)
  : Z * sox_format_t * world :=
  let '(rc, ft') := sox_seeki env ft offset whence in
  (rc, ft', log w (EvSeek offset whence)).

(** [sox_read]: the count returned, what the callback left in [buf],
    and the session. *)
Definition sox_read (ft : sox_format_t) (len : Z)
  : Z * list Z * sox_format_t :=
  let '(actual, buf, ft') :=
    match read (handler ft) with
    | Some f => call_read env f ft len
    | None => (0, [], ft)
    end in
  (if len <? actual then 0 else actual, buf, ft').

(** [sox_checkformat]. *)
Definition sox_checkformat (ft : sox_format_t) : Z * sox_format_t :=
  let ft0 := with_error ft SOX_SUCCESS (sox_errstr ft) in
  if rate (signal ft0) =? 0 then
    (SOX_EOF,
     sox_fail_errno ft0 SOX_EFMT "sampling rate was not specified")
  else if precision (signal ft0) =? 0 then
    (SOX_EOF,
     sox_fail_errno ft0 SOX_EFMT "data encoding was not specified")
  else (SOX_SUCCESS, ft0).

(** The session [xcalloc] returns. *)
Definition zeroed_format : sox_format_t :=
  mk_format None (mk_signal 0 0 0)
    (mk_encoding 0 0 SOX_OPTION_NO SOX_OPTION_NO SOX_OPTION_NO false)
    None false zero 0 0 0 "" None (mk_stream [] [] false) null_handler.

(** The [error:] exit of [sox_open_read]. *)
Definition open_read_error (ft : sox_format_t) (w : world)
  : option sox_format_t * world :=
  (None,
   match fp ft with
   | Some stdin => w
   | Some f => log w (EvFclose (Some f))
   | None => w
   end).

(** [sox_open_read], from the point where the session has its stream:
    type detection, the start hook, defaults and validation. *)
Definition open_read_resolve (ft : sox_format_t) (w : world)
  (path : string) (sig : option sox_signalinfo_t)
  (enc : option sox_encodinginfo_t) (ftype : option string)
  : option sox_format_t * world :=
  (* the type, when none was given: sniffed or from the extension *)
  let sniffed :=
    match ftype with
    | Some _ => (ftype, ft, w)
    | None =>
        if seekable ft then
          let '(t, ft1) :=
            detect_magic (stack_junk env) ft (find_file_extension env path) in
          let '(_, ft2, w2) := seeki ft1 0 0 w in
          (t, ft2, w2)
        else (None, ft, w)
    end in
  let '(detected, ft1, w1) := sniffed in
  let resolved_handler :=
    match ftype with
    | Some t => Some (t, handler ft1)
    | None =>
        match detected with
        | Some t =>
            match sox_find_format env t false with
            | Some h => Some (t, h)
            | None => None
            end
        | None =>
            match find_file_extension env path with
            | Some t =>
                match sox_find_format env t true with
                | Some h => Some (t, h)
                | None => None
                end
            | None => None
            end
        end
    end in
  match resolved_handler with
  | None => open_read_error ft1 w1
  | Some (t, h) =>
      let ft2 := with_handler ft1 h in
      match startread h, read h with
      | None, None => open_read_error ft2 w1
      | _, _ =>
          let ft3 :=
            mk_format (Some path)
              (match sig with Some s => s | None => signal ft2 end)
              (match enc with
               | Some e => e
               | None => sox_init_encodinginfo env
               end)
              (Some t) (seekable ft2) "r"%char (ft_length ft2)
              (olength ft2) (sox_errno ft2) (sox_errstr ft2) (fp ft2)
              (io ft2) h in
          let ft4 := fst (set_endianness_if_not_already_set ft3) in
          let '(rc, ft5, w5) :=
            match startread h with
            | Some f => invoke f ft4 w1
            | None => (SOX_SUCCESS, ft4, w1)
            end in
          if negb (rc =? SOX_SUCCESS) then open_read_error ft5 w5
          else
            let s := signal ft5 in
            let prec :=
              if precision s =? 0
              then sox_precision (encoding (ft_encoding ft5))
                     (bits_per_sample (ft_encoding ft5))
              else precision s in
            let chans :=
              if negb (has_flag (flags (handler ft5)) SOX_FILE_PHONY)
                 && (channels s =? 0)
              then 1 else channels s in
            let ft6 := with_signal ft5 (mk_signal (rate s) chans prec) in
            let '(ok, ft7) := sox_checkformat ft6 in
            if ok =? SOX_SUCCESS then (Some ft7, w5)
            else open_read_error ft7 w5
      end
  end.

(** The session once it holds the stream [f] with contents [s]. *)
Definition attach (ft : sox_format_t) (f : FILE) (s : stream_t)
  : sox_format_t :=
  mk_format (filename ft) (signal ft) (ft_encoding ft) (filetype ft)
    (is_regular env f) (mode ft) (ft_length ft) (olength ft)
    (sox_errno ft) (sox_errstr ft) (Some f) s (handler ft).

(** [sox_open_read]: the session, or [None] for [NULL], and the
    world. *)
Definition sox_open_read (w : world) (path : string)
  (sig : option sox_signalinfo_t) (enc : option sox_encodinginfo_t)
  (ftype : option string) : option sox_format_t * world :=
  let ft := zeroed_format in
  let with_type :=
    match ftype with
    | Some t =>
        match sox_find_format env t false with
        | Some h => Some (with_handler ft h)
        | None => None
        end
    | None => Some ft
    end in
  match with_type with
  | None => open_read_error ft w
  | Some ft1 =>
      if negb (has_flag (flags (handler ft1)) SOX_FILE_NOSTDIO) then
        if String.eqb path "-" then
          match stdin_in_use_by (sox_globals w) with
          | Some _ => open_read_error ft1 w
          | None =>
              let g := sox_globals w in
              let w1 :=
                mk_world
                  (mk_globals (verbosity g) (bufsiz g)
                     (Some "audio input") (stdout_in_use_by g))
                  (trace w) in
              open_read_resolve (attach ft1 stdin (stdin_stream env)) w1
                path sig enc ftype
          end
        else
          match xfopen env path with
          | None => open_read_error ft1 w
          | Some s =>
              open_read_resolve (attach ft1 (file_of path) s) w
                path sig enc ftype
          end
      else open_read_resolve ft1 w path sig enc ftype
  end.

(** [sox_gettype]. *)
Definition sox_gettype (ft : sox_format_t) (is_file_extension : bool)
  : Z * sox_format_t :=
  match filetype ft with
  | None => (SOX_EFMT, sox_fail_errno ft SOX_EFMT "unknown file type")
  | Some t =>
      match sox_find_format env t is_file_extension with
      | None => (SOX_EFMT, sox_fail_errno ft SOX_EFMT "unknown file type")
      | Some h =>
          let ft1 := with_handler ft h in
          match Ascii.eqb (mode ft1) "w"%char, startwrite h, write h with
          | true, None, None =>
              (SOX_EFMT,
               sox_fail_errno ft1 SOX_EFMT "file type isn't writable")
          | _, _, _ => (SOX_SUCCESS, ft1)
          end
      end
  end.

(** The [error:] exit of [sox_open_write]. *)
Definition open_write_error (ft : sox_format_t) (w : world)
  : option sox_format_t * world :=
  (None,
   match fp ft with
   | Some stdout => w
   | Some f => log w (EvFclose (Some f))
   | None => w
   end).

(** [sox_open_write], from the point where the session has its stream (or
    its handler does without one).  The length is rescaled in exact
    arithmetic, where C computes in [double]; the comments, loops and
    instrument block, which are only copied, are left out. *)
Definition open_write_start (ft : sox_format_t) (w : world)
  (sig : sox_signalinfo_t) (len : Z) : option sox_format_t * world :=
  let ft1 :=
    mk_format (filename ft) (signal ft) (ft_encoding ft) (filetype ft)
      (seekable ft) (mode ft) len (olength ft) (sox_errno ft)
      (sox_errstr ft) (fp ft) (io ft) (handler ft) in
  let ft2 := fst (set_endianness_if_not_already_set ft1) in
  let ft3 := set_output_format ft2 in
  let len' :=
    if negb (rate sig =? 0) && negb (channels sig =? 0) then
      (2 * ft_length ft3 * rate (signal ft3) * channels (signal ft3)
       + rate sig * channels sig) / (2 * rate sig * channels sig)
    else ft_length ft3 in
  let ft4 :=
    mk_format (filename ft3) (signal ft3) (ft_encoding ft3) (filetype ft3)
      (seekable ft3) (mode ft3) len' (olength ft3) (sox_errno ft3)
      (sox_errstr ft3) (fp ft3) (io ft3) (handler ft3) in
  let '(rc, ft5, w5) :=
    match startwrite (handler ft4) with
    | Some f => invoke f ft4 w
    | None => (SOX_SUCCESS, ft4, w)
    end in
  if negb (rc =? SOX_SUCCESS) then open_write_error ft5 w5
  else
    let '(ok, ft6) := sox_checkformat ft5 in
    if ok =? SOX_SUCCESS then (Some ft6, w5) else open_write_error ft6 w5.

(** [sox_open_write]: the session, or [None] for [NULL], and the world.
    A null [path] or [signal] is [None]. *)
Definition sox_open_write (w : world)
  (overwrite_permitted : option (string -> bool)) (path : option string)
  (sig : option sox_signalinfo_t) (enc : option sox_encodinginfo_t)
  (ftype : option string) (len : Z) : option sox_format_t * world :=
  match path, sig with
  | Some p, Some s =>
      let ft0 := zeroed_format in
      let ft1 :=
        mk_format (Some p) (signal ft0) (ft_encoding ft0)
          (match ftype with
           | None => find_file_extension env p
           | Some t => Some t
           end)
          (seekable ft0) "w"%char (ft_length ft0) (olength ft0)
          (sox_errno ft0) (sox_errstr ft0) (fp ft0) (io ft0) (handler ft0) in
      let '(rc, ft2) :=
        sox_gettype ft1 (match ftype with None => true | Some _ => false end) in
      if negb (rc =? SOX_SUCCESS) then open_write_error ft2 w
      else
        let ft3 :=
          with_encoding (with_signal ft2 s)
            (match enc with
             | Some e => e
             | None => sox_init_encodinginfo env
             end) in
        if negb (has_flag (flags (handler ft3)) SOX_FILE_NOSTDIO) then
          if String.eqb p "-" then
            match stdout_in_use_by (sox_globals w) with
            | Some _ => open_write_error ft3 w
            | None =>
                let g := sox_globals w in
                let w1 :=
                  mk_world
                    (mk_globals (verbosity g) (bufsiz g) (stdin_in_use_by g)
                       (Some "audio output"))
                    (trace w) in
                let ft4 :=
                  mk_format (filename ft3) (signal ft3) (ft_encoding ft3)
                    (filetype ft3) (seekable ft3) (mode ft3) (ft_length ft3)
                    (olength ft3) (sox_errno ft3) (sox_errstr ft3)
                    (Some stdout) (stdout_stream env) (handler ft3) in
                if setvbuf_fails env stdout then open_write_error ft4 w1
                else open_write_start (attach ft4 stdout (io ft4)) w1 s len
            end
          else if stat_regular env p
                  && match overwrite_permitted with
                     | Some permitted => negb (permitted p)
                     | None => false
                     end
          then open_write_error ft3 w
          else
            match fopen_wb env p with
            | None => open_write_error ft3 w
            | Some st =>
                let ft4 :=
                  mk_format (filename ft3) (signal ft3) (ft_encoding ft3)
                    (filetype ft3) (seekable ft3) (mode ft3) (ft_length ft3)
                    (olength ft3) (sox_errno ft3) (sox_errstr ft3)
                    (Some (file_of p)) st (handler ft3) in
                if setvbuf_fails env (file_of p) then open_write_error ft4 w
                else open_write_start (attach ft4 (file_of p) st) w s len
            end
        else open_write_start ft3 w s len
  | _, _ => (None, w)
  end.

(** [sox_close]: the status and the world; the session is freed. *)
Definition sox_close (ft : sox_format_t) (w : world) : Z * world :=
  let h := handler ft in
  let '(rc, ft1, w1) :=
    if Ascii.eqb (mode ft) "r"%char then
      match stopread h with
      | Some f => invoke f ft w
      | None => (SOX_SUCCESS, ft, w)
      end
    else if has_flag (flags h) SOX_FILE_REWIND then
      if negb (olength ft =? ft_length ft) && seekable ft then
        let '(rc0, ft0, w0) := seeki ft 0 0 w in
        if rc0 =? SOX_SUCCESS then
          match stopwrite (handler ft0), startwrite (handler ft0) with
          | Some f, _ => invoke f ft0 w0
          | None, Some f => invoke f ft0 w0
          | None, None => (SOX_SUCCESS, ft0, w0)
          end
        else (rc0, ft0, w0)
      else (SOX_SUCCESS, ft, w)
    else
      match stopwrite h with
      | Some f => invoke f ft w
      | None => (SOX_SUCCESS, ft, w)
      end in
  (rc,
   if negb (has_flag (flags (handler ft1)) SOX_FILE_NOSTDIO)
   then log w1 (EvFclose (fp ft1)) else w1).

End Lifecycle.

(** ** A concrete platform *)

(** Sample values for the header declarations, used to run the functions
    on concrete inputs: a little-endian machine, one bit per flag with
    [SOX_FILE_CHANS] the union of the three channel bits, and linear PCM,
    whose precision is its depth. *)
Definition sample_h : sox_h := {|
  SOX_FILE_NOSTDIO := 1;
  SOX_FILE_PHONY := 4;
  SOX_FILE_REWIND := 8;
  SOX_FILE_BIT_REV := 16;
  SOX_FILE_NIB_REV := 32;
  SOX_FILE_ENDIAN := 64;
  SOX_FILE_ENDBIG := 128;
  SOX_FILE_MONO := 256;
  SOX_FILE_STEREO := 512;
  SOX_FILE_QUAD := 1024;
  SOX_FILE_CHANS := 1792;
  SOX_IS_BIGENDIAN := false;
  SOX_DEFAULT_RATE := 48000;
  SOX_DEFAULT_PRECISION := 16;
  SOX_DEFAULT_CHANNELS := 2;
  SOX_ENCODING_LOSSLESS := 9;
  SOX_SUCCESS := 0;
  SOX_EOF := -1;
  SOX_EFMT := 2001;
  sox_precision := fun _ bits => bits
|}.

(** A session on the file ["out"] with the given handler, signal,
    encoding and mode, and an empty stream. *)
Definition sample_format (h : sox_format_handler_t) (s : sox_signalinfo_t)
  (e : sox_encodinginfo_t) (m : ascii) : sox_format_t :=
  mk_format (Some "out") s e (Some "raw") false m 0 0 0 ""
    (Some (file_of "out")) (mk_stream [] [] false) h.

(** An encoding record with everything unset. *)
Definition unset_encoding : sox_encodinginfo_t :=
  mk_encoding 0 0 SOX_OPTION_DEFAULT SOX_OPTION_DEFAULT SOX_OPTION_DEFAULT
    false.

(** A write handler with the given flags, hooks [startwrite] and
    [stopwrite], capability table and rate list. *)
Definition sample_writer (fl : Z) (start stop : option nat)
  (formats rates : option (list Z)) : sox_format_handler_t :=
  mk_handler ["raw"] fl None None None start (Some 3%nat) stop None
    formats rates.

(** A capability table: encoding 1 at 16, 24 and 32 bits, encoding 2 at
    8 bits, and encoding 10, past the lossless boundary, at 8 bits. *)
Definition sample_formats : list Z := [1; 16; 24; 32; 0; 2; 8; 0; 10; 8; 0; 0].

(** What [set_output_format] resolves a request to on a handler with
    [sample_formats] and the rates 8000, 44100 and 48000: the signal, the
    encoding and the bits per sample. *)
Definition negotiated (s : sox_signalinfo_t) (enc bits : Z)
  : sox_signalinfo_t * Z * Z :=
  let h := sample_writer 0 None None (Some sample_formats)
             (Some [8000; 44100; 48000; 0]) in
  let e := mk_encoding enc bits SOX_OPTION_DEFAULT SOX_OPTION_DEFAULT
             SOX_OPTION_DEFAULT false in
  let ft := set_output_format (H := sample_h)
              (sample_format h s e "w"%char) in
  (signal ft, encoding (ft_encoding ft), bits_per_sample (ft_encoding ft)).

(** A linear PCM handler that reads and writes through stdio. *)
Definition raw_handler : sox_format_handler_t :=
  mk_handler ["raw"] 0 None (Some 0%nat) None None (Some 3%nat) None None
    None None.

(** A sample environment: the registry knows ["raw"] only, no file can be
    opened, the standard streams are empty and not seekable, every hook
    succeeds, and the read callback number [f] reports [f] elements more
    than it was asked for. *)
Definition sample_env : sox_env := {|
  call_hook := fun _ ft => (0, ft);
  call_read := fun f ft len => (len + Z.of_nat f, [], ft);
  sox_find_format := fun name _ =>
    if String.eqb name "raw" then Some raw_handler else None;
  find_file_extension := fun _ => None;
  xfopen := fun _ => None;
  stdin_stream := mk_stream [] [] false;
  stat_regular := fun _ => false;
  fopen_wb := fun _ => None;
  stdout_stream := mk_stream [] [] false;
  setvbuf_fails := fun _ => false;
  is_regular := fun _ => false;
  sox_seeki := fun ft _ _ => (0, ft);
  sox_init_encodinginfo := unset_encoding;
  stack_junk := repeat 0 256
|}.

(** The world at program start. *)
Definition initial_world : world := mk_world sox_globals_init [].

(** ** Vocabulary of the properties *)

(** A stream that starts with the four-byte tag [tag], then four bytes
    [size], then the four-byte tag [kind] at offset 8. *)
Definition container (tag : string) (size : list Z) (kind : string)
  (rest : list Z) : list Z :=
  bytes_of tag ++ size ++ bytes_of kind ++ rest.

(** Bytes are the integers from 0 to 255. *)
Definition is_byte (b : Z) : Prop := 0 <= b < 256.

(** A session with the settings of [ft] whose stream holds [bytes]. *)
Definition reading (ft : sox_format_t) (bytes : list Z) : sox_format_t :=
  with_io ft (mk_stream bytes [] false).

(** The buffer [detect_magic] tests and the number of bytes read into
    it. *)
Definition sniffed_data (junk : list Z) (ft : sox_format_t) : list Z :=
  fill junk (firstn 256 (pending (io ft))).

Definition sniffed_len (ft : sox_format_t) : nat :=
  List.length (firstn 256 (pending (io ft))).

(** An unsigned value that fits [size] bytes. *)
Definition fits (size : nat) (v : Z) : Prop := 0 <= v < 256 ^ Z.of_nat size.

(** The byte count of [len] elements of [size] bytes is in the range of
    [sox_size_t]. *)
Definition countable (len size : nat) : Prop :=
  Z.of_nat len * Z.of_nat size < 2 ^ 32.

(** Writing [buf] with [wr], then reading the bytes this produced back
    with [rd] under the settings of the same session: the count the write
    returns and the elements the read stores. *)
Definition round_trip
  (wr : sox_format_t -> list Z -> nat * sox_format_t)
  (rd : sox_format_t -> nat -> list Z * sox_format_t)
  (ft : sox_format_t) (buf : list Z) : nat * list Z :=
  let '(n, ft') := wr ft buf in
  let bytes := skipn (List.length (written (io ft))) (written (io ft')) in
  (n, fst (rd (reading ft bytes) (List.length buf))).

(** The handler [sox_open_read] has in hand when it decides whether to
    open a stdio stream: the one registered for the given type or, when
    no type is given, the zeroed one. *)
Definition read_handler (env : sox_env) (ftype : option string)
  : option sox_format_handler_t :=
  match ftype with
  | Some t => sox_find_format env t false
  | None => Some null_handler
  end.

(** The handler [sox_gettype] looks up for [sox_open_write]. *)
Definition write_handler (env : sox_env) (path : string)
  (ftype : option string) : option sox_format_handler_t :=
  match ftype with
  | Some t => sox_find_format env t false
  | None =>
      match find_file_extension env path with
      | Some t => sox_find_format env t true
      | None => None
      end
  end.

(** A handler that goes through stdio. *)
Definition uses_stdio `{sox_h} (h : sox_format_handler_t) : Prop :=
  has_flag (flags h) SOX_FILE_NOSTDIO = false.

(** A handler that can write. *)
Definition writable (h : sox_format_handler_t) : Prop :=
  startwrite h <> None \/ write h <> None.

(** The trace ends with at most the [fclose] of the session's stream. *)
Definition closing (tail : list event) : Prop :=
  tail = [] \/ exists f, tail = [EvFclose f].

(** The hook that rewrites the header after the rewind: stop-write or,
    lacking one, start-write. *)
Definition rewrite_hook (h : sox_format_handler_t) : list event :=
  match stopwrite h, startwrite h with
  | Some f, _ => [EvHook f]
  | None, Some f => [EvHook f]
  | None, None => []
  end.

(** The stop-write hook, when the handler has one. *)
Definition stop_hook (h : sox_format_handler_t) : list event :=
  match stopwrite h with
  | Some f => [EvHook f]
  | None => []
  end.

(** * Further functions of soxio.c *)

(** ** Capability query *)

(** The scan of the sizes of the requested encoding in
    [sox_format_supports_encoding]. *)
Fixpoint has_size (bits : Z) (l : list Z) : bool :=
  match l with
  | [] => false
  | s :: l' =>
      if s =? 0 then false
      else if s =? bits then true
      else has_size bits l'
  end.

(** The loop of [sox_format_supports_encoding] over the capability
    table. *)
Fixpoint supports_scan (enc bits : Z) (l : list Z) : bool :=
  match l with
  | [] => false
  | e :: l' =>
      if e =? 0 then false
      else if e =? enc then has_size bits l'
      else supports_scan enc bits (skip_sizes l')
  end.

Section Query.
Context `{sox_h} (env : sox_env).

(** [sox_format_supports_encoding].  The session [ft] is a local of the
    function that is not initialised: only its [filetype] is set before
    [sox_gettype] reads it, so its other members, [mode] among them, are
    whatever [ft] holds. *)
Definition sox_format_supports_encoding (ft : sox_format_t) (path : string)
  (ftype : option string) (enc : sox_encodinginfo_t) : bool :=
  let ft1 :=
    mk_format (filename ft) (signal ft) (ft_encoding ft)
      (match ftype with
       | Some t => Some t
       | None => find_file_extension env path
       end)
      (seekable ft) (mode ft) (ft_length ft) (olength ft) (sox_errno ft)
      (sox_errstr ft) (fp ft) (io ft) (handler ft) in
  let '(rc, ft2) :=
    sox_gettype env ft1 (match ftype with None => true | Some _ => false end) in
  if negb (rc =? SOX_SUCCESS) then false
  else
    match write_formats (handler ft2) with
    | None => false
    | Some encodings =>
        supports_scan (encoding enc) (bits_per_sample enc) encodings
    end.

End Query.

(** ** Single-element writes *)

Section Write1.
Context `{sox_h}.

(** [WRITE1U_FUNC] and [WRITE1S_FUNC]: the argument [d], an [unsigned] or
    a [signed], is converted to the element type, which has [csize]
    bytes, and written as one element.  [uint24_t] is a 4-byte type. *)
Definition WRITE1_CAST (csize : nat)
  (write_buf : sox_format_t -> list Z -> nat * sox_format_t)
  (ft : sox_format_t) (d : Z) : Z * sox_format_t :=
  let datum := d mod 256 ^ Z.of_nat csize in
  let '(n, ft') := write_buf ft [datum] in
  (if (n =? 1)%nat then SOX_SUCCESS else SOX_EOF, ft').

Definition sox_writeb := WRITE1_CAST 1 sox_write_b_buf.
Definition sox_writew := WRITE1_CAST 2 sox_write_w_buf.
Definition sox_write3 := WRITE1_CAST 4 sox_write_3_buf.
Definition sox_writedw := WRITE1_CAST 4 sox_write_dw_buf.
Definition sox_writesb := WRITE1_CAST 1 sox_write_b_buf.
Definition sox_writesw := WRITE1_CAST 2 sox_write_w_buf.

End Write1.

(** ** Vocabulary of the further properties *)

(** The (encoding, size) pairs of a capability table. *)
Fixpoint pairs (l : list Z) : list (Z * Z) :=
  match l with
  | [] => []
  | e :: l' =>
      if e =? 0 then []
      else map (pair e) (listed l') ++ pairs (skip_sizes l')
  end.

(** The encodings of a capability table, with or without sizes. *)
Fixpoint encodings_of (l : list Z) : list Z :=
  match l with
  | [] => []
  | e :: l' => if e =? 0 then [] else e :: encodings_of (skip_sizes l')
  end.

(** The bytes most significant first, or least significant first. *)
Definition wire_bytes (big : bool) (size : nat) (v : Z) : list Z :=
  if big then rev (le_bytes size v) else le_bytes size v.

(** The channel count [ch] is one the flags [fl] allow. *)
Definition channels_allowed `{sox_h} (fl ch : Z) : Prop :=
  (ch = 1 /\ has_flag fl SOX_FILE_MONO = true)
  \/ (ch = 2 /\ has_flag fl SOX_FILE_STEREO = true)
  \/ (ch = 4 /\ has_flag fl SOX_FILE_QUAD = true).

(** The events that a call added to the trace. *)
Definition added (w w' : world) : list event :=
  skipn (List.length (trace w)) (trace w').

Definition is_fclose (e : event) : bool :=
  match e with
  | EvFclose _ => true
  | _ => false
  end.

(** The streams closed by the calls in a list of events. *)
Definition fcloses (evs : list event) : list event := filter is_fclose evs.

(** The code behind the hooks leaves the stream pointer of the session
    alone. *)
Definition hooks_keep_fp (env : sox_env) : Prop :=
  forall f ft, fp (snd (call_hook env f ft)) = fp ft.

(** [sox_seeki] leaves the stream pointer of the session alone. *)
Definition seek_keeps_fp (env : sox_env) : Prop :=
  forall ft o wh, fp (snd (sox_seeki env ft o wh)) = fp ft.

(** The code behind the hooks and [sox_seeki] leaves the stream pointer
    and the handler of the session alone. *)
Definition keeps_stream (env : sox_env) : Prop :=
  (forall f ft, fp (snd (call_hook env f ft)) = fp ft
                /\ handler (snd (call_hook env f ft)) = handler ft)
  /\ (forall ft o wh, fp (snd (sox_seeki env ft o wh)) = fp ft
                      /\ handler (snd (sox_seeki env ft o wh)) = handler ft).

(** The sample environment with the handler [h] registered under the
    name ["pcm"], next to ["raw"]. *)
Definition env_with (h : sox_format_handler_t) : sox_env := {|
  call_hook := call_hook sample_env;
  call_read := call_read sample_env;
  sox_find_format := fun name ext =>
    if String.eqb name "pcm" then Some h
    else sox_find_format sample_env name ext;
  find_file_extension := find_file_extension sample_env;
  xfopen := xfopen sample_env;
  stdin_stream := stdin_stream sample_env;
  stat_regular := stat_regular sample_env;
  fopen_wb := fopen_wb sample_env;
  stdout_stream := stdout_stream sample_env;
  setvbuf_fails := setvbuf_fails sample_env;
  is_regular := is_regular sample_env;
  sox_seeki := sox_seeki sample_env;
  sox_init_encodinginfo := sox_init_encodinginfo sample_env;
  stack_junk := stack_junk sample_env
|}.

(** A writer with the capability table [sample_formats]. *)
Definition pcm_handler : sox_format_handler_t :=
  sample_writer 0 None None (Some sample_formats) None.

(** The environment [env] with a file [name] that can be opened, for
    reading with the contents [s] and for writing. *)
Definition with_file (env : sox_env) (name : string) (s : stream_t)
  : sox_env := {|
  call_hook := call_hook env;
  call_read := call_read env;
  sox_find_format := sox_find_format env;
  find_file_extension := find_file_extension env;
  xfopen := fun p => if String.eqb p name then Some s else xfopen env p;
  stdin_stream := stdin_stream env;
  stat_regular := stat_regular env;
  fopen_wb := fun p =>
    if String.eqb p name then Some (mk_stream [] [] false)
    else fopen_wb env p;
  stdout_stream := stdout_stream env;
  setvbuf_fails := setvbuf_fails env;
  is_regular := is_regular env;
  sox_seeki := sox_seeki env;
  sox_init_encodinginfo := sox_init_encodinginfo env;
  stack_junk := stack_junk env
|}.

(** The pairs the search over all encodings goes through: the listed
    pairs and, for every encoding, the terminator of its size list. *)
Fixpoint entries (l : list Z) : list (Z * Z) :=
  match l with
  | [] => []
  | e :: l' =>
      if e =? 0 then []
      else map (pair e) (listed l' ++ [0]) ++ entries (skip_sizes l')
  end.

(** What a search that keeps the smallest size among the pairs of [L]
    that pass the test [q] does to the selected pair: it is left alone
    or replaced by a pair of [L] that passes [q] and has a smaller size,
    and in the end no pair of [L] that passes [q] has a smaller size than
    the selected one. *)
Definition selects (q : Z -> Z -> bool) (L : list (Z * Z))
  (st st' : table_scan) : Prop :=
  sel_bits st' <= sel_bits st
  /\ ((sel_encoding st' = sel_encoding st /\ sel_bits st' = sel_bits st)
      \/ (In (sel_encoding st', sel_bits st') L
          /\ q (sel_encoding st') (sel_bits st') = true
          /\ sel_bits st' < sel_bits st))
  /\ (forall e s, In (e, s) L -> q e s = true -> sel_bits st' <= s).

(** What the search over all encodings does to the fallback: among the
    pairs of [L] whose precision is below [prec], it keeps one of the
    highest precision seen so far. *)
Definition tracks_max `{sox_h} (prec : Z) (L : list (Z * Z))
  (st st' : table_scan) : Prop :=
  tmax_p st <= tmax_p st'
  /\ ((tmax_p st' = tmax_p st /\ tmax_p_e st' = tmax_p_e st
       /\ tmax_p_s st' = tmax_p_s st)
      \/ (In (tmax_p_e st', tmax_p_s st') L
          /\ tmax_p st' = sox_precision (tmax_p_e st') (tmax_p_s st')
          /\ tmax_p st' < prec))
  /\ (forall e s, In (e, s) L -> sox_precision e s < prec ->
                  sox_precision e s <= tmax_p st').

(** The test of the lossless search and the test of the search over all
    encodings. *)
Definition lossless_fit `{sox_h} (prec e s : Z) : bool :=
  (e <? SOX_ENCODING_LOSSLESS) && (prec <=? sox_precision e s).

Definition any_fit `{sox_h} (prec e s : Z) : bool :=
  prec <=? sox_precision e s.

(** What a capability table offers: one of its pairs, or one of its
    encodings without a size, or nothing at all. *)
Definition offered (l : list Z) (p : Z * Z) : Prop :=
  p = (0, 0) \/ In p (pairs l) \/ (snd p = 0 /\ In (fst p) (encodings_of l)).

(** What [sox_open_read] does to its stream from the point where it is
    attached: on success nothing is closed and the session keeps the
    stream; on failure the stream is closed once, unless it is the
    standard input or absent. *)
Definition read_balance (ft0 : sox_format_t) (w : world)
  (ftype : option string) (r : option sox_format_t * world) : Prop :=
  exists evs,
    trace (snd r) = trace w ++ evs
    /\ match fst r with
       | Some ft =>
           fcloses evs = [] /\ fp ft = fp ft0
           /\ (ftype <> None -> handler ft = handler ft0)
       | None =>
           fcloses evs =
           match fp ft0 with
           | Some stdin => []
           | Some f => [EvFclose (Some f)]
           | None => []
           end
       end.

(** The same without the handler: what happens to the stream alone. *)
Definition read_stream_balance (ft0 : sox_format_t) (w : world)
  (r : option sox_format_t * world) : Prop :=
  exists evs,
    trace (snd r) = trace w ++ evs
    /\ match fst r with
       | Some ft => fcloses evs = [] /\ fp ft = fp ft0
       | None =>
           fcloses evs =
           match fp ft0 with
           | Some stdin => []
           | Some f => [EvFclose (Some f)]
           | None => []
           end
       end.

(** What [sox_open_write] does to its stream from the point where it is
    attached: as [read_balance], with the standard output in the place
    of the standard input. *)
Definition write_balance (ft0 : sox_format_t) (w : world)
  (r : option sox_format_t * world) : Prop :=
  exists evs,
    trace (snd r) = trace w ++ evs
    /\ match fst r with
       | Some ft => fcloses evs = [] /\ fp ft = fp ft0
       | None =>
           fcloses evs =
           match fp ft0 with
           | Some stdout => []
           | Some f => [EvFclose (Some f)]
           | None => []
           end
       end.

(** * Properties *)

(** ** Order normalisation *)

Lemma option_of_bool_resolved b : resolved (option_of_bool b).
Proof. destruct b; [right | left]; reflexivity. Qed.

(** C7. For every handler flag word and every caller setting of the order
    fields (unset included, and with or without the opposite-endian
    request), the session returned by [set_endianness_if_not_already_set]
    has [reverse_bytes], [reverse_bits] and [reverse_nibbles] each
    resolved to yes or no: none is left at [SOX_OPTION_DEFAULT]. *)
Theorem set_endianness_fully_resolved `{sox_h} (ft : sox_format_t) :
  let e := ft_encoding (fst (set_endianness_if_not_already_set ft)) in
  resolved (reverse_bytes e) /\ resolved (reverse_bits e)
  /\ resolved (reverse_nibbles e).
Proof.
  cbn. repeat split.
  - destruct (opposite_endian (ft_encoding ft)).
    + apply option_of_bool_resolved.
    + destruct (reverse_bytes (ft_encoding ft));
        [left; reflexivity | right; reflexivity
        | apply option_of_bool_resolved].
  - destruct (reverse_bits (ft_encoding ft));
      [left; reflexivity | right; reflexivity
      | apply option_of_bool_resolved].
  - destruct (reverse_nibbles (ft_encoding ft));
      [left; reflexivity | right; reflexivity
      | apply option_of_bool_resolved].
Qed.

(** ** Output format negotiation *)

(** The negotiation on sample requests: an unlisted rate, a precision
    no pair reaches, a given encoding with and without a listed size, a
    size alone, and an encoding the handler lacks. *)
Example negotiated_rate_above :
  negotiated (mk_signal 40000 2 16) 0 0 = (mk_signal 44100 2 16, 1, 16).
Proof. reflexivity. Qed.

Example negotiated_precision_clamped :
  negotiated (mk_signal 0 3 40) 0 0 = (mk_signal 8000 3 32, 1, 32).
Proof. reflexivity. Qed.

Example negotiated_given_encoding :
  negotiated (mk_signal 44100 1 16) 2 0 = (mk_signal 44100 1 8, 2, 8)
  /\ negotiated (mk_signal 44100 1 16) 1 24 = (mk_signal 44100 1 16, 1, 24)
  /\ negotiated (mk_signal 44100 1 16) 1 12 = (mk_signal 44100 1 16, 1, 16).
Proof. repeat split; reflexivity. Qed.

Example negotiated_given_size :
  negotiated (mk_signal 44100 1 16) 0 8 = (mk_signal 44100 1 8, 2, 8)
  /\ negotiated (mk_signal 44100 1 16) 0 12 = (mk_signal 44100 1 16, 1, 16).
Proof. repeat split; reflexivity. Qed.

Example negotiated_unknown_encoding :
  negotiated (mk_signal 44100 1 16) 7 0 = (mk_signal 44100 1 16, 1, 16).
Proof. reflexivity. Qed.

Lemma find_rate_listed given a :
  given <> 0 -> ~ In given (listed a) -> find_rate given a = 0.
Proof.
  intros Hg. induction a as [|r a IH]; cbn; intros Hn; [reflexivity|].
  destruct (Z.eqb_spec r 0) as [|Hr]; [reflexivity|].
  cbn in Hn.
  destruct (Z.eqb_spec r given) as [->|Hne]; [exfalso; auto|].
  apply IH. intros Hin. apply Hn. right. exact Hin.
Qed.

(** The candidate [cur] never grows, and stays a listed rate above the
    request once it is one. *)
Lemma scan_rates_min given a : forall cur mx,
  let '(c', _) := scan_rates given a cur mx in
  (c' = cur \/ exists r, c' = Some r /\ In r (listed a) /\ given < r)
  /\ (forall c, cur = Some c -> exists c2, c' = Some c2 /\ c2 <= c)
  /\ (forall r, In r (listed a) -> given < r ->
      exists c2, c' = Some c2 /\ c2 <= r).
Proof.
  induction a as [|r a IH]; intros cur mx; cbn.
  - repeat split; [left; reflexivity | intros c ->; exists c; split; [reflexivity | lia]
                  | intros r [] ].
  - destruct (Z.eqb_spec r 0) as [|Hr].
    + repeat split; [left; reflexivity
                    | intros c ->; exists c; split; [reflexivity | lia]
                    | intros r0 [] ].
    + destruct (Z.ltb_spec given r) as [Hgt|Hle]; cbn [andb].
      * destruct (below r cur) eqn:Hb.
        -- specialize (IH (Some r) mx).
           destruct (scan_rates given a (Some r) mx) as [c' m'].
           destruct IH as (Ha & Hb' & Hc).
           destruct (Hb' r eq_refl) as (c2 & -> & Hc2).
           repeat split.
           ++ right. exists c2. split; [reflexivity|].
              destruct Ha as [Ha|(r1 & Ha & Hin & Hlt)].
              ** injection Ha as ->. split; [left; reflexivity | exact Hgt].
              ** injection Ha as ->. split; [right; exact Hin | exact Hlt].
           ++ intros c ->. exists c2. split; [reflexivity|].
              cbn in Hb. apply Z.ltb_lt in Hb. lia.
           ++ intros r0 [<-|Hin] Hlt.
              ** exists c2. split; [reflexivity | exact Hc2].
              ** apply Hc; assumption.
        -- destruct cur as [c|]; [|discriminate Hb].
           cbn in Hb. apply Z.ltb_ge in Hb.
           specialize (IH (Some c) (Z.max r mx)).
           destruct (scan_rates given a (Some c) (Z.max r mx)) as [c' m'].
           destruct IH as (Ha & Hb' & Hc).
           destruct (Hb' c eq_refl) as (c2 & -> & Hc2).
           repeat split.
           ++ destruct Ha as [Ha|(r1 & Ha & Hin & Hlt)].
              ** left. exact Ha.
              ** right. exists r1. repeat split; [exact Ha | right; exact Hin | exact Hlt].
           ++ intros c0 Hc0. injection Hc0 as <-.
              exists c2. split; [reflexivity | exact Hc2].
           ++ intros r0 [<-|Hin] Hlt.
              ** exists c2. split; [reflexivity | lia].
              ** apply Hc; assumption.
      * specialize (IH cur (Z.max r mx)).
        destruct (scan_rates given a cur (Z.max r mx)) as [c' m'].
        destruct IH as (Ha & Hb' & Hc).
        repeat split.
        -- destruct Ha as [Ha|(r1 & Ha & Hin & Hlt)].
           ++ left. exact Ha.
           ++ right. exists r1. repeat split; [exact Ha | right; exact Hin | exact Hlt].
        -- exact Hb'.
        -- intros r0 [<-|Hin] Hlt; [lia | apply Hc; assumption].
Qed.

(** When no listed rate is above the request, the candidate is left
    alone and [max] becomes the largest of its start value and the listed
    rates. *)
Lemma scan_rates_max given a : forall cur mx,
  (forall r, In r (listed a) -> r <= given) ->
  let '(c', m') := scan_rates given a cur mx in
  c' = cur /\ mx <= m' /\ (m' = mx \/ In m' (listed a))
  /\ forall r, In r (listed a) -> r <= m'.
Proof.
  induction a as [|r a IH]; intros cur mx Hall; cbn.
  - repeat split; [lia | left; reflexivity | intros r [] ].
  - destruct (Z.eqb_spec r 0) as [|Hr].
    + repeat split; [lia | left; reflexivity | intros r0 [] ].
    + cbn in Hall.
      assert (Hr_le : r <= given).
      { apply Hall. destruct (Z.eqb_spec r 0); [contradiction | left; reflexivity]. }
      assert (Hall' : forall r0, In r0 (listed a) -> r0 <= given).
      { intros r0 Hin. apply Hall.
        destruct (Z.eqb_spec r 0); [contradiction | right; exact Hin]. }
      destruct (Z.ltb_spec given r) as [Hgt|_]; [lia|]. cbn [andb].
      specialize (IH cur (Z.max r mx) Hall').
      destruct (scan_rates given a cur (Z.max r mx)) as [c' m'].
      destruct IH as (Hc & Hm & Hin & Hub).
      repeat split.
      * exact Hc.
      * lia.
      * destruct Hin as [->|Hin].
        -- destruct (Z.max_spec r mx) as [[_ ->]|[_ ->]];
             [left; reflexivity | right; left; reflexivity].
        -- right. right. exact Hin.
      * intros r0 [<-|Hin0]; [lia | apply Hub; exact Hin0].
Qed.

Lemma set_output_format_rate `{sox_h} (ft : sox_format_t) (rates : list Z) :
  write_rates (handler ft) = Some rates ->
  rate (signal (set_output_format ft))
  = negotiate_rate rates (rate (signal ft)).
Proof.
  intros Hr. unfold set_output_format. rewrite Hr.
  destruct (write_formats (handler ft)) as [encs|]; [|reflexivity].
  destruct (negotiate_encoding encs _ _ _); reflexivity.
Qed.

Lemma negotiate_rate_unlisted (rates : list Z) (given : Z) :
  given <> 0 -> ~ In given (listed rates) ->
  negotiate_rate rates given
  = match scan_rates given rates None 0 with
    | (Some r, _) => r
    | (None, mx) => mx
    end.
Proof.
  intros Hg Hn. unfold negotiate_rate.
  destruct (Z.eqb_spec given 0) as [|_]; [contradiction|].
  rewrite (find_rate_listed given rates Hg Hn).
  destruct (Z.eqb_spec 0 given) as [Heq|_]; [symmetry in Heq; contradiction|].
  reflexivity.
Qed.

(** C1. For a write session whose handler has a rate list with positive
    rates, when the requested rate is non-zero and not listed,
    [set_output_format] resolves the rate to the smallest listed rate
    strictly above the request and, when no listed rate is above it, to
    the largest listed rate.  In particular, with the list
    {8000, 44100, 48000}, a request of 50000 resolves to 48000 and a
    request of 40000 to 44100. *)
Theorem set_output_format_rate_fallback `{sox_h}
  (ft : sox_format_t) (rates : list Z) :
  write_rates (handler ft) = Some rates ->
  Forall (fun r => 0 < r) (listed rates) ->
  rate (signal ft) <> 0 ->
  ~ In (rate (signal ft)) (listed rates) ->
  let given := rate (signal ft) in
  let r' := rate (signal (set_output_format ft)) in
  ((exists r, In r (listed rates) /\ given < r) ->
   In r' (listed rates) /\ given < r'
   /\ forall r, In r (listed rates) -> given < r -> r' <= r)
  /\ ((forall r, In r (listed rates) -> r <= given) ->
      listed rates <> [] ->
      In r' (listed rates) /\ forall r, In r (listed rates) -> r <= r')
  /\ (listed rates = [8000; 44100; 48000] ->
      (given = 50000 -> r' = 48000) /\ (given = 40000 -> r' = 44100)).
Proof.
  intros Hr Hpos Hg Hn given r'.
  assert (Hr' : r' = match scan_rates given rates None 0 with
                     | (Some r, _) => r
                     | (None, mx) => mx
                     end).
  { unfold r'. rewrite (set_output_format_rate ft rates Hr).
    apply negotiate_rate_unlisted; assumption. }
  clearbody r'.
  assert (Habove : (exists r, In r (listed rates) /\ given < r) ->
            In r' (listed rates) /\ given < r'
            /\ forall r, In r (listed rates) -> given < r -> r' <= r).
  { intros (r0 & Hin0 & Hlt0).
    pose proof (scan_rates_min given rates None 0) as Hmin.
    destruct (scan_rates given rates None 0) as [c' m'].
    destruct Hmin as (Ha & _ & Hc).
    destruct (Hc r0 Hin0 Hlt0) as (c2 & -> & Hle).
    destruct Ha as [Ha|(r1 & Ha & Hin1 & Hlt1)]; [discriminate Ha|].
    injection Ha as <-. subst r'.
    repeat split; [exact Hin1 | exact Hlt1 |].
    intros r Hin Hlt. destruct (Hc r Hin Hlt) as (c3 & Hc3 & Hle3).
    injection Hc3 as <-. exact Hle3. }
  assert (Hbelow : (forall r, In r (listed rates) -> r <= given) ->
            listed rates <> [] ->
            In r' (listed rates)
            /\ forall r, In r (listed rates) -> r <= r').
  { intros Hall Hne.
    pose proof (scan_rates_max given rates None 0 Hall) as Hmax.
    destruct (scan_rates given rates None 0) as [c' m'].
    destruct Hmax as (-> & Hm & Hin & Hub). subst r'.
    split; [|exact Hub].
    destruct Hin as [->|Hin]; [|exact Hin].
    exfalso. destruct (listed rates) as [|r0 l] eqn:El; [congruence|].
    pose proof (Hub r0 (or_introl eq_refl)).
    inversion Hpos; subst. lia. }
  split; [exact Habove|]. split; [exact Hbelow|].
  intros El. rewrite El in Habove, Hbelow. split; intros Hgiven.
  - destruct Hbelow as (Hin & Hub).
    + intros r Hin. cbn in Hin. lia.
    + discriminate.
    + pose proof (Hub 48000). cbn in Hin, H0. lia.
  - destruct Habove as (Hin & Hlt & Hmin).
    + exists 44100. cbn. lia.
    + pose proof (Hmin 44100). cbn in Hin, H0. lia.
Qed.

(** The example of the specification, run on the code. *)
Lemma set_output_format_rate_fallback_witness :
  rate (signal (set_output_format (H := sample_h)
    (sample_format (sample_writer 0 None None None
                      (Some [8000; 44100; 48000; 0]))
       (mk_signal 50000 2 16) unset_encoding "w"%char))) = 48000.
Proof.
  set (ft := sample_format _ _ _ _).
  pose proof (set_output_format_rate_fallback (H := sample_h) ft
                [8000; 44100; 48000; 0] eq_refl) as Hthm.
  cbn in Hthm.
  assert (Hpos : Forall (fun r => 0 < r) [8000; 44100; 48000])
    by (repeat constructor).
  assert (Hg : 50000 <> 0) by discriminate.
  assert (Hn : ~ (8000 = 50000 \/ 44100 = 50000 \/ 48000 = 50000 \/ False))
    by (intros [|[|[|[]]]]; discriminate).
  destruct (Hthm Hpos Hg Hn) as (_ & _ & Hex).
  destruct (Hex eq_refl) as (H50 & _).
  exact (H50 eq_refl).
Defined.

Lemma set_output_format_channels `{sox_h} (ft : sox_format_t) :
  channels (signal (set_output_format ft))
  = negotiate_channels (flags (handler ft)) (channels (signal ft)).
Proof.
  unfold set_output_format.
  destruct (write_formats (handler ft)) as [encs|]; [|reflexivity].
  destruct (negotiate_encoding encs _ _ _); reflexivity.
Qed.

(** C2. For a write session whose handler publishes a capability list,
    the precision of the session that [set_output_format] returns is at
    most the achievable precision ([sox_precision]) of the resolved
    (encoding, bits-per-sample) pair, whatever precision was requested,
    and it is never above the requested precision. *)
Theorem set_output_format_precision_floor `{sox_h}
  (ft : sox_format_t) (encodings : list Z) :
  write_formats (handler ft) = Some encodings ->
  let ft' := set_output_format ft in
  precision (signal ft')
  <= sox_precision (encoding (ft_encoding ft'))
       (bits_per_sample (ft_encoding ft'))
  /\ precision (signal ft') <= precision (signal ft).
Proof.
  intros He. unfold set_output_format. rewrite He.
  destruct (negotiate_encoding encodings _ _ _) as [enc bits].
  cbn. split; lia.
Qed.

(** A request for 24 bits of precision on a handler that only has 8- and
    16-bit linear PCM ends at 16. *)
Lemma set_output_format_precision_floor_witness :
  let ft := sample_format
              (sample_writer 0 None None (Some [1; 16; 8; 0; 0]) None)
              (mk_signal 8000 1 24) unset_encoding "w"%char in
  let ft' := set_output_format (H := sample_h) ft in
  precision (signal ft') = 16
  /\ precision (signal ft')
     <= sox_precision (sox_h := sample_h) (encoding (ft_encoding ft'))
          (bits_per_sample (ft_encoding ft'))
  /\ precision (signal ft') <= precision (signal ft).
Proof.
  split; [reflexivity|].
  exact (set_output_format_precision_floor (H := sample_h)
           (sample_format
              (sample_writer 0 None None (Some [1; 16; 8; 0; 0]) None)
              (mk_signal 8000 1 24) unset_encoding "w"%char)
           [1; 16; 8; 0; 0] eq_refl).
Defined.

(** C3, as the code has it. For a write session whose handler restricts
    the channel count: a request for 1 channel without mono support
    becomes 2 when the handler supports stereo and 4 otherwise; a request
    for 2 without stereo support becomes 4 if quad is supported, else 1; a
    request for 4 without quad support becomes 2 if stereo is supported,
    else 1. *)
Theorem set_output_format_channel_fallback `{sox_h} (ft : sox_format_t) :
  has_flag (flags (handler ft)) SOX_FILE_CHANS = true ->
  let fl := flags (handler ft) in
  let ch := channels (signal ft) in
  let ch' := channels (signal (set_output_format ft)) in
  (ch = 1 -> has_flag fl SOX_FILE_MONO = false ->
   ch' = if has_flag fl SOX_FILE_STEREO then 2 else 4)
  /\ (ch = 2 -> has_flag fl SOX_FILE_STEREO = false ->
      ch' = if has_flag fl SOX_FILE_QUAD then 4 else 1)
  /\ (ch = 4 -> has_flag fl SOX_FILE_QUAD = false ->
      ch' = if has_flag fl SOX_FILE_STEREO then 2 else 1).
Proof.
  intros Hc fl ch ch'. subst ch' ch.
  rewrite set_output_format_channels. unfold negotiate_channels.
  rewrite Hc. fold fl.
  repeat split; intros Hch Hf; rewrite Hch, ?Hf; cbn; rewrite ?Hf;
    destruct (has_flag fl SOX_FILE_MONO), (has_flag fl SOX_FILE_STEREO);
    try reflexivity; discriminate.
Qed.

(** A quad-only handler turns a mono request into quad. *)
Lemma set_output_format_channel_fallback_witness :
  channels (signal (set_output_format (H := sample_h)
    (sample_format (sample_writer 1024 None None None None)
       (mk_signal 8000 1 16) unset_encoding "w"%char))) = 4.
Proof.
  exact (proj1 (set_output_format_channel_fallback (H := sample_h)
                  (sample_format (sample_writer 1024 None None None None)
                     (mk_signal 8000 1 16) unset_encoding "w"%char)
                  eq_refl) eq_refl eq_refl).
Defined.

(** C3, as stated, fails: on a handler that supports stereo and quad but
    not mono, a mono request becomes stereo, not quad. *)
Lemma mono_request_goes_to_stereo_before_quad :
  let h := sample_writer 1536 None None None None in
  let ft := sample_format h (mk_signal 8000 1 16) unset_encoding "w"%char in
  has_flag (flags h) (SOX_FILE_CHANS (sox_h := sample_h)) = true
  /\ has_flag (flags h) (SOX_FILE_MONO (sox_h := sample_h)) = false
  /\ has_flag (flags h) (SOX_FILE_QUAD (sox_h := sample_h)) = true
  /\ channels (signal ft) = 1
  /\ channels (signal (set_output_format (H := sample_h) ft)) = 2
  /\ channels (signal (set_output_format (H := sample_h) ft)) <> 4.
Proof.
  cbv zeta. repeat split; try reflexivity. vm_compute. discriminate.
Qed.

(** ** Content sniffing *)

Lemma find_first {A} (f : A -> bool) (pre : list A) (r : A) (post : list A) :
  forallb (fun q => negb (f q)) pre = true -> f r = true ->
  find f (pre ++ r :: post) = Some r.
Proof.
  induction pre as [|q pre IH]; cbn; intros Hpre Hr.
  - rewrite Hr. reflexivity.
  - apply andb_prop in Hpre. destruct Hpre as [Hq Hpre].
    apply negb_true_iff in Hq. rewrite Hq. apply IH; assumption.
Qed.

Lemma find_skip {A} (f : A -> bool) (r : A) (l : list A) :
  f r = false -> find f (r :: l) = find f l.
Proof. intros Hr. cbn. rewrite Hr. reflexivity. Qed.

Lemma detect_magic_find (junk : list Z) (ft : sox_format_t)
  (ext : option string) (r : magic_rule) :
  find (magic_match (sniffed_data junk ft) (sniffed_len ft)) magic_table
  = Some r ->
  fst (detect_magic junk ft ext) = Some (magic_type r).
Proof.
  unfold detect_magic, sniffed_data, sniffed_len, sox_readbuf. cbn.
  intros ->. reflexivity.
Qed.

(** A rule whose tag at offset 0 starts with another byte than the data
    does not match. *)
Ltac no_match :=
  unfold magic_match; cbn;
  rewrite ?andb_false_r; reflexivity.

(** The buffer of a container stream. *)
Lemma sniffed_container (junk : list Z) (ft : sox_format_t)
  (t0 t1 t2 t3 s0 s1 s2 s3 k0 k1 k2 k3 : Z) (rest : list Z) :
  pending (io ft)
  = t0 :: t1 :: t2 :: t3 :: s0 :: s1 :: s2 :: s3 :: k0 :: k1 :: k2 :: k3
    :: rest ->
  exists tail n,
    sniffed_data junk ft
    = t0 :: t1 :: t2 :: t3 :: s0 :: s1 :: s2 :: s3 :: k0 :: k1 :: k2 :: k3
      :: tail
    /\ sniffed_len ft = (12 + n)%nat.
Proof.
  intros Hp. unfold sniffed_data, sniffed_len, fill. rewrite Hp.
  exists (firstn 244 rest
          ++ skipn (List.length (firstn 244 rest)) (skipn 12 junk)),
    (List.length (firstn 244 rest)).
  split.
  - change (firstn 256 (t0 :: t1 :: t2 :: t3 :: s0 :: s1 :: s2 :: s3
                        :: k0 :: k1 :: k2 :: k3 :: rest))
      with (t0 :: t1 :: t2 :: t3 :: s0 :: s1 :: s2 :: s3
            :: k0 :: k1 :: k2 :: k3 :: firstn 244 rest).
    cbn [List.length app].
    repeat (rewrite <- app_comm_cons). do 12 f_equal.
    apply (f_equal (app (firstn 244 rest))).
    rewrite skipn_skipn. f_equal. lia.
  - reflexivity.
Qed.

Lemma riff_wave_first_match (tail : list Z) (n : nat) (s0 s1 s2 s3 : Z) :
  let data := 82 :: 73 :: 70 :: 70 :: s0 :: s1 :: s2 :: s3
              :: 87 :: 65 :: 86 :: 69 :: tail in
  find (magic_match data (12 + n)) magic_table
  = if magic_match data (12 + n) hcom_rule then Some hcom_rule
    else Some wav_rule.
Proof.
  intros data. subst data. unfold magic_table.
  do 11 (rewrite find_skip by no_match).
  match goal with |- context [if ?c then _ else _] => destruct c eqn:Hh end.
  - cbn [find]. rewrite Hh. reflexivity.
  - rewrite (find_skip _ hcom_rule) by exact Hh. reflexivity.
Qed.

Lemma form_aiff_first_match (tail : list Z) (n : nat) (s0 s1 s2 s3 : Z) :
  let data := 70 :: 79 :: 82 :: 77 :: s0 :: s1 :: s2 :: s3
              :: 65 :: 73 :: 70 :: 70 :: tail in
  find (magic_match data (12 + n)) magic_table
  = if magic_match data (12 + n) hcom_rule then Some hcom_rule
    else Some aiff_rule.
Proof.
  intros data. subst data. unfold magic_table.
  do 11 (rewrite find_skip by no_match).
  match goal with |- context [if ?c then _ else _] => destruct c eqn:Hh end.
  - cbn [find]. rewrite Hh. reflexivity.
  - rewrite (find_skip _ hcom_rule) by exact Hh.
    do 2 (rewrite find_skip by no_match). reflexivity.
Qed.

(** C6, as the code has it. [detect_magic] goes through the rules in
    table order and the first rule whose two byte ranges match gives the
    result.  An input that starts with "RIFF", any four bytes, and "WAVE"
    at offset 8 is named "wav", and one that starts with "FORM", any four
    bytes, and "AIFF" at offset 8 is named "aiff", unless the bytes read
    also match the hcom rule, which comes earlier in the table ("FSSD" at
    offset 65 and "HCOM" at offset 128): then the result is "hcom". *)
Theorem detect_magic_first_match (junk : list Z) (ft : sox_format_t)
  (ext : option string) :
  let data := sniffed_data junk ft in
  let len := sniffed_len ft in
  (forall pre r post,
     magic_table = pre ++ r :: post ->
     forallb (fun q => negb (magic_match data len q)) pre = true ->
     magic_match data len r = true ->
     fst (detect_magic junk ft ext) = Some (magic_type r))
  /\ (forall s0 s1 s2 s3 rest,
        pending (io ft) = container "RIFF" [s0; s1; s2; s3] "WAVE" rest ->
        fst (detect_magic junk ft ext)
        = Some (if magic_match data len hcom_rule then "hcom" else "wav"))
  /\ (forall s0 s1 s2 s3 rest,
        pending (io ft) = container "FORM" [s0; s1; s2; s3] "AIFF" rest ->
        fst (detect_magic junk ft ext)
        = Some (if magic_match data len hcom_rule then "hcom" else "aiff")).
Proof.
  intros data len. subst data len. repeat split.
  - intros pre r post Ht Hpre Hr. apply detect_magic_find.
    rewrite Ht. apply find_first; assumption.
  - intros s0 s1 s2 s3 rest Hp.
    destruct (sniffed_container junk ft 82 73 70 70 s0 s1 s2 s3 87 65 86 69
                rest Hp) as (tail & n & Hd & Hl).
    pose proof (riff_wave_first_match tail n s0 s1 s2 s3) as Hf.
    cbv zeta in Hf. rewrite <- Hd, <- Hl in Hf.
    destruct (magic_match _ _ hcom_rule);
      rewrite (detect_magic_find junk ft ext _ Hf); reflexivity.
  - intros s0 s1 s2 s3 rest Hp.
    destruct (sniffed_container junk ft 70 79 82 77 s0 s1 s2 s3 65 73 70 70
                rest Hp) as (tail & n & Hd & Hl).
    pose proof (form_aiff_first_match tail n s0 s1 s2 s3) as Hf.
    cbv zeta in Hf. rewrite <- Hd, <- Hl in Hf.
    destruct (magic_match _ _ hcom_rule);
      rewrite (detect_magic_find junk ft ext _ Hf); reflexivity.
Qed.

(** C6, as stated, fails: a stream that starts with "RIFF", four bytes
    and "WAVE" but also carries "FSSD" at offset 65 and "HCOM" at offset
    128 is named "hcom", because the hcom rule precedes the wav rule. *)
Lemma riff_wave_stream_named_hcom :
  let input :=
    container "RIFF" [0; 0; 0; 0] "WAVE"
      (repeat 0 53 ++ bytes_of "FSSD" ++ repeat 0 59 ++ bytes_of "HCOM") in
  let ft := reading (sample_format null_handler (mk_signal 0 0 0)
                       unset_encoding "r"%char) input in
  firstn 4 input = bytes_of "RIFF"
  /\ firstn 4 (skipn 8 input) = bytes_of "WAVE"
  /\ fst (detect_magic (repeat 0 256) ft None) = Some "hcom"
  /\ fst (detect_magic (repeat 0 256) ft None) <> Some "wav".
Proof.
  cbv zeta. repeat split; try reflexivity. vm_compute. discriminate.
Qed.

(** ** Typed stream transfer *)

Lemma le_bytes_length (n : nat) : forall v, List.length (le_bytes n v) = n.
Proof. induction n as [|n IH]; intros v; cbn; [|rewrite IH]; reflexivity. Qed.

Lemma le_bytes_range (n : nat) : forall v, Forall is_byte (le_bytes n v).
Proof.
  induction n as [|n IH]; intros v; cbn; constructor; [|apply IH].
  unfold is_byte. apply Z.mod_pos_bound. lia.
Qed.

Lemma le_value_le_bytes (n : nat) :
  forall v, le_value (le_bytes n v) = v mod 256 ^ Z.of_nat n.
Proof.
  induction n as [|n IH]; intros v.
  - cbn. rewrite Z.mod_1_r. reflexivity.
  - cbn [le_bytes le_value]. rewrite IH.
    rewrite Nat2Z.inj_succ, Z.pow_succ_r by lia.
    rewrite Z.rem_mul_r by lia. reflexivity.
Qed.

Lemma le_bytes_le_value (bs : list Z) :
  Forall is_byte bs -> le_bytes (List.length bs) (le_value bs) = bs.
Proof.
  induction 1 as [|b bs Hb Hbs IH]; [reflexivity|].
  cbn [List.length le_bytes le_value]. unfold is_byte in Hb.
  replace (b + 256 * le_value bs) with (b + le_value bs * 256) by lia.
  rewrite Z_mod_plus_full, Z_div_plus_full by lia.
  rewrite Z.mod_small, Z.div_small by lia.
  rewrite Z.add_0_l, IH. reflexivity.
Qed.

Lemma le_value_range (bs : list Z) :
  Forall is_byte bs -> 0 <= le_value bs < 256 ^ Z.of_nat (List.length bs).
Proof.
  induction 1 as [|b bs Hb Hbs IH]; [cbn; lia|].
  cbn [List.length le_value]. unfold is_byte in Hb.
  rewrite Nat2Z.inj_succ, Z.pow_succ_r by lia. lia.
Qed.

Lemma byte_swap_range (n : nat) (v : Z) :
  0 <= byte_swap n v < 256 ^ Z.of_nat n.
Proof.
  unfold byte_swap.
  pose proof (le_value_range (rev (le_bytes n v))) as Hr.
  rewrite length_rev, le_bytes_length in Hr. apply Hr.
  apply Forall_rev, le_bytes_range.
Qed.

Lemma byte_swap_involutive (n : nat) (v : Z) :
  0 <= v < 256 ^ Z.of_nat n -> byte_swap n (byte_swap n v) = v.
Proof.
  intros Hv. unfold byte_swap.
  assert (Hlen : List.length (rev (le_bytes n v)) = n)
    by (rewrite length_rev; apply le_bytes_length).
  rewrite <- Hlen at 1.
  rewrite le_bytes_le_value by (apply Forall_rev, le_bytes_range).
  rewrite rev_involutive, le_value_le_bytes. apply Z.mod_small, Hv.
Qed.

Lemma firstn_length_app {A} (a b : list A) :
  firstn (List.length a) (a ++ b) = a.
Proof.
  rewrite firstn_app, Nat.sub_diag, firstn_all, firstn_O, app_nil_r.
  reflexivity.
Qed.

Lemma skipn_length_app {A} (a b : list A) :
  skipn (List.length a) (a ++ b) = b.
Proof.
  rewrite skipn_app, Nat.sub_diag, skipn_all, skipn_O. reflexivity.
Qed.

Lemma chunks_concat {A} (size : nat) (f : A -> list Z) (l : list A) :
  (forall x, List.length (f x) = size) ->
  chunks size (List.length l) (List.concat (map f l)) = map f l.
Proof.
  intros Hf. induction l as [|x l IH]; [reflexivity|].
  cbn [List.length map List.concat chunks].
  replace (firstn size (f x ++ List.concat (map f l))) with (f x)
    by (rewrite <- (Hf x); symmetry; apply firstn_length_app).
  replace (skipn size (f x ++ List.concat (map f l)))
    with (List.concat (map f l))
    by (rewrite <- (Hf x); symmetry; apply skipn_length_app).
  rewrite IH. reflexivity.
Qed.

Lemma concat_map_length {A} (size : nat) (f : A -> list Z) (l : list A) :
  (forall x, List.length (f x) = size) ->
  List.length (List.concat (map f l)) = (List.length l * size)%nat.
Proof.
  intros Hf. induction l as [|x l IH]; [reflexivity|].
  cbn [map List.concat List.length]. rewrite length_app, Hf, IH. lia.
Qed.

(** Every property of bytes that the 256 values pass holds of all
    bytes. *)
Lemma for_all_bytes (p : Z -> bool) :
  forallb p (map Z.of_nat (seq 0 256)) = true ->
  forall b, is_byte b -> p b = true.
Proof.
  intros Hall b Hb. rewrite forallb_forall in Hall. apply Hall.
  rewrite <- (Z2Nat.id b) by (unfold is_byte in Hb; lia).
  apply in_map, in_seq. unfold is_byte in Hb. lia.
Qed.

(** Elements encoded one after the other are decoded from the chunks of
    the bytes. *)
Lemma decode_encoded (size : nat) (enc : Z -> list Z) (dec : list Z -> Z)
  (buf : list Z) :
  (0 < size)%nat ->
  (forall v, List.length (enc v) = size) ->
  (forall v, In v buf -> dec (enc v) = v) ->
  let bytes := List.concat (map enc buf) in
  let got := firstn (List.length buf * size) bytes in
  (List.length bytes / size)%nat = List.length buf
  /\ map dec (chunks size (List.length got / size) got) = buf.
Proof.
  intros Hs Hlen Hdec bytes got.
  assert (Hb : List.length bytes = (List.length buf * size)%nat)
    by (apply concat_map_length, Hlen).
  assert (Hg : got = bytes)
    by (unfold got; rewrite <- Hb; apply firstn_all).
  rewrite Hg, Hb, Nat.div_mul by lia. split; [reflexivity|].
  unfold bytes. rewrite chunks_concat by exact Hlen.
  rewrite map_map. rewrite <- (map_id buf) at 2.
  apply map_ext_in. exact Hdec.
Qed.

Lemma store_length `{sox_h} (size : nat) (v : Z) :
  List.length (store size v) = size.
Proof.
  unfold store. destruct SOX_IS_BIGENDIAN;
    rewrite ?length_rev; apply le_bytes_length.
Qed.

Lemma load_store `{sox_h} (size : nat) (v : Z) :
  fits size v -> load (store size v) = v.
Proof.
  intros Hv. unfold load, store. destruct SOX_IS_BIGENDIAN;
    rewrite ?rev_involutive, le_value_le_bytes; apply Z.mod_small, Hv.
Qed.

(** A byte count in the range of [sox_size_t] is the product. *)
Lemma sox_size_mul_small (len size : nat) :
  countable len size -> sox_size_mul len size = (len * size)%nat.
Proof.
  unfold countable, sox_size_mul. intros Hc.
  rewrite Z.mod_small by lia. rewrite <- Nat2Z.inj_mul. apply Nat2Z.id.
Qed.

Lemma whole_buffer {A} (size : nat) (f : A -> list Z) (l : list A) :
  (forall x, List.length (f x) = size) ->
  firstn (List.length l * size) (List.concat (map f l))
  = List.concat (map f l).
Proof.
  intros Hf. rewrite <- (concat_map_length size f l Hf). apply firstn_all.
Qed.

(** The aligned widths: a twiddle that is its own inverse on the values
    of the width gives a round trip. *)
Lemma aligned_round_trip `{sox_h} (size : nat)
  (twiddle : sox_format_t -> Z -> Z) (ft : sox_format_t) (buf : list Z) :
  (0 < size)%nat ->
  countable (List.length buf) size ->
  (forall bytes v, twiddle (reading ft bytes) v = twiddle ft v) ->
  (forall v, fits size v ->
             fits size (twiddle ft v) /\ twiddle ft (twiddle ft v) = v) ->
  Forall (fits size) buf ->
  round_trip (WRITE_FUNC size twiddle) (READ_FUNC size twiddle) ft buf
  = (List.length buf, buf).
Proof.
  intros Hs Hc Hsame Htw Hbuf. rewrite Forall_forall in Hbuf.
  unfold round_trip, WRITE_FUNC, READ_FUNC, sox_writebuf, sox_readbuf.
  rewrite !(sox_size_mul_small _ _ Hc).
  rewrite (whole_buffer size) by (intros v; apply store_length).
  cbn. rewrite skipn_length_app.
  destruct (decode_encoded size (fun v => store size (twiddle ft v))
              (fun c => twiddle ft (load c)) buf Hs) as (Hn & Hr).
  - intros v. apply store_length.
  - intros v Hv. destruct (Htw v (Hbuf v Hv)) as (Hfit & Hinv).
    rewrite load_store by exact Hfit. exact Hinv.
  - cbv zeta in Hn, Hr. rewrite Hn. f_equal.
    etransitivity; [|exact Hr]. apply map_ext. intros c. apply Hsame.
Qed.

Lemma twiddle_word_inverse `{sox_h} (size : nat) (ft : sox_format_t) (v : Z) :
  fits size v ->
  fits size (TWIDDLE_WORD (byte_swap size) ft v)
  /\ TWIDDLE_WORD (byte_swap size) ft
       (TWIDDLE_WORD (byte_swap size) ft v) = v.
Proof.
  intros Hv. unfold TWIDDLE_WORD.
  destruct (is_set (reverse_bytes (ft_encoding ft))).
  - split; [apply byte_swap_range | apply byte_swap_involutive, Hv].
  - split; [exact Hv | reflexivity].
Qed.

Lemma twiddle_byte_inverse `{sox_h} (ft : sox_format_t) (v : Z) :
  fits 1 v ->
  fits 1 (TWIDDLE_BYTE ft v) /\ TWIDDLE_BYTE ft (TWIDDLE_BYTE ft v) = v.
Proof.
  intros Hv. change (is_byte v) in Hv. unfold TWIDDLE_BYTE, fits.
  change (256 ^ Z.of_nat 1) with 256.
  destruct (is_set (reverse_bits (ft_encoding ft))),
    (is_set (reverse_nibbles (ft_encoding ft))).
  - pose proof (for_all_bytes
      (fun b =>
         let f x := Z.lor (Z.shiftl (Z.land (cswap x) 15) 4)
                      (Z.shiftr (cswap x) 4) mod 256 in
         (0 <=? f b) && (f b <? 256) && (f (f b) =? b))
      eq_refl v Hv) as Hb.
    cbv zeta beta in Hb. apply andb_prop in Hb. destruct Hb as (Hb & He).
    apply andb_prop in Hb. destruct Hb as (Hlo & Hhi).
    apply Z.leb_le in Hlo. apply Z.ltb_lt in Hhi. apply Z.eqb_eq in He.
    split; [lia | exact He].
  - pose proof (for_all_bytes
      (fun b => (0 <=? cswap b) && (cswap b <? 256)
                && (cswap (cswap b) =? b))
      eq_refl v Hv) as Hb.
    cbv beta in Hb. apply andb_prop in Hb. destruct Hb as (Hb & He).
    apply andb_prop in Hb. destruct Hb as (Hlo & Hhi).
    apply Z.leb_le in Hlo. apply Z.ltb_lt in Hhi. apply Z.eqb_eq in He.
    split; [lia | exact He].
  - pose proof (for_all_bytes
      (fun b =>
         let f x := Z.lor (Z.shiftl (Z.land x 15) 4) (Z.shiftr x 4)
                    mod 256 in
         (0 <=? f b) && (f b <? 256) && (f (f b) =? b))
      eq_refl v Hv) as Hb.
    cbv zeta beta in Hb. apply andb_prop in Hb. destruct Hb as (Hb & He).
    apply andb_prop in Hb. destruct Hb as (Hlo & Hhi).
    apply Z.leb_le in Hlo. apply Z.ltb_lt in Hhi. apply Z.eqb_eq in He.
    split; [lia | exact He].
  - split; [exact Hv | reflexivity].
Qed.

Lemma sox_pack3_length `{sox_h} (ft : sox_format_t) (v : Z) :
  List.length (sox_pack3 ft v) = 3%nat.
Proof.
  unfold sox_pack3.
  destruct (_ =? _); reflexivity.
Qed.

Lemma high_bits_clear (v i : Z) :
  0 <= v < 2 ^ 24 -> 24 <= i -> Z.testbit v i = false.
Proof.
  intros Hv Hi. rewrite <- (Z.mod_small v (2 ^ 24)) by exact Hv.
  apply Z.mod_pow2_bits_high. lia.
Qed.

Lemma unpack_packed (v : Z) :
  0 <= v < 2 ^ 24 ->
  Z.lor (Z.lor (Z.land v 255) (Z.shiftl (Z.land (Z.shiftr v 8) 255) 8))
    (Z.shiftl (Z.land (Z.shiftr v 16) 255) 16) = v.
Proof.
  intros Hv. change 255 with (Z.ones 8). Z.bitblast.
  rewrite (high_bits_clear v _ Hv) by lia. reflexivity.
Qed.

Lemma sox_unpack3_pack3 `{sox_h} (ft : sox_format_t) (bytes : list Z)
  (v : Z) :
  fits 3 v -> sox_unpack3 (reading ft bytes) (sox_pack3 ft v) = v.
Proof.
  intros Hv. unfold sox_unpack3, sox_pack3, reading. cbn [ft_encoding with_io].
  destruct (_ =? _); cbn [nth]; apply unpack_packed; exact Hv.
Qed.

Lemma unaligned_round_trip `{sox_h} (ft : sox_format_t) (buf : list Z) :
  countable (List.length buf) 3 ->
  Forall (fits 3) buf ->
  round_trip WRITE_FUNC_PACK READ_FUNC_UNPACK ft buf = (List.length buf, buf).
Proof.
  intros Hc Hbuf. rewrite Forall_forall in Hbuf.
  unfold round_trip, WRITE_FUNC_PACK, READ_FUNC_UNPACK, sox_writebuf,
    sox_readbuf.
  rewrite !(sox_size_mul_small _ _ Hc).
  rewrite (whole_buffer 3) by (intros v; apply sox_pack3_length).
  cbn -[Nat.div Nat.mul]. rewrite skipn_length_app.
  destruct (decode_encoded 3 (sox_pack3 ft)
              (sox_unpack3
                 (reading ft (List.concat (map (sox_pack3 ft) buf))))
              buf) as (Hn & Hr).
  - lia.
  - intros v. apply sox_pack3_length.
  - intros v Hv. apply sox_unpack3_pack3, Hbuf, Hv.
  - cbv zeta in Hn, Hr. rewrite Hn. f_equal. exact Hr.
Qed.

(** C8. For every sequence of element values that fit their width, whose
    byte count (the number of elements times the width) is in the range
    of [sox_size_t], and every order policy of the session, writing the
    sequence with the typed write function of a width and reading the
    bytes written back with the read function of the same width, under
    the same policy, returns the original values, for the widths of 1, 2,
    3 and 4 bytes and for float and double (taken as their bit patterns);
    in particular [sox_unpack3] of [sox_pack3] of a 24-bit value is that
    value. *)
Theorem typed_transfer_round_trip `{sox_h} (ft : sox_format_t)
  (buf : list Z) (size : nat)
  (wr : sox_format_t -> list Z -> nat * sox_format_t)
  (rd : sox_format_t -> nat -> list Z * sox_format_t) :
  In (size, wr, rd)
    [ (1%nat, sox_write_b_buf, sox_read_b_buf);
      (2%nat, sox_write_w_buf, sox_read_w_buf);
      (3%nat, sox_write_3_buf, sox_read_3_buf);
      (4%nat, sox_write_dw_buf, sox_read_dw_buf);
      (4%nat, sox_write_f_buf, sox_read_f_buf);
      (8%nat, sox_write_df_buf, sox_read_df_buf) ] ->
  Forall (fits size) buf ->
  countable (List.length buf) size ->
  round_trip wr rd ft buf = (List.length buf, buf)
  /\ forall bytes v,
       fits 3 v -> sox_unpack3 (reading ft bytes) (sox_pack3 ft v) = v.
Proof.
  intros Hin Hbuf Hc. split; [|intros bytes v; apply sox_unpack3_pack3].
  cbn in Hin.
  destruct Hin as [E|[E|[E|[E|[E|[E|[]]]]]]]; injection E as <- <- <-.
  - apply aligned_round_trip;
      [lia | exact Hc | reflexivity | apply twiddle_byte_inverse | exact Hbuf].
  - apply aligned_round_trip;
      [lia | exact Hc | reflexivity | apply (twiddle_word_inverse 2)
      | exact Hbuf].
  - apply unaligned_round_trip; [exact Hc | exact Hbuf].
  - apply aligned_round_trip;
      [lia | exact Hc | reflexivity | apply (twiddle_word_inverse 4)
      | exact Hbuf].
  - apply aligned_round_trip;
      [lia | exact Hc | reflexivity | apply (twiddle_word_inverse 4)
      | exact Hbuf].
  - apply aligned_round_trip;
      [lia | exact Hc | reflexivity | apply (twiddle_word_inverse 8)
      | exact Hbuf].
Qed.

(** Three 24-bit samples written and read back with reversed bytes. *)
Lemma typed_transfer_round_trip_witness :
  let ft := sample_format null_handler (mk_signal 8000 1 24)
              (mk_encoding 1 24 SOX_OPTION_YES SOX_OPTION_NO SOX_OPTION_NO
                 false) "w"%char in
  written (io (snd (sox_write_3_buf (H := sample_h) ft [1; 65536; 16777215])))
  = [0; 0; 1; 1; 0; 0; 255; 255; 255]
  /\ round_trip (sox_write_3_buf (H := sample_h))
       (sox_read_3_buf (H := sample_h)) ft [1; 65536; 16777215]
     = (3%nat, [1; 65536; 16777215]).
Proof.
  cbv zeta. split; [reflexivity|].
  refine (proj1 (typed_transfer_round_trip (H := sample_h) _
                   [1; 65536; 16777215] 3%nat _ _ _ _ _)).
  - right. right. left. reflexivity.
  - repeat constructor; unfold fits; cbn; lia.
  - reflexivity.
Defined.

(** A buffer of 2^31 two-byte words: its byte count, 2^32, is 0 in
    [sox_size_t], so nothing is written, the write returns 0 and there
    is nothing to read back. *)
Lemma huge_buffer_is_not_transferred :
  let ft := sample_format null_handler (mk_signal 8000 1 16)
              (mk_encoding 1 16 SOX_OPTION_NO SOX_OPTION_NO SOX_OPTION_NO
                 false) "w"%char in
  let buf := repeat 0 (2 ^ 31)%nat in
  Forall (fits 2) buf
  /\ Z.of_nat (List.length buf) = 2 ^ 31
  /\ buf <> []
  /\ written (io (snd (sox_write_w_buf (H := sample_h) ft buf))) = []
  /\ round_trip (sox_write_w_buf (H := sample_h))
       (sox_read_w_buf (H := sample_h)) ft buf
     = (0%nat, []).
Proof.
  cbv zeta.
  assert (Hn : Z.of_nat (2 ^ 31)%nat = 2 ^ 31)
    by (rewrite Nat2Z.inj_pow; reflexivity).
  generalize dependent (2 ^ 31)%nat. intros n Hn.
  assert (Hbytes : sox_size_mul n 2 = 0%nat)
    by (unfold sox_size_mul; rewrite Hn; reflexivity).
  split.
  { apply Forall_forall. intros v Hv. apply repeat_spec in Hv. subst v.
    unfold fits. cbn. lia. }
  split; [rewrite repeat_length; exact Hn|].
  split.
  { destruct n as [|n]; [discriminate Hn | discriminate]. }
  unfold round_trip, sox_write_w_buf, sox_read_w_buf, WRITE_FUNC, READ_FUNC,
    sox_writebuf, sox_readbuf.
  rewrite repeat_length, Hbytes. split; reflexivity.
Qed.

Lemma chunks_length (size n : nat) :
  forall bs, List.length (chunks size n bs) = n.
Proof. induction n as [|n IH]; intros bs; cbn; [|rewrite IH]; reflexivity. Qed.

(** The number of whole elements that a request for one element gets. *)
Lemma one_element_count (size : nat) (p : list Z) :
  (0 < size)%nat ->
  (List.length (firstn (1 * size) p) / size)%nat
  = if (size <=? List.length p)%nat then 1%nat else 0%nat.
Proof.
  intros Hs. rewrite Nat.mul_1_l, length_firstn.
  destruct (Nat.leb_spec size (List.length p)) as [Hle|Hlt].
  - rewrite Nat.min_l by exact Hle. apply Nat.div_same. lia.
  - rewrite Nat.min_r by lia. apply Nat.div_small. exact Hlt.
Qed.

(** What each typed read function does when asked for one element. *)
Lemma read_one_element `{sox_h} (ft : sox_format_t) (size : nat)
  (rd : sox_format_t -> nat -> list Z * sox_format_t) :
  In (size, rd)
    [ (1%nat, sox_read_b_buf); (2%nat, sox_read_w_buf);
      (3%nat, sox_read_3_buf); (4%nat, sox_read_dw_buf);
      (4%nat, sox_read_f_buf); (8%nat, sox_read_df_buf) ] ->
  List.length (fst (rd ft 1%nat))
  = (if (size <=? List.length (pending (io ft)))%nat then 1%nat else 0%nat)
  /\ snd (rd ft 1%nat)
     = with_io ft (mk_stream (skipn (1 * size) (pending (io ft)))
                     (written (io ft)) (stream_error (io ft))).
Proof.
  intros Hin. cbn [In] in Hin.
  destruct Hin as [E|[E|[E|[E|[E|[E|[]]]]]]]; injection E as <- <-;
    unfold sox_read_b_buf, sox_read_w_buf, sox_read_3_buf, sox_read_dw_buf,
      sox_read_f_buf, sox_read_df_buf, READ_FUNC, READ_FUNC_UNPACK,
      sox_readbuf;
    rewrite (sox_size_mul_small 1 _) by reflexivity;
    cbn [fst snd]; rewrite length_map, chunks_length;
    (split; [apply one_element_count; lia | reflexivity]).
Qed.

(** C9. Each single-element read wrapper (widths 1, 2, 3 and 4, float and
    double) returns success exactly when one element was transferred,
    which is when the stream still holds the bytes of one element.  When
    it does not, the wrapper returns the end-of-file status with no datum
    and, if the stream of the session was not in error, records the
    premature-EOF error on the session (and leaves the recorded error
    alone otherwise); the end-of-file status differs from success, so the
    end of the stream cannot be taken for a datum of zero. *)
Theorem read1_success_iff_one_element `{sox_h} (errno : Z)
  (ft : sox_format_t) (size : nat)
  (rd : sox_format_t -> nat -> list Z * sox_format_t)
  (read1 : Z -> sox_format_t -> Z * option Z * sox_format_t) :
  In (size, rd, read1)
    [ (1%nat, sox_read_b_buf, sox_readb);
      (2%nat, sox_read_w_buf, sox_readw);
      (3%nat, sox_read_3_buf, sox_read3);
      (4%nat, sox_read_dw_buf, sox_readdw);
      (4%nat, sox_read_f_buf, sox_readf);
      (8%nat, sox_read_df_buf, sox_readdf) ] ->
  SOX_EOF <> SOX_SUCCESS ->
  let transferred := List.length (fst (rd ft 1%nat)) in
  let rc := fst (fst (read1 errno ft)) in
  let datum := snd (fst (read1 errno ft)) in
  let ft' := snd (read1 errno ft) in
  (rc = SOX_SUCCESS <-> transferred = 1%nat)
  /\ (transferred = 1%nat <-> (size <= List.length (pending (io ft)))%nat)
  /\ (transferred = 1%nat -> exists v, datum = Some v)
  /\ (transferred <> 1%nat ->
      rc = SOX_EOF /\ datum = None
      /\ (sox_error ft = false ->
          sox_errno ft' = errno /\ sox_errstr ft' = premature_eof)
      /\ (sox_error ft = true ->
          sox_errno ft' = sox_errno ft /\ sox_errstr ft' = sox_errstr ft)).
Proof.
  intros Hin Hne transferred rc datum ft'.
  assert (Hrd : In (size, rd)
            [ (1%nat, sox_read_b_buf); (2%nat, sox_read_w_buf);
              (3%nat, sox_read_3_buf); (4%nat, sox_read_dw_buf);
              (4%nat, sox_read_f_buf); (8%nat, sox_read_df_buf) ]).
  { cbn [In] in Hin |- *.
    destruct Hin as [E|[E|[E|[E|[E|[E|[]]]]]]]; injection E as <- <- _; tauto. }
  assert (Hdef : read1 = READ1_FUNC rd).
  { cbn [In] in Hin.
    destruct Hin as [E|[E|[E|[E|[E|[E|[]]]]]]]; injection E as _ <- <-;
      reflexivity. }
  destruct (read_one_element ft size rd Hrd) as (Hcount & Hsnd).
  subst rc datum ft' read1. unfold READ1_FUNC.
  destruct (rd ft 1%nat) as [vals ft1] eqn:Erd.
  cbn [fst snd] in Hcount, Hsnd, transferred. subst transferred.
  destruct (Nat.leb_spec size (List.length (pending (io ft)))) as [Hle|Hlt].
  - rewrite Hcount. cbn [Nat.eqb fst snd].
    repeat split; try tauto; try lia.
    destruct vals as [|v vals]; [discriminate Hcount|].
    exists v. reflexivity.
  - rewrite Hcount. cbn [Nat.eqb fst snd].
    assert (Herr : sox_error ft1 = sox_error ft) by (rewrite Hsnd; reflexivity).
    rewrite Herr.
    repeat split; try tauto; try lia; try discriminate;
      match goal with
      | Hs : sox_error ft = _ |- _ => rewrite Hs; cbn; rewrite ?Hsnd; reflexivity
      end.
Qed.

(** A two-byte read from a stream that holds one byte. *)
Lemma read1_success_iff_one_element_witness :
  let ft := reading (sample_format raw_handler (mk_signal 8000 1 16)
                       unset_encoding "r"%char) [7] in
  let r := sox_readw (H := sample_h) 5 ft in
  fst (fst r) = -1 /\ snd (fst r) = None
  /\ (sox_error ft = false ->
      sox_errno (snd r) = 5 /\ sox_errstr (snd r) = premature_eof)
  /\ (sox_error ft = true ->
      sox_errno (snd r) = sox_errno ft /\ sox_errstr (snd r) = sox_errstr ft).
Proof.
  cbv zeta.
  refine (proj2 (proj2 (proj2
    (read1_success_iff_one_element (H := sample_h) 5 _ 2%nat
       sox_read_w_buf sox_readw _ _))) _).
  - right. left. reflexivity.
  - discriminate.
  - discriminate.
Defined.

(** ** Session lifecycle *)

(** C10. For every session and every requested count [len], [sox_read]
    returns at most [len]: it returns 0 when the handler has no read
    callback, and 0 as well when the callback reports more elements
    than were requested. *)
Theorem sox_read_never_exceeds_request (env : sox_env) (ft : sox_format_t)
  (len : Z) :
  0 <= len ->
  let n := fst (fst (sox_read env ft len)) in
  n <= len
  /\ (read (handler ft) = None -> n = 0)
  /\ (forall f, read (handler ft) = Some f ->
                len < fst (fst (call_read env f ft len)) -> n = 0).
Proof.
  intros Hlen n. subst n. unfold sox_read.
  destruct (read (handler ft)) as [f|].
  - destruct (call_read env f ft len) as [[actual buf] ft'] eqn:Ec.
    cbn [fst snd]. destruct (Z.ltb_spec len actual) as [Hlt|Hge].
    + split; [exact Hlen|]. split; [discriminate|].
      intros f0 Hf0 _. reflexivity.
    + split; [exact Hge|]. split; [discriminate|].
      intros f0 Hf0. injection Hf0 as <-. rewrite Ec. cbn. lia.
  - cbn [fst snd]. destruct (len <? 0).
    + split; [exact Hlen|]. split; [reflexivity | discriminate].
    + split; [exact Hlen|]. split; [reflexivity | discriminate].
Qed.

(** A callback that reports 11 elements for a request of 10. *)
Lemma sox_read_never_exceeds_request_witness :
  let h := mk_handler ["raw"] 0 None (Some 1%nat) None None None None None
             None None in
  let ft := sample_format h (mk_signal 8000 1 16) unset_encoding "r"%char in
  fst (fst (call_read sample_env 1 ft 10)) = 11
  /\ fst (fst (sox_read sample_env ft 10)) = 0.
Proof.
  cbv zeta. split; [reflexivity|].
  refine (proj2 (proj2 (sox_read_never_exceeds_request sample_env
            (sample_format
               (mk_handler ["raw"] 0 None (Some 1%nat) None None None None
                  None None None)
               (mk_signal 8000 1 16) unset_encoding "r"%char) 10 _))
            1%nat eq_refl _).
  - discriminate.
  - reflexivity.
Defined.

Ltac break_match :=
  match goal with
  | |- context [match ?x with _ => _ end] => destruct x eqn:?
  | E : context [match ?x with _ => _ end] |- _ => destruct x eqn:?
  end.















(** C5, as the code has it. For a write session closed with [sox_close]:
    if the handler has the header-rewind flag, then, when the observed
    output length differs from the declared length and the stream is
    seekable, the stream is sought to position 0 and, if the seek
    succeeds, the stop-write hook (or, when there is none, the start-write
    hook) is invoked, and no hook is invoked if the seek fails; when the
    lengths agree or the stream is not seekable, no hook is invoked at
    all.  If the handler lacks the header-rewind flag, the stop-write
    hook is invoked directly, when present.  After that the stream is
    closed unless the handler does without stdio. *)
Theorem sox_close_write_calls `{sox_h} (env : sox_env) (ft : sox_format_t)
  (w : world) :
  Ascii.eqb (mode ft) "r"%char = false ->
  let h := handler ft in
  let rewind := has_flag (flags h) SOX_FILE_REWIND in
  let patch := negb (olength ft =? ft_length ft) && seekable ft in
  let sought := sox_seeki env ft 0 0 in
  exists tail,
    closing tail
    /\ trace (snd (sox_close env ft w))
       = trace w
         ++ (if rewind then
               if patch then
                 EvSeek 0 0
                 :: (if fst sought =? SOX_SUCCESS
                     then rewrite_hook (handler (snd sought)) else [])
               else []
             else stop_hook h)
         ++ tail.
Proof.
  intros Hmode h rewind patch sought. subst h rewind patch sought.
  unfold sox_close, seeki, invoke, rewrite_hook, stop_hook. rewrite Hmode.
  repeat break_match;
    repeat match goal with
      | E : (_, _) = (_, _) |- _ => injection E as ? ?; subst
      end;
    cbn [snd fst trace log] in *.
  all: try (exfalso; congruence).
  all: repeat match goal with
    | E1 : ?x = Some _, E2 : ?x = Some _ |- _ =>
        rewrite E1 in E2; injection E2 as ?; subst
    end.
  all: first
    [ match goal with
      | |- exists tail, _ /\ _ ++ [?e] = _ =>
          exists [e]; split;
          [right; eexists; reflexivity
          |cbn [app]; rewrite <- ?app_assoc; reflexivity]
      end
    | exists []; split;
      [left; reflexivity
      |cbn [app]; rewrite ?app_nil_r, <- ?app_assoc; reflexivity] ].
Qed.

(** A rewinding handler whose session wrote 5 samples where none were
    declared: the stream is sought to the start, stop-write runs, and the
    stream is closed. *)
Lemma sox_close_write_calls_witness :
  let h := sample_writer 8 (Some 6%nat) (Some 7%nat) None None in
  let ft := mk_format (Some "out") (mk_signal 8000 1 16) unset_encoding
              (Some "raw") true "w"%char 0 5 0 "" (Some (file_of "out"))
              (mk_stream [] [] false) h in
  exists tail,
    closing tail
    /\ trace (snd (sox_close (H := sample_h) sample_env ft initial_world))
       = [] ++ [EvSeek 0 0; EvHook 7] ++ tail.
Proof.
  exact (sox_close_write_calls (H := sample_h) sample_env
           (mk_format (Some "out") (mk_signal 8000 1 16) unset_encoding
              (Some "raw") true "w"%char 0 5 0 "" (Some (file_of "out"))
              (mk_stream [] [] false)
              (sample_writer 8 (Some 6%nat) (Some 7%nat) None None))
           initial_world eq_refl).
Defined.

(** C5, as stated, fails: for a write session whose handler has the
    header-rewind flag and a stop-write hook, and whose observed length
    equals the declared one, [sox_close] only closes the stream; the
    stop-write hook is not invoked. *)
Lemma rewind_handler_stop_write_not_invoked :
  let h := sample_writer 8 (Some 6%nat) (Some 7%nat) None None in
  let ft := sample_format h (mk_signal 8000 1 16) unset_encoding "w"%char in
  let after := snd (sox_close (H := sample_h) sample_env ft initial_world) in
  mode ft = "w"%char
  /\ stopwrite (handler ft) = Some 7%nat
  /\ has_flag (flags (handler ft)) (SOX_FILE_REWIND (sox_h := sample_h)) = true
  /\ olength ft = ft_length ft
  /\ trace after = [EvFclose (Some (file_of "out"))]
  /\ ~ In (EvHook 7) (trace after).
Proof.
  cbv zeta. repeat split; try reflexivity.
  vm_compute. intros [E|[]]. discriminate E.
Qed.

(** * Further properties *)

(** ** Output format negotiation *)

Lemma find_rate_found given a :
  In given (listed a) -> find_rate given a = given.
Proof.
  induction a as [|r a IH]; cbn; [intros []|].
  destruct (Z.eqb_spec r 0) as [|Hr]; [intros []|].
  destruct (Z.eqb_spec r given) as [->|Hne]; [reflexivity|].
  intros [Heq|Hin]; [contradiction | apply IH, Hin].
Qed.

Lemma listed_head (a : list Z) :
  listed a <> [] -> In (hd 0 a) (listed a).
Proof.
  destruct a as [|r a]; cbn; [congruence|].
  destruct (r =? 0); [congruence | left; reflexivity].
Qed.

(** X1. With a rate list that lists at least one rate, all positive,
    the rate [set_output_format] resolves to is always one of the listed
    rates, whatever was requested; a request that is listed is kept, and
    an unset request (zero) resolves to the first listed rate. *)
Theorem negotiated_rate_is_listed `{sox_h} (ft : sox_format_t)
  (rates : list Z) :
  write_rates (handler ft) = Some rates ->
  listed rates <> [] ->
  Forall (fun r => 0 < r) (listed rates) ->
  let given := rate (signal ft) in
  let r' := rate (signal (set_output_format ft)) in
  In r' (listed rates)
  /\ (In given (listed rates) -> r' = given)
  /\ (given = 0 -> r' = hd 0 rates).
Proof.
  intros Hr Hne Hpos given r'. subst r'.
  rewrite (set_output_format_rate ft rates Hr). fold given.
  rewrite Forall_forall in Hpos.
  assert (Hkeep : In given (listed rates) -> negotiate_rate rates given = given).
  { intros Hin. unfold negotiate_rate.
    pose proof (Hpos _ Hin) as Hp.
    destruct (Z.eqb_spec given 0) as [Hz|_]; [lia|].
    rewrite (find_rate_found _ _ Hin), Z.eqb_refl. reflexivity. }
  assert (Hzero : given = 0 -> negotiate_rate rates given = hd 0 rates).
  { intros ->. reflexivity. }
  split; [|split; assumption].
  destruct (Z.eq_dec given 0) as [Hz|Hnz].
  { rewrite (Hzero Hz). apply listed_head, Hne. }
  destruct (in_dec Z.eq_dec given (listed rates)) as [Hin|Hnin].
  { rewrite (Hkeep Hin). exact Hin. }
  rewrite (negotiate_rate_unlisted rates given Hnz Hnin).
  pose proof (scan_rates_min given rates None 0) as Hmin.
  destruct (scan_rates given rates None 0) as [[c|] m] eqn:Es.
  - destruct Hmin as ([Ha|(r1 & Ha & Hin1 & _)] & _); [discriminate Ha|].
    injection Ha as ->. exact Hin1.
  - assert (Hall : forall r, In r (listed rates) -> r <= given).
    { intros r Hin. destruct Hmin as (_ & _ & Hc).
      destruct (Z_le_gt_dec r given) as [Hle|Hgt]; [exact Hle|].
      destruct (Hc r Hin ltac:(lia)) as (c2 & Hc2 & _). discriminate Hc2. }
    pose proof (scan_rates_max given rates None 0 Hall) as Hmax.
    rewrite Es in Hmax. destruct Hmax as (_ & _ & [->|Hin] & Hub); [|exact Hin].
    exfalso. destruct (listed rates) as [|r0 l]; [congruence|].
    pose proof (Hub r0 (or_introl eq_refl)).
    pose proof (Hpos r0 (or_introl eq_refl)). lia.
Qed.

(** The rates 8000, 44100 and 48000 and a request of 96000. *)
Lemma negotiated_rate_is_listed_witness :
  let ft := sample_format
              (sample_writer 0 None None None (Some [8000; 44100; 48000; 0]))
              (mk_signal 96000 2 16) unset_encoding "w"%char in
  In (rate (signal (set_output_format (H := sample_h) ft)))
    [8000; 44100; 48000].
Proof.
  cbv zeta.
  refine (proj1 (negotiated_rate_is_listed (H := sample_h)
                   (sample_format
                      (sample_writer 0 None None None
                         (Some [8000; 44100; 48000; 0]))
                      (mk_signal 96000 2 16) unset_encoding "w"%char)
                   [8000; 44100; 48000; 0] eq_refl _ _)).
  - discriminate.
  - repeat constructor.
Defined.

(** X2. On a handler that restricts the channel count and allows at
    least one of mono, stereo and quad, a request for 1, 2 or 4 channels
    is resolved to a count the handler allows; any other request passes
    through unchanged. On a handler without restriction the resolved
    count is the request, raised to 1 when it is 0. *)
Theorem negotiated_channels_allowed `{sox_h} (ft : sox_format_t) :
  let fl := flags (handler ft) in
  let ch := channels (signal ft) in
  let ch' := channels (signal (set_output_format ft)) in
  (has_flag fl SOX_FILE_CHANS = true ->
   (has_flag fl SOX_FILE_MONO || has_flag fl SOX_FILE_STEREO
    || has_flag fl SOX_FILE_QUAD = true ->
    ch = 1 \/ ch = 2 \/ ch = 4 -> channels_allowed fl ch')
   /\ (ch <> 1 -> ch <> 2 -> ch <> 4 -> ch' = ch))
  /\ (has_flag fl SOX_FILE_CHANS = false -> ch' = Z.max ch 1).
Proof.
  intros fl ch ch'. subst ch'. rewrite set_output_format_channels.
  fold fl ch. unfold negotiate_channels, channels_allowed.
  split.
  - intros ->. split.
    + intros Hany Hch.
      destruct (has_flag fl SOX_FILE_MONO), (has_flag fl SOX_FILE_STEREO),
        (has_flag fl SOX_FILE_QUAD); try discriminate Hany;
        destruct Hch as [-> | [-> | ->]]; cbn; tauto.
    + intros H1 H2 H4.
      destruct (Z.eqb_spec ch 1); [contradiction|].
      destruct (Z.eqb_spec ch 2); [contradiction|].
      destruct (Z.eqb_spec ch 4); [contradiction|]. reflexivity.
  - intros ->. reflexivity.
Qed.

Lemma skip_sizes_length (l : list Z) :
  (List.length (skip_sizes l) <= List.length l)%nat.
Proof. induction l as [|s l IH]; cbn; [lia|]. destruct (s =? 0); cbn; lia. Qed.

(** Induction over a capability table, entry by entry. *)
Lemma table_ind (P : list Z -> Prop) :
  P [] ->
  (forall l', P (0 :: l')) ->
  (forall e l', e <> 0 -> P (skip_sizes l') -> P (e :: l')) ->
  forall l, P l.
Proof.
  intros Hnil Hzero Hstep l.
  remember (List.length l) as n eqn:Hn.
  revert l Hn. induction n as [n IH] using lt_wf_ind. intros l Hn.
  destruct l as [|e l']; [exact Hnil|].
  destruct (Z.eq_dec e 0) as [->|He]; [apply Hzero|].
  apply Hstep; [exact He|].
  apply (IH (List.length (skip_sizes l'))); [|reflexivity].
  pose proof (skip_sizes_length l'). cbn in Hn. lia.
Qed.

Lemma has_size_listed (bits : Z) (l : list Z) :
  has_size bits l = true <-> bits <> 0 /\ In bits (listed l).
Proof.
  induction l as [|s l IH]; cbn.
  - split; [discriminate | intros (_ & [])].
  - destruct (Z.eqb_spec s 0) as [->|Hs].
    + split; [discriminate | intros (_ & [])].
    + destruct (Z.eqb_spec s bits) as [->|Hne].
      * split; [intros _; split; [exact Hs | left; reflexivity] | reflexivity].
      * rewrite IH. cbn. split; [intros (Hb & Hin); tauto|].
        intros (Hb & [Heq|Hin]); [contradiction | tauto].
Qed.

Lemma supports_scan_spec (enc bits : Z) (l : list Z) :
  enc <> 0 ->
  supports_scan enc bits l
  = (find_encoding enc l =? enc) && has_size bits (after_encoding enc l).
Proof.
  intros He. induction l as [|l'|e l' Hne IH] using table_ind.
  - cbn [supports_scan find_encoding after_encoding].
    destruct (Z.eqb_spec 0 enc); [congruence | reflexivity].
  - cbn [supports_scan find_encoding after_encoding]. rewrite Z.eqb_refl.
    destruct (Z.eqb_spec 0 enc); [congruence | reflexivity].
  - cbn [supports_scan find_encoding after_encoding].
    destruct (Z.eqb_spec e 0) as [|_]; [contradiction|].
    destruct (Z.eqb_spec e enc) as [->|Hd].
    + rewrite Z.eqb_refl. reflexivity.
    + exact IH.
Qed.

Lemma supports_scan_nonzero (enc bits : Z) (l : list Z) :
  supports_scan enc bits l = true -> enc <> 0 /\ bits <> 0.
Proof.
  induction l as [|l'|e l' Hne IH] using table_ind; cbn; try discriminate.
  destruct (Z.eqb_spec e 0) as [|_]; [contradiction|].
  destruct (Z.eqb_spec e enc) as [<-|Hd]; [|exact IH].
  intros Hs. apply has_size_listed in Hs. tauto.
Qed.

Lemma scan_sizes_found `{sox_h} (e prec gs : Z) (l : list Z) :
  forall st,
    found (scan_sizes e prec gs l st) = found st || has_size gs l.
Proof.
  induction l as [|s l IH]; intros st; cbn; [rewrite orb_false_r; reflexivity|].
  destruct (Z.eqb_spec s 0) as [|Hs]; [rewrite orb_false_r; reflexivity|].
  rewrite IH.
  destruct (Z.eqb_spec s gs) as [->|Hd];
    destruct (prec <=? sox_precision e _); cbn;
    try destruct (max_p st <? sox_precision e _); cbn;
    rewrite ?orb_true_r; reflexivity.
Qed.

(** A supported request goes through the encoding negotiation
    unchanged. *)
Lemma negotiate_encoding_supported `{sox_h} (encodings : list Z)
  (prec enc bits : Z) :
  supports_scan enc bits encodings = true ->
  negotiate_encoding encodings prec enc bits = (enc, bits).
Proof.
  intros Hs. destruct (supports_scan_nonzero _ _ _ Hs) as (He & Hb).
  rewrite (supports_scan_spec _ _ _ He) in Hs.
  apply andb_prop in Hs. destruct Hs as (Hf & Hsz).
  unfold negotiate_encoding.
  apply Z.eqb_eq in Hf. rewrite Hf.
  destruct (Z.eqb_spec enc 0) as [|_]; [contradiction|]. cbn [negb andb].
  rewrite Z.eqb_refl. cbn [negb].
  rewrite scan_sizes_found, Hsz. cbn [found orb].
  destruct (Z.eqb_spec bits 0) as [|_]; [contradiction|]. cbn [negb andb].
  do 3 (cbv beta iota; rewrite ?(proj2 (Z.eqb_neq enc 0) He); cbn [andb]).
  reflexivity.
Qed.

Lemma supports_scan_pair (enc bits : Z) (l : list Z) :
  supports_scan enc bits l = true -> In (enc, bits) (pairs l).
Proof.
  induction l as [|l'|e l' Hne IH] using table_ind;
    cbn [supports_scan pairs]; try discriminate.
  destruct (Z.eqb_spec e 0) as [|_]; [contradiction|].
  intros Hs. apply in_or_app.
  destruct (Z.eqb_spec e enc) as [->|Hd].
  - left. apply in_map. apply has_size_listed in Hs. tauto.
  - right. apply IH, Hs.
Qed.

Lemma set_output_format_encoding `{sox_h} (ft : sox_format_t)
  (encodings : list Z) :
  write_formats (handler ft) = Some encodings ->
  (encoding (ft_encoding (set_output_format ft)),
   bits_per_sample (ft_encoding (set_output_format ft)))
  = negotiate_encoding encodings (precision (signal ft))
      (encoding (ft_encoding ft)) (bits_per_sample (ft_encoding ft)).
Proof.
  intros He. unfold set_output_format. rewrite He.
  destruct (negotiate_encoding encodings _ _ _) as [enc bits]. reflexivity.
Qed.

(** X3. When [sox_format_supports_encoding] answers yes for an encoding
    and a size, both are non-zero, the pair is listed in the capability
    table of the handler registered for the type, and
    [set_output_format] on a session of that handler that requests this
    encoding and size keeps both, whatever precision is requested. *)
Theorem supported_encoding_is_kept `{sox_h} (env : sox_env)
  (ft0 : sox_format_t) (path : string) (ftype : option string)
  (enc : sox_encodinginfo_t) :
  SOX_EFMT <> SOX_SUCCESS ->
  sox_format_supports_encoding env ft0 path ftype enc = true ->
  encoding enc <> 0 /\ bits_per_sample enc <> 0
  /\ exists h encodings,
       write_handler env path ftype = Some h
       /\ write_formats h = Some encodings
       /\ In (encoding enc, bits_per_sample enc) (pairs encodings)
       /\ forall ft,
            handler ft = h ->
            encoding (ft_encoding ft) = encoding enc ->
            bits_per_sample (ft_encoding ft) = bits_per_sample enc ->
            encoding (ft_encoding (set_output_format ft)) = encoding enc
            /\ bits_per_sample (ft_encoding (set_output_format ft))
               = bits_per_sample enc.
Proof.
  intros Hcode. unfold sox_format_supports_encoding, sox_gettype, write_handler.
  cbn [filetype mode].
  assert (Hbad : negb (SOX_EFMT =? SOX_SUCCESS) = true).
  { destruct (Z.eqb_spec SOX_EFMT SOX_SUCCESS); [contradiction | reflexivity]. }
  assert (Hfin : forall h,
            (match write_formats h with
             | Some encodings =>
                 supports_scan (encoding enc) (bits_per_sample enc) encodings
             | None => false
             end) = true ->
            encoding enc <> 0 /\ bits_per_sample enc <> 0
            /\ exists encodings,
                 write_formats h = Some encodings
                 /\ In (encoding enc, bits_per_sample enc) (pairs encodings)
                 /\ forall ft,
                      handler ft = h ->
                      encoding (ft_encoding ft) = encoding enc ->
                      bits_per_sample (ft_encoding ft) = bits_per_sample enc ->
                      encoding (ft_encoding (set_output_format ft))
                      = encoding enc
                      /\ bits_per_sample (ft_encoding (set_output_format ft))
                         = bits_per_sample enc).
  { intros h Hs. destruct (write_formats h) as [encodings|] eqn:Hw;
      [|discriminate Hs].
    destruct (supports_scan_nonzero _ _ _ Hs) as (He & Hb).
    split; [exact He|]. split; [exact Hb|].
    exists encodings. split; [reflexivity|].
    split; [apply supports_scan_pair, Hs|].
    intros ft Hh Henc Hbits. rewrite <- Hh in Hw.
    pose proof (set_output_format_encoding ft encodings Hw) as Hneg.
    rewrite Henc, Hbits, (negotiate_encoding_supported _ _ _ _ Hs) in Hneg.
    injection Hneg as -> ->. split; reflexivity. }
  assert (Hlook : forall t ext h,
            sox_find_format env t ext = Some h ->
            (let '(rc, ft2) :=
               match
                 (mode ft0 =? "w")%char, startwrite h, write h
               with
               | true, None, None =>
                   (SOX_EFMT,
                    sox_fail_errno
                      (with_handler
                         (mk_format (filename ft0) (signal ft0)
                            (ft_encoding ft0) (Some t) (seekable ft0)
                            (mode ft0) (ft_length ft0) (olength ft0)
                            (sox_errno ft0) (sox_errstr ft0) (fp ft0)
                            (io ft0) (handler ft0)) h)
                      SOX_EFMT "file type isn't writable")
               | _, _, _ =>
                   (SOX_SUCCESS,
                    with_handler
                      (mk_format (filename ft0) (signal ft0)
                         (ft_encoding ft0) (Some t) (seekable ft0)
                         (mode ft0) (ft_length ft0) (olength ft0)
                         (sox_errno ft0) (sox_errstr ft0) (fp ft0)
                         (io ft0) (handler ft0)) h)
               end in
             if negb (rc =? SOX_SUCCESS) then false
             else
               match write_formats (handler ft2) with
               | Some encodings =>
                   supports_scan (encoding enc) (bits_per_sample enc)
                     encodings
               | None => false
               end) = true ->
            (match write_formats h with
             | Some encodings =>
                 supports_scan (encoding enc) (bits_per_sample enc) encodings
             | None => false
             end) = true).
  { intros t ext h _.
    destruct (mode ft0 =? "w")%char, (startwrite h), (write h);
      rewrite ?Hbad, ?Z.eqb_refl; cbn [negb handler with_handler];
      try discriminate; intros Hs; exact Hs. }
  destruct ftype as [t|].
  - destruct (sox_find_format env t false) as [h|] eqn:Hf.
    + intros Hs. apply (Hlook t false h Hf) in Hs.
      destruct (Hfin h Hs) as (He & Hb & encs & Hrest).
      split; [exact He|]. split; [exact Hb|]. exists h, encs.
      split; [reflexivity | exact Hrest].
    + rewrite Hbad. discriminate.
  - destruct (find_file_extension env path) as [t|].
    + destruct (sox_find_format env t true) as [h|] eqn:Hf.
      * intros Hs. apply (Hlook t true h Hf) in Hs.
        destruct (Hfin h Hs) as (He & Hb & encs & Hrest).
        split; [exact He|]. split; [exact Hb|]. exists h, encs.
        split; [reflexivity | exact Hrest].
      * rewrite Hbad. discriminate.
    + rewrite Hbad. discriminate.
Qed.

(** Encoding 1 at 24 bits on the sample table. *)
Lemma supported_encoding_is_kept_witness :
  let enc := mk_encoding 1 24 SOX_OPTION_DEFAULT SOX_OPTION_DEFAULT
               SOX_OPTION_DEFAULT false in
  sox_format_supports_encoding (H := sample_h) (env_with pcm_handler)
    zeroed_format "out.pcm" (Some "pcm") enc = true
  /\ In (1, 24) (pairs sample_formats)
  /\ negotiated (mk_signal 8000 1 16) 1 24 = (mk_signal 8000 1 16, 1, 24).
Proof.
  cbv zeta. split; [reflexivity|].
  destruct (supported_encoding_is_kept (H := sample_h) (env_with pcm_handler)
              zeroed_format "out.pcm" (Some "pcm")
              (mk_encoding 1 24 SOX_OPTION_DEFAULT SOX_OPTION_DEFAULT
                 SOX_OPTION_DEFAULT false))
    as (_ & _ & h & encs & Hh & Hw & Hin & _).
  - discriminate.
  - reflexivity.
  - cbn in Hh. injection Hh as <-. cbn in Hw. injection Hw as <-.
    split; [exact Hin | reflexivity].
Defined.

Lemma selects_refl (q : Z -> Z -> bool) (st : table_scan) :
  selects q [] st st.
Proof.
  unfold selects. split; [lia|]. split; [left; split; reflexivity|].
  intros e s [].
Qed.

Lemma selects_trans (q : Z -> Z -> bool) (L1 L2 : list (Z * Z))
  (a b c : table_scan) :
  selects q L1 a b -> selects q L2 b c -> selects q (L1 ++ L2) a c.
Proof.
  intros (Hab & Hb & Hmin1) (Hbc & Hc & Hmin2). unfold selects.
  split; [lia|]. split.
  - destruct Hc as [(Hce & Hcb)|(Hin & Hq & Hlt)].
    + rewrite Hce, Hcb.
      destruct Hb as [Hsame|(Hin & Hq & Hlt)]; [left; exact Hsame|].
      right. split; [apply in_or_app; left; exact Hin|]. split; assumption.
    + right. split; [apply in_or_app; right; exact Hin|]. split; [exact Hq | lia].
  - intros e s Hin Hq. apply in_app_or in Hin. destruct Hin as [Hin|Hin].
    + pose proof (Hmin1 e s Hin Hq). lia.
    + apply (Hmin2 e s Hin Hq).
Qed.

Lemma tracks_max_refl `{sox_h} (prec : Z) (st : table_scan) :
  tracks_max prec [] st st.
Proof.
  unfold tracks_max. split; [lia|]. split; [left; repeat split|].
  intros e s [].
Qed.

Lemma tracks_max_trans `{sox_h} (prec : Z) (L1 L2 : list (Z * Z))
  (a b c : table_scan) :
  tracks_max prec L1 a b -> tracks_max prec L2 b c ->
  tracks_max prec (L1 ++ L2) a c.
Proof.
  intros (Hab & Hb & Hmax1) (Hbc & Hc & Hmax2). unfold tracks_max.
  split; [lia|]. split.
  - destruct Hc as [(Hp & He & Hs)|(Hin & Hp & Hlt)].
    + rewrite Hp, He, Hs.
      destruct Hb as [Hsame|(Hin & Hp' & Hlt)]; [left; exact Hsame|].
      right. split; [apply in_or_app; left; exact Hin|]. split; assumption.
    + right. split; [apply in_or_app; right; exact Hin|]. split; assumption.
  - intros e s Hin Hlow. apply in_app_or in Hin. destruct Hin as [Hin|Hin].
    + pose proof (Hmax1 e s Hin Hlow). lia.
    + apply (Hmax2 e s Hin Hlow).
Qed.

(** One pair put to the test of a search. *)
Lemma selects_one (q : Z -> Z -> bool) (e s : Z) (st : table_scan) :
  selects q [(e, s)] st
    (if q e s && (s <? sel_bits st)
     then mk_table_scan e s (tmax_p st) (tmax_p_e st) (tmax_p_s st)
     else st).
Proof.
  unfold selects. destruct (q e s) eqn:Hq; cbn [andb].
  - destruct (Z.ltb_spec s (sel_bits st)) as [Hlt|Hge]; cbn.
    + split; [lia|]. split; [right; repeat split; [left; reflexivity | exact Hq | exact Hlt]|].
      intros e0 s0 [E|[]] _. injection E as <- <-. lia.
    + split; [lia|]. split; [left; split; reflexivity|].
      intros e0 s0 [E|[]] _. injection E as <- <-. exact Hge.
  - split; [lia|]. split; [left; split; reflexivity|].
    intros e0 s0 [E|[]] Hq0. injection E as <- <-. congruence.
Qed.

Lemma lossless_sizes_selects `{sox_h} (e prec : Z) (l : list Z) :
  forall st,
    selects (lossless_fit prec) (map (pair e) (listed l)) st
      (lossless_sizes e prec l st).
Proof.
  induction l as [|s l IH]; intros st; cbn [lossless_sizes listed map].
  - apply selects_refl.
  - destruct (Z.eqb_spec s 0) as [|Hs]; [apply selects_refl|].
    cbn [map].
    change ((e, s) :: map (pair e) (listed l))
      with ([(e, s)] ++ map (pair e) (listed l)).
    eapply selects_trans; [|apply IH].
    apply (selects_one (lossless_fit prec) e s st).
Qed.

Lemma lossless_search_selects `{sox_h} (prec : Z) (l : list Z) :
  forall st,
    selects (lossless_fit prec) (pairs l) st (lossless_search prec l st).
Proof.
  induction l as [|l'|e l' Hne IH] using table_ind; intros st;
    cbn [lossless_search pairs]; try apply selects_refl.
  - destruct (Z.eqb_spec e 0) as [|_]; [contradiction|].
    eapply selects_trans; [apply lossless_sizes_selects | apply IH].
Qed.

Lemma lossy_step_selects `{sox_h} (e prec s : Z) (st : table_scan) :
  selects (any_fit prec) [(e, s)] st (lossy_step e prec s st).
Proof.
  pose proof (selects_one (any_fit prec) e s st) as Hone.
  unfold lossy_step, any_fit in *.
  destruct (prec <=? sox_precision e s) eqn:Hfit; cbn [andb] in Hone.
  - exact Hone.
  - destruct (tmax_p st <? sox_precision e s); [|exact Hone].
    destruct Hone as (Hle & Hsel & Hmin).
    split; [exact Hle|]. split; [left; split; reflexivity | exact Hmin].
Qed.

Lemma lossy_step_tracks `{sox_h} (e prec s : Z) (st : table_scan) :
  tracks_max prec [(e, s)] st (lossy_step e prec s st).
Proof.
  unfold tracks_max, lossy_step.
  destruct (Z.leb_spec prec (sox_precision e s)) as [Hfit|Hlow].
  - assert (Hsame : forall st',
              tmax_p st' = tmax_p st -> tmax_p_e st' = tmax_p_e st ->
              tmax_p_s st' = tmax_p_s st ->
              tmax_p st <= tmax_p st'
              /\ ((tmax_p st' = tmax_p st /\ tmax_p_e st' = tmax_p_e st
                   /\ tmax_p_s st' = tmax_p_s st)
                  \/ (In (tmax_p_e st', tmax_p_s st') [(e, s)]
                      /\ tmax_p st'
                         = sox_precision (tmax_p_e st') (tmax_p_s st')
                      /\ tmax_p st' < prec))
              /\ (forall e0 s0, In (e0, s0) [(e, s)] ->
                                sox_precision e0 s0 < prec ->
                                sox_precision e0 s0 <= tmax_p st')).
    { intros st' Hp He Hs. split; [lia|]. split; [left; tauto|].
      intros e0 s0 [E|[]] Hl. injection E as <- <-. lia. }
    destruct (s <? sel_bits st); apply Hsame; reflexivity.
  - destruct (Z.ltb_spec (tmax_p st) (sox_precision e s)) as [Hgt|Hle]; cbn.
    + split; [lia|]. split; [right; repeat split; [left; reflexivity | exact Hlow]|].
      intros e0 s0 [E|[]] _. injection E as <- <-. lia.
    + split; [lia|]. split; [left; repeat split|].
      intros e0 s0 [E|[]] _. injection E as <- <-. exact Hle.
Qed.

Lemma lossy_sizes_invariant `{sox_h} (e prec : Z) (l : list Z) :
  forall st,
    selects (any_fit prec) (map (pair e) (listed l ++ [0])) st
      (lossy_sizes e prec l st)
    /\ tracks_max prec (map (pair e) (listed l ++ [0])) st
         (lossy_sizes e prec l st).
Proof.
  induction l as [|s l IH]; intros st; cbn [lossy_sizes listed map app].
  - split; [apply lossy_step_selects | apply lossy_step_tracks].
  - destruct (Z.eqb_spec s 0) as [->|Hs]; cbn [map app].
    + split; [apply lossy_step_selects | apply lossy_step_tracks].
    + destruct (IH (lossy_step e prec s st)) as (Hsel & Htr).
      change ((e, s) :: map (pair e) (listed l ++ [0]))
        with ([(e, s)] ++ map (pair e) (listed l ++ [0])).
      split.
      * eapply selects_trans; [apply lossy_step_selects | exact Hsel].
      * eapply tracks_max_trans; [apply lossy_step_tracks | exact Htr].
Qed.

Lemma lossy_search_invariant `{sox_h} (prec : Z) (l : list Z) :
  forall st,
    selects (any_fit prec) (entries l) st (lossy_search prec l st)
    /\ tracks_max prec (entries l) st (lossy_search prec l st).
Proof.
  induction l as [|l'|e l' Hne IH] using table_ind; intros st;
    cbn [lossy_search entries];
    try (split; [apply selects_refl | apply tracks_max_refl]).
  destruct (Z.eqb_spec e 0) as [|_]; [contradiction|].
  destruct (lossy_sizes_invariant e prec l' st) as (Hs1 & Ht1).
  destruct (IH (lossy_sizes e prec l' st)) as (Hs2 & Ht2).
  split.
  - eapply selects_trans; eassumption.
  - eapply tracks_max_trans; eassumption.
Qed.

Lemma entries_offered (l : list Z) (e s : Z) :
  In (e, s) (entries l) <->
  In (e, s) (pairs l) \/ (s = 0 /\ In e (encodings_of l)).
Proof.
  induction l as [|l'|e0 l' Hne IH] using table_ind;
    cbn [entries pairs encodings_of]; try tauto.
  destruct (Z.eqb_spec e0 0) as [|_]; [contradiction|].
  rewrite map_app, !in_app_iff, IH. cbn [map In].
  split.
  - intros [[Hin|[E|[]]]|[Hin|Hin]]; try tauto.
    injection E as <- <-. right. split; [reflexivity | left; reflexivity].
  - intros [[Hin|Hin]|(-> & [<-|Hin])]; try tauto.
Qed.

Lemma pairs_nonzero (l : list Z) (e s : Z) :
  In (e, s) (pairs l) -> e <> 0 /\ s <> 0.
Proof.
  induction l as [|l'|e0 l' Hne IH] using table_ind; cbn [pairs];
    try (intros []).
  destruct (Z.eqb_spec e0 0) as [|_]; [contradiction|].
  rewrite in_app_iff, in_map_iff.
  intros [(s0 & E & Hin)|Hin]; [|apply IH, Hin].
  injection E as <- <-. split; [exact Hne|].
  clear IH. induction l' as [|x l' IHl]; cbn in Hin; [destruct Hin|].
  destruct (Z.eqb_spec x 0); [destruct Hin|].
  destruct Hin as [<-|Hin]; [assumption | apply IHl, Hin].
Qed.

Lemma scan_sizes_listed `{sox_h} (e prec gs : Z) (l : list Z) :
  forall st,
    (best_bits (scan_sizes e prec gs l st) = best_bits st
     \/ In (best_bits (scan_sizes e prec gs l st)) (listed l))
    /\ (max_p_s (scan_sizes e prec gs l st) = max_p_s st
        \/ In (max_p_s (scan_sizes e prec gs l st)) (listed l)).
Proof.
  induction l as [|s l IH]; intros st; cbn [scan_sizes listed];
    [split; left; reflexivity|].
  destruct (Z.eqb_spec s 0) as [|Hs]; [split; left; reflexivity|].
  match goal with
  | |- context [scan_sizes e prec gs l ?st1] =>
      destruct (IH st1) as (Hb & Hm); revert Hb Hm;
      generalize (scan_sizes e prec gs l st1)
  end.
  intros st'.
  destruct (prec <=? sox_precision e s);
    [destruct (s <? best_bits st)
    |destruct (max_p st <? sox_precision e s)];
    cbn [best_bits max_p_s In]; intros [Hb|Hb] [Hm|Hm];
    rewrite ?Hb, ?Hm; split; tauto.
Qed.

Lemma find_encoding_listed (enc : Z) (l : list Z) :
  enc <> 0 -> find_encoding enc l = enc ->
  In enc (encodings_of l)
  /\ forall s, In s (listed (after_encoding enc l)) -> In (enc, s) (pairs l).
Proof.
  intros He.
  induction l as [|l'|e l' Hne IH] using table_ind;
    cbn [find_encoding after_encoding encodings_of pairs];
    rewrite ?Z.eqb_refl; try (intros ?; congruence).
  destruct (Z.eqb_spec e 0) as [|_]; [contradiction|].
  destruct (Z.eqb_spec e enc) as [->|Hd].
  - intros _. split; [left; reflexivity|].
    intros s Hin. apply in_or_app. left. apply in_map, Hin.
  - intros Hf. destruct (IH Hf) as (Hin & Hp). split; [right; exact Hin|].
    intros s Hs. apply in_or_app. right. apply Hp, Hs.
Qed.

Lemma find_size_inner_spec (bits : Z) (l : list Z) :
  bits <> 0 ->
  (find_size_inner bits l = bits /\ In bits (listed l))
  \/ (find_size_inner bits l = 0
      /\ after_size_inner bits l = skip_sizes l).
Proof.
  intros Hb. induction l as [|s l IH];
    cbn [find_size_inner after_size_inner skip_sizes listed];
    [right; split; reflexivity|].
  destruct (Z.eqb_spec s 0) as [->|Hs]; cbn [orb];
    [right; split; reflexivity|].
  destruct (Z.eqb_spec s bits) as [->|Hd].
  - left. split; [reflexivity | left; reflexivity].
  - destruct IH as [(Hf & Hin)|(Hf & Ha)]; [left | right]; split;
      try assumption. right. exact Hin.
Qed.

Lemma find_size_listed (bits : Z) (l : list Z) :
  bits <> 0 ->
  (fst (find_size bits l) = bits
   /\ In (snd (find_size bits l), bits) (pairs l))
  \/ fst (find_size bits l) = 0.
Proof.
  intros Hb.
  induction l as [|l'|e l' Hne IH] using table_ind;
    cbn [find_size pairs]; try (right; reflexivity).
  destruct (Z.eqb_spec e 0) as [|_]; [contradiction|].
  destruct (find_size_inner_spec bits l' Hb) as [(Hf & Hin)|(Hf & Ha)];
    rewrite Hf.
  - rewrite Z.eqb_refl. cbn [fst snd]. left. split; [reflexivity|].
    apply in_or_app. left. apply in_map, Hin.
  - destruct (Z.eqb_spec 0 bits) as [|_]; [congruence|]. rewrite Ha.
    destruct IH as [(Hs & Hin)|Hs]; [left | right; exact Hs].
    split; [exact Hs | apply in_or_app; right; exact Hin].
Qed.

Lemma entries_are_offered (l : list Z) (e s : Z) :
  In (e, s) (entries l) -> offered l (e, s) /\ e <> 0.
Proof.
  intros Hin. apply entries_offered in Hin. unfold offered. cbn [fst snd].
  destruct Hin as [Hin|(Hs & Hin)].
  - split; [tauto | apply (pairs_nonzero l e s Hin)].
  - split; [tauto|]. clear Hs.
    induction l as [|l'|e0 l' Hne IH] using table_ind;
      cbn [encodings_of] in Hin; try destruct Hin.
    + revert Hin. destruct (Z.eqb_spec e0 0) as [|_]; [contradiction|].
      intros [<-|Hin]; [exact Hne | apply IH, Hin].
Qed.

Lemma negotiate_encoding_offered `{sox_h} (encodings : list Z)
  (prec enc0 bits0 : Z) :
  offered encodings (negotiate_encoding encodings prec enc0 bits0).
Proof.
  unfold negotiate_encoding.
  (* an encoding has been given *)
  match goal with
  | |- context [match ?t with (_, _) => _ end] =>
      assert (H1 : fst t = 0 \/ (fst t <> 0 /\ offered encodings t));
      [|destruct t as [enc1 bits1]]
  end.
  { destruct (Z.eqb_spec enc0 0) as [->|He0]; cbn [negb]; [left; reflexivity|].
    destruct (Z.eqb_spec (find_encoding enc0 encodings) enc0) as [Hf|_];
      cbn [negb]; [|left; reflexivity].
    right. cbn [fst]. split; [exact He0|].
    destruct (find_encoding_listed enc0 encodings He0 Hf) as (Hin & Hp).
    assert (Hsz : forall s, In s (listed (after_encoding enc0 encodings)) ->
                            offered encodings (enc0, s)).
    { intros s Hs. right. left. apply Hp, Hs. }
    assert (Hz : offered encodings (enc0, 0)).
    { right. right. split; [reflexivity | exact Hin]. }
    rewrite Hf.
    destruct (scan_sizes_listed enc0 prec bits0
                (after_encoding enc0 encodings) (mk_size_scan false 65 0 0))
      as (Hb & Hm).
    rewrite scan_sizes_found. cbn [found orb best_bits max_p_s] in *.
    set (st := scan_sizes enc0 prec bits0 _ _) in *.
    assert (Hfall : offered encodings
                      (enc0, if best_bits st =? 65 then max_p_s st
                             else best_bits st)).
    { destruct (Z.eqb_spec (best_bits st) 65) as [_|Hne].
      - destruct Hm as [->|Hm]; [exact Hz | apply Hsz, Hm].
      - destruct Hb as [Hb|Hb]; [contradiction | apply Hsz, Hb]. }
    destruct (Z.eqb_spec bits0 0) as [|Hb0]; cbn [negb]; [exact Hfall|].
    destruct (has_size bits0 _) eqn:Hhs; [|exact Hfall].
    apply has_size_listed in Hhs. apply Hsz. tauto. }
  cbn [fst] in H1.
  (* a size has been given *)
  match goal with
  | |- context [match ?t with (_, _) => _ end] =>
      assert (H2 : fst t = 0 \/ (fst t <> 0 /\ offered encodings t));
      [|clear H1; destruct t as [enc2 bits2]]
  end.
  { destruct (Z.eqb_spec enc1 0) as [->|He1]; cbn [andb].
    - destruct (Z.eqb_spec bits1 0) as [|Hb1]; cbn [negb]; [left; reflexivity|].
      destruct (find_size_listed bits1 encodings Hb1) as [(Hs & Hin)|Hs];
        destruct (find_size bits1 encodings) as [s e]; cbn [fst snd] in *;
        subst s.
      + rewrite Z.eqb_refl. cbn [negb fst]. right.
        split; [apply (pairs_nonzero _ _ _ Hin) | right; left; exact Hin].
      + destruct (Z.eqb_spec 0 bits1) as [|_]; [congruence|]. left. reflexivity.
    - destruct H1 as [H1|H1]; [contradiction|]. right. exact H1. }
  cbn [fst] in H2.
  (* the lossless search *)
  match goal with
  | |- context [match ?t with (_, _) => _ end] =>
      assert (H3 : t = (0, 65) \/ (fst t <> 0 /\ offered encodings t));
      [|clear H2; destruct t as [enc3 bits3]]
  end.
  { destruct (Z.eqb_spec enc2 0) as [->|He2].
    - destruct (lossless_search_selects prec encodings
                  (mk_table_scan 0 65 0 0 0)) as (_ & Hsel & _).
      cbn [sel_encoding sel_bits] in Hsel.
      destruct Hsel as [(-> & ->)|(Hin & _)]; [left; reflexivity|].
      right. cbn [fst]. split; [apply (pairs_nonzero _ _ _ Hin)|].
      right. left. exact Hin.
    - destruct H2 as [H2|H2]; [contradiction|]. right. exact H2. }
  (* the search over all encodings *)
  destruct H3 as [E|(He3 & Hoff)].
  - injection E as -> ->. rewrite Z.eqb_refl.
    destruct (lossy_search_invariant prec encodings
                (mk_table_scan 0 65 0 0 0)) as ((_ & Hsel & _) & (_ & Hmax & _)).
    cbn [sel_encoding sel_bits tmax_p tmax_p_e tmax_p_s] in Hsel, Hmax.
    destruct (Z.eqb_spec (sel_encoding (lossy_search prec encodings
                (mk_table_scan 0 65 0 0 0))) 0) as [Hz|Hnz].
    + destruct Hmax as [(_ & -> & ->)|(Hin & _)]; [left; reflexivity|].
      apply entries_are_offered, Hin.
    + destruct Hsel as [(Hs & _)|(Hin & _)]; [contradiction|].
      apply entries_are_offered, Hin.
  - destruct (Z.eqb_spec enc3 0) as [|_]; [contradiction | exact Hoff].
Qed.

(** X4. For a handler with a capability table, the encoding and size
    [set_output_format] resolves to are always taken from the table,
    whatever was requested: they are one of its pairs, or one of its
    encodings with the size 0 (when the encoding lists no usable size),
    or both are 0 (when the table has nothing to offer). *)
Theorem negotiated_pair_is_offered `{sox_h} (ft : sox_format_t)
  (encodings : list Z) :
  write_formats (handler ft) = Some encodings ->
  offered encodings
    (encoding (ft_encoding (set_output_format ft)),
     bits_per_sample (ft_encoding (set_output_format ft))).
Proof.
  intros He. rewrite (set_output_format_encoding ft encodings He).
  apply negotiate_encoding_offered.
Qed.

(** A request for an encoding the sample table lacks, at a size it
    lacks. *)
Lemma negotiated_pair_is_offered_witness :
  let ft := sample_format pcm_handler (mk_signal 8000 1 16)
              (mk_encoding 7 12 SOX_OPTION_DEFAULT SOX_OPTION_DEFAULT
                 SOX_OPTION_DEFAULT false) "w"%char in
  offered sample_formats
    (encoding (ft_encoding (set_output_format (H := sample_h) ft)),
     bits_per_sample (ft_encoding (set_output_format (H := sample_h) ft))).
Proof.
  exact (negotiated_pair_is_offered (H := sample_h)
           (sample_format pcm_handler (mk_signal 8000 1 16)
              (mk_encoding 7 12 SOX_OPTION_DEFAULT SOX_OPTION_DEFAULT
                 SOX_OPTION_DEFAULT false) "w"%char)
           sample_formats eq_refl).
Defined.






(** ** Order normalisation and the bytes on the stream *)

(** X6. [set_endianness_if_not_already_set] only touches the three order
    fields of the session, applying it a second time changes nothing,
    and, unless the opposite endianness is requested, a field the
    caller has set to yes or no keeps its value. *)
Theorem set_endianness_settles `{sox_h} (ft : sox_format_t) :
  let ft1 := fst (set_endianness_if_not_already_set ft) in
  fst (set_endianness_if_not_already_set ft1) = ft1
  /\ with_encoding ft1 (ft_encoding ft) = ft
  /\ encoding (ft_encoding ft1) = encoding (ft_encoding ft)
  /\ bits_per_sample (ft_encoding ft1) = bits_per_sample (ft_encoding ft)
  /\ opposite_endian (ft_encoding ft1) = opposite_endian (ft_encoding ft)
  /\ (opposite_endian (ft_encoding ft) = false ->
      resolved (reverse_bytes (ft_encoding ft)) ->
      reverse_bytes (ft_encoding ft1) = reverse_bytes (ft_encoding ft))
  /\ (resolved (reverse_bits (ft_encoding ft)) ->
      reverse_bits (ft_encoding ft1) = reverse_bits (ft_encoding ft))
  /\ (resolved (reverse_nibbles (ft_encoding ft)) ->
      reverse_nibbles (ft_encoding ft1) = reverse_nibbles (ft_encoding ft)).
Proof.
  destruct ft as [fn sg [e b rb rn rbi op] fty sk m len ol en es f i h].
  unfold set_endianness_if_not_already_set, resolved.
  cbn [fst ft_encoding handler with_encoding encoding bits_per_sample
         reverse_bytes reverse_bits reverse_nibbles opposite_endian
         filename signal filetype seekable mode ft_length olength sox_errno
         sox_errstr fp io].
  split.
  { destruct op, rb, rn, rbi, (has_flag (flags h) SOX_FILE_ENDIAN),
      (has_flag (flags h) SOX_FILE_ENDBIG),
      (has_flag (flags h) SOX_FILE_BIT_REV),
      (has_flag (flags h) SOX_FILE_NIB_REV), SOX_IS_BIGENDIAN; reflexivity. }
  split; [reflexivity|]. split; [reflexivity|]. split; [reflexivity|].
  split; [reflexivity|].
  split; [intros -> [->| ->]; reflexivity|].
  split; intros [->| ->]; reflexivity.
Qed.

Lemma le_bytes_swap (size : nat) (v : Z) :
  le_bytes size (byte_swap size v) = rev (le_bytes size v).
Proof.
  unfold byte_swap.
  rewrite <- (le_bytes_length size v) at 1.
  rewrite <- (length_rev (le_bytes size v)).
  apply le_bytes_le_value, Forall_rev, le_bytes_range.
Qed.

(** The bytes an aligned element leaves on the stream. *)
Lemma store_twiddled `{sox_h} (size : nat) (ft : sox_format_t) (v : Z) :
  store size (TWIDDLE_WORD (byte_swap size) ft v)
  = wire_bytes (xorb SOX_IS_BIGENDIAN
                  (is_set (reverse_bytes (ft_encoding ft)))) size v.
Proof.
  unfold store, TWIDDLE_WORD, wire_bytes.
  destruct SOX_IS_BIGENDIAN, (is_set (reverse_bytes (ft_encoding ft)));
    cbn [xorb]; rewrite ?le_bytes_swap, ?rev_involutive; reflexivity.
Qed.

Lemma le_bytes_3 (v : Z) :
  le_bytes 3 v
  = [Z.land v 255; Z.land (Z.shiftr v 8) 255; Z.land (Z.shiftr v 16) 255].
Proof.
  cbn [le_bytes]. change 255 with (Z.ones 8).
  rewrite !Z.land_ones, !Z.shiftr_div_pow2 by lia.
  rewrite Z.div_div by lia. reflexivity.
Qed.

(** The bytes a 3-byte element leaves on the stream. *)
Lemma sox_pack3_wire `{sox_h} (ft : sox_format_t) (v : Z) :
  sox_pack3 ft v
  = wire_bytes (negb (int_of_option (reverse_bytes (ft_encoding ft))
                      =? int_of_bool SOX_IS_BIGENDIAN)) 3 v.
Proof.
  unfold sox_pack3, wire_bytes. rewrite le_bytes_3.
  destruct (_ =? _); reflexivity.
Qed.

(** The byte order [set_endianness_if_not_already_set] resolves to when
    the caller leaves it open or asks for the opposite endianness. *)
Lemma resolved_reverse_bytes `{sox_h} (ft : sox_format_t) :
  opposite_endian (ft_encoding ft) = true
  \/ reverse_bytes (ft_encoding ft) = SOX_OPTION_DEFAULT ->
  let fl := flags (handler ft) in
  let big :=
    xorb (if has_flag fl SOX_FILE_ENDIAN then has_flag fl SOX_FILE_ENDBIG
          else SOX_IS_BIGENDIAN)
      (opposite_endian (ft_encoding ft)) in
  reverse_bytes (ft_encoding (fst (set_endianness_if_not_already_set ft)))
  = option_of_bool (xorb SOX_IS_BIGENDIAN big).
Proof.
  intros Hopen. cbv zeta. unfold set_endianness_if_not_already_set.
  cbn [fst ft_encoding with_encoding reverse_bytes].
  destruct (opposite_endian (ft_encoding ft)) eqn:Hop.
  - destruct (has_flag (flags (handler ft)) SOX_FILE_ENDIAN),
      (has_flag (flags (handler ft)) SOX_FILE_ENDBIG),
      SOX_IS_BIGENDIAN; reflexivity.
  - destruct Hopen as [Hopen|Hopen]; [discriminate Hopen|]. rewrite Hopen.
    destruct (has_flag (flags (handler ft)) SOX_FILE_ENDIAN),
      (has_flag (flags (handler ft)) SOX_FILE_ENDBIG),
      SOX_IS_BIGENDIAN; reflexivity.
Qed.

(** X7. For a buffer whose byte count (the number of elements times the
    width) is in the range of [sox_size_t]: when the caller leaves the
    byte order open, or asks for the opposite endianness, the typed
    write functions of 2, 3, 4 and 8 bytes write every element, and the
    bytes they put on the stream do not depend on the endianness of the
    machine: with a handler of fixed endianness each element is
    written most significant byte first if the handler is big-endian and
    least significant byte first otherwise, and the other way round when
    the opposite endianness is requested. With a handler of no fixed
    endianness the elements are written in the byte order of the
    machine, or in the opposite one on request. *)
Theorem written_byte_order `{sox_h} (ft : sox_format_t) (buf : list Z)
  (size : nat) (wr : sox_format_t -> list Z -> nat * sox_format_t) :
  In (size, wr)
    [ (2%nat, sox_write_w_buf); (3%nat, sox_write_3_buf);
      (4%nat, sox_write_dw_buf); (4%nat, sox_write_f_buf);
      (8%nat, sox_write_df_buf) ] ->
  countable (List.length buf) size ->
  opposite_endian (ft_encoding ft) = true
  \/ reverse_bytes (ft_encoding ft) = SOX_OPTION_DEFAULT ->
  let fl := flags (handler ft) in
  let big :=
    xorb (if has_flag fl SOX_FILE_ENDIAN then has_flag fl SOX_FILE_ENDBIG
          else SOX_IS_BIGENDIAN)
      (opposite_endian (ft_encoding ft)) in
  let ft1 := fst (set_endianness_if_not_already_set ft) in
  fst (wr ft1 buf) = List.length buf
  /\ written (io (snd (wr ft1 buf)))
     = written (io ft) ++ List.concat (map (wire_bytes big size) buf).
Proof.
  intros Hin Hc Hopen fl big ft1.
  pose proof (resolved_reverse_bytes ft Hopen) as Hrb. cbv zeta in Hrb.
  fold fl big ft1 in Hrb.
  assert (Hio : io ft1 = io ft) by reflexivity.
  assert (Hwire : forall n v, List.length (wire_bytes big n v) = n).
  { intros n v. unfold wire_bytes. destruct big;
      rewrite ?length_rev; apply le_bytes_length. }
  assert (Haligned : forall n, (0 < n)%nat ->
            countable (List.length buf) n ->
            fst (WRITE_FUNC n (TWIDDLE_WORD (byte_swap n)) ft1 buf)
            = List.length buf
            /\ written (io (snd (WRITE_FUNC n (TWIDDLE_WORD (byte_swap n))
                                   ft1 buf)))
               = written (io ft)
                 ++ List.concat (map (wire_bytes big n) buf)).
  { intros n Hn Hcn. unfold WRITE_FUNC, sox_writebuf.
    rewrite (sox_size_mul_small _ _ Hcn).
    assert (Hmap : map (fun v => store n (TWIDDLE_WORD (byte_swap n) ft1 v)) buf
                   = map (wire_bytes big n) buf).
    { apply map_ext. intros v. rewrite store_twiddled, Hrb.
      destruct SOX_IS_BIGENDIAN, big; reflexivity. }
    rewrite Hmap, (whole_buffer n) by apply Hwire.
    cbn [fst snd io with_io written]. rewrite Hio.
    split; [|reflexivity].
    rewrite (concat_map_length n) by apply Hwire.
    apply Nat.div_mul. lia. }
  cbn [In] in Hin.
  destruct Hin as [E|[E|[E|[E|[E|[]]]]]]; injection E as <- <-.
  - apply Haligned; [lia | exact Hc].
  - unfold sox_write_3_buf, WRITE_FUNC_PACK, sox_writebuf.
    rewrite (sox_size_mul_small _ _ Hc).
    assert (Hmap : map (sox_pack3 ft1) buf = map (wire_bytes big 3) buf).
    { apply map_ext. intros v. rewrite sox_pack3_wire, Hrb.
      destruct SOX_IS_BIGENDIAN, big; reflexivity. }
    rewrite Hmap, (whole_buffer 3) by apply Hwire.
    cbn [fst snd io with_io written]. rewrite Hio.
    split; [|reflexivity].
    rewrite (concat_map_length 3) by apply Hwire.
    apply Nat.div_mul. lia.
  - apply Haligned; [lia | exact Hc].
  - apply (Haligned 4%nat); [lia | exact Hc].
  - apply Haligned; [lia | exact Hc].
Qed.

(** The 16-bit value 0x1234 on a big-endian handler: 0x12 goes first. *)
Lemma written_byte_order_witness :
  let ft := sample_format (sample_writer 192 None None None None)
              (mk_signal 8000 1 16) unset_encoding "w"%char in
  written (io (snd (sox_write_w_buf (H := sample_h)
                      (fst (set_endianness_if_not_already_set
                              (H := sample_h) ft)) [4660])))
  = [18; 52].
Proof.
  cbv zeta.
  refine (proj2 (written_byte_order (H := sample_h)
                   (sample_format (sample_writer 192 None None None None)
                      (mk_signal 8000 1 16) unset_encoding "w"%char)
                   [4660] 2%nat sox_write_w_buf _ _ _)).
  - left. reflexivity.
  - reflexivity.
  - right. reflexivity.
Defined.

(** ** Typed stream transfer *)

Lemma whole_elements (size bytes n : nat) :
  (Nat.min bytes n / size)%nat = Nat.min (bytes / size) (n / size).
Proof.
  destruct (Nat.le_gt_cases bytes n) as [Hle|Hgt].
  - rewrite Nat.min_l by exact Hle. symmetry. apply Nat.min_l.
    apply Nat.Div0.div_le_mono. exact Hle.
  - rewrite Nat.min_r by lia. symmetry. apply Nat.min_r.
    apply Nat.Div0.div_le_mono. lia.
Qed.

(** X8. A typed read function asked for [len] elements requests
    [len * size] bytes, as [sox_size_t] counts them (modulo 2^32): it
    takes that many bytes off the stream, or all that is left, and
    stores the whole elements among them, so the bytes of a trailing
    partial element are taken off the stream without being stored.
    When the byte count is in the range of [sox_size_t], the number of
    elements stored is the smaller of [len] and the number of whole
    elements the stream still holds. *)
Theorem typed_read_count `{sox_h} (ft : sox_format_t) (len size : nat)
  (rd : sox_format_t -> nat -> list Z * sox_format_t) :
  In (size, rd)
    [ (1%nat, sox_read_b_buf); (2%nat, sox_read_w_buf);
      (3%nat, sox_read_3_buf); (4%nat, sox_read_dw_buf);
      (4%nat, sox_read_f_buf); (8%nat, sox_read_df_buf) ] ->
  let bytes := sox_size_mul len size in
  List.length (fst (rd ft len))
  = Nat.min (bytes / size) (List.length (pending (io ft)) / size)
  /\ pending (io (snd (rd ft len))) = skipn bytes (pending (io ft))
  /\ written (io (snd (rd ft len))) = written (io ft)
  /\ (countable len size ->
      bytes = (len * size)%nat
      /\ List.length (fst (rd ft len))
         = Nat.min len (List.length (pending (io ft)) / size)).
Proof.
  intros Hin bytes.
  assert (Hs : (0 < size)%nat).
  { cbn [In] in Hin.
    destruct Hin as [E|[E|[E|[E|[E|[E|[]]]]]]]; injection E as <- _; lia. }
  assert (Hmain : List.length (fst (rd ft len))
                  = Nat.min (bytes / size)
                      (List.length (pending (io ft)) / size)
                  /\ pending (io (snd (rd ft len)))
                     = skipn bytes (pending (io ft))
                  /\ written (io (snd (rd ft len))) = written (io ft)).
  { subst bytes. cbn [In] in Hin.
    destruct Hin as [E|[E|[E|[E|[E|[E|[]]]]]]]; injection E as <- <-;
      unfold sox_read_b_buf, sox_read_w_buf, sox_read_3_buf, sox_read_dw_buf,
        sox_read_f_buf, sox_read_df_buf, READ_FUNC, READ_FUNC_UNPACK,
        sox_readbuf;
      cbn [fst snd io with_io pending written];
      rewrite length_map, chunks_length, length_firstn;
      (split; [apply whole_elements | split; reflexivity]). }
  destruct Hmain as (Hn & Hp & Hw).
  split; [exact Hn|]. split; [exact Hp|]. split; [exact Hw|].
  intros Hc. pose proof (sox_size_mul_small len size Hc) as Hb.
  fold bytes in Hb. split; [exact Hb|].
  rewrite Hn, Hb, Nat.div_mul by lia. reflexivity.
Qed.

(** Four 16-bit words are asked of a stream of five bytes: two words are
    stored and the stream is left empty. *)
Lemma typed_read_count_witness :
  let ft := reading (sample_format raw_handler (mk_signal 8000 1 16)
                       (mk_encoding 1 16 SOX_OPTION_NO SOX_OPTION_NO
                          SOX_OPTION_NO false) "r"%char) [1; 0; 2; 0; 3] in
  fst (sox_read_w_buf (H := sample_h) ft 4) = [1; 2]
  /\ List.length (fst (sox_read_w_buf (H := sample_h) ft 4)) = 2%nat
  /\ pending (io (snd (sox_read_w_buf (H := sample_h) ft 4))) = [].
Proof.
  cbv zeta. split; [reflexivity|].
  pose proof (typed_read_count (H := sample_h)
                (reading (sample_format raw_handler (mk_signal 8000 1 16)
                            (mk_encoding 1 16 SOX_OPTION_NO SOX_OPTION_NO
                          SOX_OPTION_NO false) "r"%char) [1; 0; 2; 0; 3])
                4 2 (sox_read_w_buf (H := sample_h))) as Hthm.
  destruct Hthm as (Hn & Hp & _).
  - right. left. reflexivity.
  - split; [exact Hn | exact Hp].
Defined.

(** X9. [sox_readchars] succeeds exactly when the stream still holds
    [len] bytes, a request for no byte included; it then delivers the
    next [len] bytes and leaves the rest on the stream and the error
    state alone. Otherwise it returns the end-of-file status, the stream
    is drained, and the premature-EOF error is recorded unless the
    stream was in error. *)
Theorem sox_readchars_all_or_eof `{sox_h} (errno : Z) (ft : sox_format_t)
  (len : nat) :
  SOX_EOF <> SOX_SUCCESS ->
  let avail := pending (io ft) in
  let rc := fst (fst (sox_readchars errno ft len)) in
  let chars := snd (fst (sox_readchars errno ft len)) in
  let ft' := snd (sox_readchars errno ft len) in
  (rc = SOX_SUCCESS <-> (len <= List.length avail)%nat)
  /\ ((len <= List.length avail)%nat ->
      chars = firstn len avail /\ pending (io ft') = skipn len avail
      /\ sox_errno ft' = sox_errno ft /\ sox_errstr ft' = sox_errstr ft)
  /\ ((List.length avail < len)%nat ->
      rc = SOX_EOF /\ chars = avail /\ pending (io ft') = []
      /\ (sox_error ft = false ->
          sox_errno ft' = errno /\ sox_errstr ft' = premature_eof)
      /\ (sox_error ft = true ->
          sox_errno ft' = sox_errno ft /\ sox_errstr ft' = sox_errstr ft)).
Proof.
  intros Hne avail rc chars ft'. subst rc chars ft' avail.
  unfold sox_readchars, sox_readbuf, sox_error.
  cbn [fst snd io with_io stream_error]. rewrite length_firstn.
  destruct (Nat.le_gt_cases len (List.length (pending (io ft)))) as [Hle|Hgt].
  - rewrite Nat.min_l by exact Hle. rewrite Nat.eqb_refl. cbn [fst snd].
    split; [tauto|]. split; [intros _; repeat split|]. lia.
  - rewrite Nat.min_r by lia.
    destruct (Nat.eqb_spec (List.length (pending (io ft))) len) as [Heq|_];
      [lia|].
    cbn [fst snd]. split; [split; [intros Hc; congruence | lia]|].
    split; [lia|]. intros _. split; [reflexivity|].
    split; [apply firstn_all2; lia|].
    destruct (stream_error (io ft)) eqn:Herr; cbn [negb];
      (split; [cbn; apply skipn_all2; lia|]);
      split; intros Hs; try discriminate Hs; split; reflexivity.
Qed.

(** Four bytes are asked of a stream of three. *)
Lemma sox_readchars_all_or_eof_witness :
  let ft := reading (sample_format raw_handler (mk_signal 8000 1 16)
                       unset_encoding "r"%char) [82; 73; 70] in
  fst (fst (sox_readchars (H := sample_h) 5 ft 4)) = -1
  /\ snd (fst (sox_readchars (H := sample_h) 5 ft 4)) = [82; 73; 70]
  /\ pending (io (snd (sox_readchars (H := sample_h) 5 ft 4))) = [].
Proof.
  cbv zeta.
  pose proof (sox_readchars_all_or_eof (H := sample_h) 5
                (reading (sample_format raw_handler (mk_signal 8000 1 16)
                            unset_encoding "r"%char) [82; 73; 70]) 4)
    as Hthm.
  destruct Hthm as (_ & _ & Hshort); [discriminate|].
  destruct Hshort as (Hrc & Hch & Hp & _); [cbn; lia|].
  split; [exact Hrc|]. split; [exact Hch | exact Hp].
Defined.

Lemma unpack_packed_low (v : Z) :
  Z.lor (Z.lor (Z.land v 255) (Z.shiftl (Z.land (Z.shiftr v 8) 255) 8))
    (Z.shiftl (Z.land (Z.shiftr v 16) 255) 16) = v mod 2 ^ 24.
Proof.
  rewrite <- Z.land_ones by lia. change 255 with (Z.ones 8). Z.bitblast.
Qed.

(** The bytes of a buffer of one element. *)
Lemma one_element_bytes {A} (size : nat) (f : A -> list Z) (x : A) :
  (forall v, List.length (f v) = size) -> countable 1 size ->
  firstn (sox_size_mul 1 size) (List.concat (map f [x])) = f x.
Proof.
  intros Hf Hc. rewrite (sox_size_mul_small _ _ Hc), Nat.mul_1_l.
  cbn [map List.concat]. rewrite app_nil_r, <- (Hf x). apply firstn_all.
Qed.

Lemma read1_of_one `{sox_h} (errno : Z)
  (rd : sox_format_t -> nat -> list Z * sox_format_t) (ft : sox_format_t)
  (v : Z) :
  fst (rd ft 1%nat) = [v] ->
  fst (READ1_FUNC rd errno ft) = (SOX_SUCCESS, Some v).
Proof.
  unfold READ1_FUNC. destruct (rd ft 1%nat) as [vals ft'].
  cbn [fst]. intros ->. reflexivity.
Qed.

(** X10. A value written with a single-element write function for
    unsigned or signed arguments and read back with the single-element
    read function of the same width, under the same order settings, comes
    back reduced to the width: modulo 2^8, 2^16, 2^24 or 2^32; the write
    and the read both succeed. A negative argument thus comes back as its
    two's complement. *)
Theorem write1_read1_round_trip `{sox_h} (errno d : Z) (ft : sox_format_t)
  (size : nat)
  (write1 : sox_format_t -> Z -> Z * sox_format_t)
  (read1 : Z -> sox_format_t -> Z * option Z * sox_format_t) :
  In (size, write1, read1)
    [ (1%nat, sox_writeb, sox_readb); (2%nat, sox_writew, sox_readw);
      (3%nat, sox_write3, sox_read3); (4%nat, sox_writedw, sox_readdw);
      (1%nat, sox_writesb, sox_readb); (2%nat, sox_writesw, sox_readw) ] ->
  let bytes :=
    skipn (List.length (written (io ft)))
      (written (io (snd (write1 ft d)))) in
  fst (write1 ft d) = SOX_SUCCESS
  /\ List.length bytes = size
  /\ fst (read1 errno (reading ft bytes))
     = (SOX_SUCCESS, Some (d mod 256 ^ Z.of_nat size)).
Proof.
  intros Hin bytes.
  assert (Haligned : forall n tw,
    (0 < n)%nat -> countable 1 n ->
    (forall b v, tw (reading ft b) v = tw ft v) ->
    (forall v, fits n v -> fits n (tw ft v) /\ tw ft (tw ft v) = v) ->
    let bs := skipn (List.length (written (io ft)))
                (written (io (snd (WRITE1_CAST n (WRITE_FUNC n tw) ft d)))) in
    fst (WRITE1_CAST n (WRITE_FUNC n tw) ft d) = SOX_SUCCESS
    /\ List.length bs = n
    /\ fst (READ1_FUNC (READ_FUNC n tw) errno (reading ft bs))
       = (SOX_SUCCESS, Some (d mod 256 ^ Z.of_nat n))).
  { intros n tw Hn Hc Hsame Htw bs.
    assert (Hfit : Forall (fits n) [d mod 256 ^ Z.of_nat n]).
    { constructor; [|constructor]. unfold fits. apply Z.mod_pos_bound. lia. }
    pose proof (aligned_round_trip n tw ft [d mod 256 ^ Z.of_nat n] Hn Hc
                  Hsame Htw Hfit) as Hrt.
    unfold round_trip in Hrt. subst bs. unfold WRITE1_CAST.
    destruct (WRITE_FUNC n tw ft [d mod 256 ^ Z.of_nat n]) as [cnt ft'] eqn:Ew.
    cbn [fst snd List.length] in *. injection Hrt as Hcnt Hread.
    rewrite Hcnt. cbn [Nat.eqb]. split; [reflexivity|].
    split; [|apply read1_of_one, Hread].
    unfold WRITE_FUNC, sox_writebuf in Ew. cbn [List.length] in Ew.
    rewrite (one_element_bytes n (fun v => store n (tw ft v))) in Ew
      by (try exact Hc; intros v; apply store_length).
    injection Ew as _ <-.
    cbn [io with_io written]. rewrite skipn_length_app.
    apply store_length. }
  subst bytes. cbn [In] in Hin.
  destruct Hin as [E|[E|[E|[E|[E|[E|[]]]]]]]; injection E as <- <- <-.
  - apply (Haligned 1%nat TWIDDLE_BYTE);
      [lia | reflexivity | reflexivity | apply twiddle_byte_inverse].
  - apply (Haligned 2%nat (TWIDDLE_WORD sox_swapw));
      [lia | reflexivity | reflexivity | apply (twiddle_word_inverse 2)].
  - assert (Hlow : (d mod 256 ^ Z.of_nat 4) mod 2 ^ 24
                   = d mod 256 ^ Z.of_nat 3).
    { change (256 ^ Z.of_nat 3) with (2 ^ 24).
      apply Z.mod_mod_divide. exists (2 ^ 8). reflexivity. }
    unfold sox_write3, sox_read3, WRITE1_CAST, sox_write_3_buf,
      sox_read_3_buf, WRITE_FUNC_PACK, READ1_FUNC, READ_FUNC_UNPACK,
      sox_writebuf, sox_readbuf, sox_unpack3, sox_pack3, reading.
    rewrite <- Hlow. generalize (d mod 256 ^ Z.of_nat 4). intros x.
    cbn [List.length]. change (sox_size_mul 1 3) with 3%nat.
    cbn [fst snd io with_io written pending map List.concat ft_encoding].
    destruct (int_of_option (reverse_bytes (ft_encoding ft))
              =? int_of_bool SOX_IS_BIGENDIAN);
      rewrite skipn_length_app; cbn -[Z.land Z.shiftr Z.shiftl Z.lor Z.pow Z.modulo];
      (split; [reflexivity|]); (split; [reflexivity|]);
      rewrite unpack_packed_low; reflexivity.
  - apply (Haligned 4%nat (TWIDDLE_WORD sox_swapdw));
      [lia | reflexivity | reflexivity | apply (twiddle_word_inverse 4)].
  - apply (Haligned 1%nat TWIDDLE_BYTE);
      [lia | reflexivity | reflexivity | apply twiddle_byte_inverse].
  - apply (Haligned 2%nat (TWIDDLE_WORD sox_swapw));
      [lia | reflexivity | reflexivity | apply (twiddle_word_inverse 2)].
Qed.

(** The signed byte -1 is written as 255 and read back as 255. *)
Lemma write1_read1_round_trip_witness :
  let ft := sample_format raw_handler (mk_signal 8000 1 8)
              (mk_encoding 1 8 SOX_OPTION_NO SOX_OPTION_NO SOX_OPTION_NO
                 false) "w"%char in
  written (io (snd (sox_writesb (H := sample_h) ft (-1)))) = [255]
  /\ fst (sox_readb (H := sample_h) 0 (reading ft [255])) = (0, Some 255).
Proof.
  cbv zeta. split; [reflexivity|].
  refine (proj2 (proj2 (write1_read1_round_trip (H := sample_h) 0 (-1)
                          (sample_format raw_handler (mk_signal 8000 1 8)
                             (mk_encoding 1 8 SOX_OPTION_NO SOX_OPTION_NO
                                SOX_OPTION_NO false) "w"%char)
                          1%nat (sox_writesb (H := sample_h))
                          (sox_readb (H := sample_h)) _))).
  do 4 right. left. reflexivity.
Defined.

(** ** Content sniffing *)

Lemma table_rules_need_four_bytes :
  forallb (fun r => (4 <=? p1 r + l1 r)%nat) magic_table = true.
Proof. reflexivity. Qed.

Lemma magic_match_short (data : list Z) (len : nat) (r : magic_rule) :
  (len < p1 r + l1 r)%nat -> magic_match data len r = false.
Proof.
  intros Hlen. unfold magic_match.
  destruct (Nat.leb_spec (p1 r + l1 r) len); [lia | reflexivity].
Qed.

Lemma find_none {A} (f : A -> bool) (l : list A) :
  (forall x, In x l -> f x = false) -> find f l = None.
Proof.
  induction l as [|x l IH]; intros Hall; [reflexivity|].
  cbn. rewrite (Hall x (or_introl eq_refl)). apply IH.
  intros y Hy. apply Hall. right. exact Hy.
Qed.

(** X11. On a stream of fewer than four bytes no rule of the table can
    match: [detect_magic] returns [NULL], except that with the extension
    "snd" a stream of two or three bytes can still be named "sndr"; on a
    stream of fewer than two bytes, the empty stream included, it
    returns [NULL] whatever the extension. The bytes are taken off the
    stream all the same. *)
Theorem detect_magic_short_stream (junk : list Z) (ft : sox_format_t)
  (ext : option string) :
  (List.length (pending (io ft)) < 4)%nat ->
  (ext = None \/ (List.length (pending (io ft)) < 2)%nat ->
   fst (detect_magic junk ft ext) = None)
  /\ (forall t, fst (detect_magic junk ft ext) = Some t -> t = "sndr")
  /\ pending (io (snd (detect_magic junk ft ext))) = [].
Proof.
  intros Hlen.
  assert (Hl : (sniffed_len ft < 4)%nat).
  { unfold sniffed_len. rewrite length_firstn. lia. }
  assert (Hnone : find (magic_match (sniffed_data junk ft) (sniffed_len ft))
                    magic_table = None).
  { apply find_none. intros r Hr. apply magic_match_short.
    pose proof table_rules_need_four_bytes as Hfour.
    rewrite forallb_forall in Hfour. specialize (Hfour r Hr).
    apply Nat.leb_le in Hfour. lia. }
  unfold detect_magic, sox_readbuf. cbn [fst snd io with_io pending].
  fold (sniffed_data junk ft) (sniffed_len ft). rewrite Hnone.
  split; [|split].
  - intros [-> | Hshort]; [reflexivity|].
    destruct ext as [x|]; [|reflexivity].
    rewrite (magic_match_short _ _ sndr_rule), andb_false_r; [reflexivity|].
    change (p1 sndr_rule + l1 sndr_rule)%nat with 2%nat.
    unfold sniffed_len. rewrite length_firstn. lia.
  - intros t. destruct ext as [x|]; [|discriminate].
    destruct (strcaseeq x "snd" && _); [|discriminate].
    intros E. injection E as <-. reflexivity.
  - apply skipn_all2. lia.
Qed.

(** The empty stream with the extension "snd". *)
Lemma detect_magic_short_stream_witness :
  fst (detect_magic (repeat 0 256)
         (reading (sample_format raw_handler (mk_signal 0 0 0) unset_encoding
                     "r"%char) [])
         (Some "snd")) = None.
Proof.
  refine (proj1 (detect_magic_short_stream (repeat 0 256)
                   (reading (sample_format raw_handler (mk_signal 0 0 0)
                               unset_encoding "r"%char) [])
                   (Some "snd") _) _).
  - cbn. lia.
  - right. cbn. lia.
Defined.

(** X12. The extension never overrides the contents: when a rule of the
    table names the stream, [detect_magic] returns that name whatever
    the extension is, and an extension other than "snd" (in any case of
    letters) has no influence on the result at all. *)
Theorem detect_magic_extension (junk : list Z) (ft : sox_format_t)
  (ext : option string) :
  (forall t, fst (detect_magic junk ft None) = Some t ->
             fst (detect_magic junk ft ext) = Some t)
  /\ (forall x, ext = Some x -> strcaseeq x "snd" = false ->
                detect_magic junk ft ext = detect_magic junk ft None)
  /\ snd (detect_magic junk ft ext) = snd (detect_magic junk ft None).
Proof.
  unfold detect_magic, sox_readbuf. cbn [fst snd].
  destruct (find _ magic_table) as [r|].
  - split; [intros t Ht; exact Ht|]. split; [|reflexivity].
    intros x -> _. reflexivity.
  - split; [intros t Ht; discriminate Ht|]. split; [|reflexivity].
    intros x -> Hx. rewrite Hx. reflexivity.
Qed.

(** ** Session lifecycle *)

Lemma sox_checkformat_ok `{sox_h} (ft ft' : sox_format_t) (rc : Z) :
  SOX_EOF <> SOX_SUCCESS ->
  sox_checkformat ft = (rc, ft') -> (rc =? SOX_SUCCESS) = true ->
  rate (signal ft') <> 0 /\ precision (signal ft') <> 0
  /\ sox_errno ft' = SOX_SUCCESS /\ signal ft' = signal ft
  /\ handler ft' = handler ft /\ fp ft' = fp ft.
Proof.
  intros Hne. unfold sox_checkformat. cbn [signal with_error].
  destruct (Z.eqb_spec (rate (signal ft)) 0) as [|Hr].
  { intros E Hrc. injection E as <- _. apply Z.eqb_eq in Hrc. contradiction. }
  destruct (Z.eqb_spec (precision (signal ft)) 0) as [|Hp].
  { intros E Hrc. injection E as <- _. apply Z.eqb_eq in Hrc. contradiction. }
  intros E _. injection E as _ <-. cbn. repeat split; assumption.
Qed.

Ltac head_match :=
  match goal with
  | |- fst (match ?x with _ => _ end) = _ -> _ => destruct x eqn:?
  end.

Lemma open_read_resolve_session `{sox_h} (env : sox_env)
  (ft0 : sox_format_t) (w : world) (path : string)
  (sig : option sox_signalinfo_t) (enc : option sox_encodinginfo_t)
  (ftype : option string) (ft : sox_format_t) :
  SOX_EOF <> SOX_SUCCESS ->
  fst (open_read_resolve env ft0 w path sig enc ftype) = Some ft ->
  rate (signal ft) <> 0 /\ precision (signal ft) <> 0
  /\ sox_errno ft = SOX_SUCCESS
  /\ (has_flag (flags (handler ft)) SOX_FILE_PHONY = false ->
      channels (signal ft) <> 0).
Proof.
  intros Hne. unfold open_read_resolve. cbv zeta.
  repeat head_match; unfold open_read_error; cbn [fst];
    try discriminate; intros E; injection E as <-;
    match goal with
    | Hc : sox_checkformat _ = (_, _), Hok : (_ =? SOX_SUCCESS) = true |- _ =>
        destruct (sox_checkformat_ok _ _ _ Hne Hc Hok)
          as (Hr & Hp & He & Hs & Hh & _)
    end;
    (split; [exact Hr|]); (split; [exact Hp|]); (split; [exact He|]);
    rewrite Hs, Hh; cbn [with_signal signal channels handler];
    intros Hph; rewrite Hph; cbn [negb andb];
    match goal with
    | |- (if ?c =? 0 then 1 else ?c) <> 0 =>
        destruct (Z.eqb_spec c 0); [discriminate | assumption]
    end.
Qed.

(** X13. A session that [sox_open_read] returns has passed
    [sox_checkformat]: its rate and its precision are not zero and its
    error code is clear; unless the handler is a phony one, it has at
    least one channel.  This holds whatever the start-read hook did to
    the session. *)
Theorem sox_open_read_session `{sox_h} (env : sox_env) (w : world)
  (path : string) (sig : option sox_signalinfo_t)
  (enc : option sox_encodinginfo_t) (ftype : option string)
  (ft : sox_format_t) :
  SOX_EOF <> SOX_SUCCESS ->
  fst (sox_open_read env w path sig enc ftype) = Some ft ->
  rate (signal ft) <> 0 /\ precision (signal ft) <> 0
  /\ sox_errno ft = SOX_SUCCESS
  /\ (has_flag (flags (handler ft)) SOX_FILE_PHONY = false ->
      channels (signal ft) <> 0).
Proof.
  intros Hne. unfold sox_open_read. cbv zeta.
  repeat head_match; unfold open_read_error; cbn [fst]; try discriminate;
    apply open_read_resolve_session; exact Hne.
Qed.

(** Standard input opened as ["raw"] with no channel count asked for:
    the session gets one channel. *)
Lemma sox_open_read_session_witness :
  match
    fst (sox_open_read (H := sample_h) sample_env initial_world "-"
           (Some (mk_signal 44100 0 16)) None (Some "raw"))
  with
  | Some ft =>
      (rate (signal ft) =? 0) = false /\ channels (signal ft) = 1
  | None => False
  end.
Proof.
  destruct (fst (sox_open_read (H := sample_h) sample_env initial_world "-"
                   (Some (mk_signal 44100 0 16)) None (Some "raw")))
    as [ft|] eqn:E.
  - split.
    + apply Z.eqb_neq.
      apply (sox_open_read_session (H := sample_h) sample_env initial_world
               "-" (Some (mk_signal 44100 0 16)) None (Some "raw") ft);
        [discriminate | exact E].
    + vm_compute in E. injection E as <-. reflexivity.
  - vm_compute in E. discriminate E.
Defined.

Lemma open_write_start_session `{sox_h} (env : sox_env) (ft0 : sox_format_t)
  (w : world) (sig : sox_signalinfo_t) (len : Z) (ft : sox_format_t) :
  SOX_EOF <> SOX_SUCCESS ->
  fst (open_write_start env ft0 w sig len) = Some ft ->
  rate (signal ft) <> 0 /\ precision (signal ft) <> 0
  /\ sox_errno ft = SOX_SUCCESS.
Proof.
  intros Hne. unfold open_write_start. cbv zeta.
  repeat head_match; unfold open_write_error; cbn [fst];
    try discriminate; intros E; injection E as <-;
    match goal with
    | Hc : sox_checkformat _ = (_, _), Hok : (_ =? SOX_SUCCESS) = true |- _ =>
        destruct (sox_checkformat_ok _ _ _ Hne Hc Hok)
          as (Hr & Hp & He & _)
    end; repeat split; assumption.
Qed.

Lemma sox_gettype_ok `{sox_h} (env : sox_env) (ft ft' : sox_format_t)
  (ext : bool) (rc : Z) :
  SOX_EFMT <> SOX_SUCCESS ->
  sox_gettype env ft ext = (rc, ft') -> (rc =? SOX_SUCCESS) = true ->
  exists t h,
    filetype ft = Some t /\ sox_find_format env t ext = Some h
    /\ ft' = with_handler ft h
    /\ (mode ft = "w"%char -> writable h).
Proof.
  intros Hne. unfold sox_gettype.
  assert (Hbad : (SOX_EFMT =? SOX_SUCCESS) = false)
    by (apply Z.eqb_neq; exact Hne).
  destruct (filetype ft) as [t|].
  2:{ intros E Hrc. injection E as <- _. congruence. }
  destruct (sox_find_format env t ext) as [h|] eqn:Hf.
  2:{ intros E Hrc. injection E as <- _. congruence. }
  cbn [mode with_handler].
  destruct (Ascii.eqb_spec (mode ft) "w"%char) as [Hm|Hm];
    destruct (startwrite h) eqn:Hs, (write h) eqn:Hw;
    intros E Hrc; injection E as <- <-; try congruence;
    exists t, h; (split; [reflexivity|]); (split; [exact Hf|]);
    (split; [reflexivity|]); intros Hm'; unfold writable;
    rewrite ?Hs, ?Hw; try contradiction;
    try (left; discriminate); right; discriminate.
Qed.

(** X14. [sox_open_write] returns a session only when it was given a
    path and a signal, the type (the one named or, if none is, the
    extension of the path) has a registered handler, and that handler
    can write; the session has passed [sox_checkformat], so its rate
    and precision are not zero and its error code is clear. *)
Theorem sox_open_write_session `{sox_h} (env : sox_env) (w : world)
  (permitted : option (string -> bool)) (path : option string)
  (sig : option sox_signalinfo_t) (enc : option sox_encodinginfo_t)
  (ftype : option string) (len : Z) (ft : sox_format_t) :
  SOX_EOF <> SOX_SUCCESS -> SOX_EFMT <> SOX_SUCCESS ->
  fst (sox_open_write env w permitted path sig enc ftype len) = Some ft ->
  (rate (signal ft) <> 0 /\ precision (signal ft) <> 0
   /\ sox_errno ft = SOX_SUCCESS)
  /\ exists p s h,
       path = Some p /\ sig = Some s
       /\ write_handler env p ftype = Some h /\ writable h.
Proof.
  intros Hne Hfmt. unfold sox_open_write.
  destruct path as [p|]; [|discriminate].
  destruct sig as [s|]; [|discriminate].
  cbv zeta.
  destruct (sox_gettype _ _ _) as [rc ft2] eqn:Hg.
  destruct (rc =? SOX_SUCCESS) eqn:Hrc; cbn [negb];
    [|unfold open_write_error; discriminate].
  destruct (sox_gettype_ok _ _ _ _ _ Hfmt Hg Hrc) as (t & h & Ht & Hf & _ & Hw).
  cbn [filetype mode] in Ht, Hw.
  assert (Hh : write_handler env p ftype = Some h).
  { unfold write_handler. destruct ftype as [t'|].
    - injection Ht as ->. exact Hf.
    - rewrite Ht. exact Hf. }
  intros Hopen. split.
  - revert Hopen.
    repeat head_match; unfold open_write_error; cbn [fst]; try discriminate;
      apply open_write_start_session; exact Hne.
  - exists p, s, h. repeat split; try assumption. apply Hw. reflexivity.
Qed.

(** Standard output opened as ["raw"]. *)
Lemma sox_open_write_session_witness :
  match
    fst (sox_open_write (H := sample_h) sample_env initial_world None
           (Some "-") (Some (mk_signal 44100 2 16)) None (Some "raw") 0)
  with
  | Some ft =>
      (rate (signal ft) =? 0) = false /\ precision (signal ft) = 16
  | None => False
  end.
Proof.
  destruct (fst (sox_open_write (H := sample_h) sample_env initial_world None
                   (Some "-") (Some (mk_signal 44100 2 16)) None
                   (Some "raw") 0)) as [ft|] eqn:E.
  - split.
    + apply Z.eqb_neq.
      apply (sox_open_write_session (H := sample_h) sample_env initial_world
               None (Some "-") (Some (mk_signal 44100 2 16)) None
               (Some "raw") 0 ft); [discriminate | discriminate | exact E].
    + vm_compute in E. injection E as <-. reflexivity.
  - vm_compute in E. discriminate E.
Defined.

Lemma seeki_stream `{sox_h} (env : sox_env) (ft ft' : sox_format_t)
  (o wh : Z) (w w' : world) (rc : Z) :
  keeps_stream env -> seeki env ft o wh w = (rc, ft', w') ->
  fp ft' = fp ft /\ handler ft' = handler ft
  /\ trace w' = trace w ++ [EvSeek o wh].
Proof.
  intros [_ Hk]. unfold seeki. specialize (Hk ft o wh).
  destruct (sox_seeki env ft o wh) as [rc0 ft0]. cbn [snd] in Hk.
  intros E. injection E as _ <- <-. cbn [log trace].
  destruct Hk as [Hf Hh]. repeat split; assumption.
Qed.

Lemma invoke_stream `{sox_h} (env : sox_env) (f : nat)
  (ft ft' : sox_format_t) (w w' : world) (rc : Z) :
  keeps_stream env -> invoke env f ft w = (rc, ft', w') ->
  fp ft' = fp ft /\ handler ft' = handler ft
  /\ trace w' = trace w ++ [EvHook f].
Proof.
  intros [Hk _]. unfold invoke. specialize (Hk f ft).
  destruct (call_hook env f ft) as [rc0 ft0]. cbn [snd] in Hk.
  intros E. injection E as _ <- <-. cbn [log trace].
  destruct Hk as [Hf Hh]. repeat split; assumption.
Qed.

Lemma detect_magic_stream (junk : list Z) (ft ft' : sox_format_t)
  (ext t : option string) :
  detect_magic junk ft ext = (t, ft') ->
  fp ft' = fp ft /\ handler ft' = handler ft.
Proof.
  unfold detect_magic, sox_readbuf. intros E. injection E as _ <-.
  split; reflexivity.
Qed.

Lemma sox_checkformat_stream `{sox_h} (ft ft' : sox_format_t) (rc : Z) :
  sox_checkformat ft = (rc, ft') ->
  fp ft' = fp ft /\ handler ft' = handler ft.
Proof.
  unfold sox_checkformat.
  repeat match goal with
         | |- context [if ?c then _ else _] => destruct c
         end; intros E; injection E as _ <-; split; reflexivity.
Qed.

Lemma sniff_stream `{sox_h} (env : sox_env) (ft0 : sox_format_t) (w : world)
  (path : string) (ftype o : option string) (s : sox_format_t) (w0 : world) :
  keeps_stream env ->
  match ftype with
  | Some _ => (ftype, ft0, w)
  | None =>
      if seekable ft0 then
        let '(t, ft1) :=
          detect_magic (stack_junk env) ft0 (find_file_extension env path) in
        let '(_, ft2, w2) := seeki env ft1 0 0 w in
        (t, ft2, w2)
      else (None, ft0, w)
  end = (o, s, w0) ->
  fp s = fp ft0 /\ handler s = handler ft0
  /\ exists e, trace w0 = trace w ++ e /\ fcloses e = [].
Proof.
  intros Hk. destruct ftype as [t|].
  - intros E. injection E as _ <- <-.
    repeat split. exists []. rewrite app_nil_r. split; reflexivity.
  - destruct (seekable ft0).
    + destruct (detect_magic _ _ _) as [t ft1] eqn:Hd.
      destruct (seeki env ft1 0 0 w) as [[rc ft2] w2] eqn:Hs.
      intros E. injection E as _ <- <-.
      apply detect_magic_stream in Hd. destruct Hd as [Hd1 Hd2].
      apply (seeki_stream _ _ _ _ _ _ _ _ Hk) in Hs.
      destruct Hs as (Hs1 & Hs2 & Hs3).
      split; [congruence|]. split; [congruence|].
      exists [EvSeek 0 0]. split; [exact Hs3 | reflexivity].
    + intros E. injection E as _ <- <-.
      repeat split. exists []. rewrite app_nil_r. split; reflexivity.
Qed.

Ltac balance_match :=
  match goal with
  | |- read_balance _ _ _ (match ?x with _ => _ end) => destruct x eqn:?
  end.

Lemma open_read_resolve_balance `{sox_h} (env : sox_env)
  (ft0 : sox_format_t) (w : world) (path : string)
  (sig : option sox_signalinfo_t) (enc : option sox_encodinginfo_t)
  (ftype : option string) :
  keeps_stream env ->
  read_balance ft0 w ftype (open_read_resolve env ft0 w path sig enc ftype).
Proof.
  intros Hk. unfold open_read_resolve. cbv zeta.
  repeat balance_match.
  all: repeat match goal with
         | E : invoke _ _ _ _ = _ |- _ =>
             apply (invoke_stream _ _ _ _ _ _ _ Hk) in E;
             destruct E as (? & ? & ?)
         | E : sox_checkformat _ = _ |- _ =>
             apply sox_checkformat_stream in E; destruct E as (? & ?)
         | E : _ = (_, _, _) |- _ =>
             apply (sniff_stream _ _ _ _ _ _ _ _ Hk) in E;
             destruct E as (? & ? & e & ? & He)
         end.
  all: unfold read_balance, open_read_error; cbn [fst snd].
  all: try (assert (Hh : ftype <> None -> s1 = handler ft0)
              by (intros Hft; destruct ftype; [|contradiction];
                  match goal with
                  | E : Some _ = Some _ |- _ => injection E as _ <-
                  end; assumption)).
  all: try match goal with
           | |- context [match fp ?x with _ => _ end] =>
               replace (fp x) with (fp ft0)
                 by (cbn [fp handler with_signal with_handler with_error
                          with_encoding fst set_endianness_if_not_already_set]
                       in *; congruence);
               destruct (fp ft0) as [[| |]|]
           end.
  all: cbn [log trace]; repeat match goal with
                               | E : trace _ = _ |- _ => rewrite E; clear E
                               end;
       rewrite <- ?app_assoc; eexists; (split; [reflexivity|]);
       unfold fcloses in *; rewrite ?filter_app, ?He; cbn [filter is_fclose app].
  all: try reflexivity.
  all: split; [reflexivity|];
       cbn [fp handler with_signal with_handler with_error with_encoding fst
            set_endianness_if_not_already_set] in *;
       split; [congruence | intros Hft; specialize (Hh Hft); congruence].
Qed.

Lemma seeki_fp `{sox_h} (env : sox_env) (ft ft' : sox_format_t)
  (o wh : Z) (w w' : world) (rc : Z) :
  seek_keeps_fp env -> seeki env ft o wh w = (rc, ft', w') ->
  fp ft' = fp ft /\ trace w' = trace w ++ [EvSeek o wh].
Proof.
  intros Hk. unfold seeki. specialize (Hk ft o wh).
  destruct (sox_seeki env ft o wh) as [rc0 ft0]. cbn [snd] in Hk.
  intros E. injection E as _ <- <-. cbn [log trace].
  split; [exact Hk | reflexivity].
Qed.

Lemma invoke_fp `{sox_h} (env : sox_env) (f : nat)
  (ft ft' : sox_format_t) (w w' : world) (rc : Z) :
  hooks_keep_fp env -> invoke env f ft w = (rc, ft', w') ->
  fp ft' = fp ft /\ trace w' = trace w ++ [EvHook f].
Proof.
  intros Hk. unfold invoke. specialize (Hk f ft).
  destruct (call_hook env f ft) as [rc0 ft0]. cbn [snd] in Hk.
  intros E. injection E as _ <- <-. cbn [log trace].
  split; [exact Hk | reflexivity].
Qed.

Lemma sniff_fp `{sox_h} (env : sox_env) (ft0 : sox_format_t) (w : world)
  (path : string) (ftype o : option string) (s : sox_format_t) (w0 : world) :
  seek_keeps_fp env ->
  match ftype with
  | Some _ => (ftype, ft0, w)
  | None =>
      if seekable ft0 then
        let '(t, ft1) :=
          detect_magic (stack_junk env) ft0 (find_file_extension env path) in
        let '(_, ft2, w2) := seeki env ft1 0 0 w in
        (t, ft2, w2)
      else (None, ft0, w)
  end = (o, s, w0) ->
  fp s = fp ft0
  /\ exists e, trace w0 = trace w ++ e /\ fcloses e = [].
Proof.
  intros Hk. destruct ftype as [t|].
  - intros E. injection E as _ <- <-.
    split; [reflexivity|]. exists []. rewrite app_nil_r. split; reflexivity.
  - destruct (seekable ft0).
    + destruct (detect_magic _ _ _) as [t ft1] eqn:Hd.
      destruct (seeki env ft1 0 0 w) as [[rc ft2] w2] eqn:Hs.
      intros E. injection E as _ <- <-.
      apply detect_magic_stream in Hd. destruct Hd as [Hd1 _].
      apply (seeki_fp _ _ _ _ _ _ _ _ Hk) in Hs.
      destruct Hs as (Hs1 & Hs3).
      split; [congruence|].
      exists [EvSeek 0 0]. split; [exact Hs3 | reflexivity].
    + intros E. injection E as _ <- <-.
      split; [reflexivity|]. exists []. rewrite app_nil_r. split; reflexivity.
Qed.

Ltac stream_balance_match :=
  match goal with
  | |- read_stream_balance _ _ (match ?x with _ => _ end) => destruct x eqn:?
  end.

Lemma open_read_resolve_fp `{sox_h} (env : sox_env)
  (ft0 : sox_format_t) (w : world) (path : string)
  (sig : option sox_signalinfo_t) (enc : option sox_encodinginfo_t)
  (ftype : option string) :
  hooks_keep_fp env -> seek_keeps_fp env ->
  read_stream_balance ft0 w
    (open_read_resolve env ft0 w path sig enc ftype).
Proof.
  intros Hk Hseek. unfold open_read_resolve. cbv zeta.
  repeat stream_balance_match.
  all: repeat match goal with
         | E : invoke _ _ _ _ = _ |- _ =>
             apply (invoke_fp _ _ _ _ _ _ _ Hk) in E;
             destruct E as (? & ?)
         | E : sox_checkformat _ = _ |- _ =>
             apply sox_checkformat_stream in E; destruct E as (? & _)
         | E : _ = (_, _, _) |- _ =>
             apply (sniff_fp _ _ _ _ _ _ _ _ Hseek) in E;
             destruct E as (? & e & ? & He)
         end.
  all: unfold read_stream_balance, open_read_error; cbn [fst snd].
  all: try match goal with
           | |- context [trace (match fp ?x with _ => _ end)] =>
               replace (fp x) with (fp ft0)
                 by (cbn [fp handler with_signal with_handler with_error
                          with_encoding fst set_endianness_if_not_already_set]
                       in *; congruence);
               destruct (fp ft0) as [[| |]|]
           end.
  all: cbn [log trace]; repeat match goal with
                               | E : trace _ = _ |- _ => rewrite E; clear E
                               end;
       rewrite <- ?app_assoc; eexists; (split; [reflexivity|]);
       unfold fcloses in *; rewrite ?filter_app, ?He; cbn [filter is_fclose app].
  all: try reflexivity.
  all: split; [reflexivity|];
       cbn [fp handler with_signal with_handler with_error with_encoding fst
            set_endianness_if_not_already_set] in *;
       congruence.
Qed.

(** X15. [sox_open_read] and the stream it opens, when the hooks and
    [sox_seeki] leave the stream pointer alone (they may change anything
    else of the session, its handler included): a successful call
    closes nothing and the session holds the stream that was opened; a
    failed call closes the file it had opened exactly once, and in no
    case is the standard input closed or a stream closed that was not
    opened. *)
Theorem sox_open_read_stream_balance `{sox_h} (env : sox_env) (w : world)
  (path : string) (sig : option sox_signalinfo_t)
  (enc : option sox_encodinginfo_t) (ftype : option string) :
  hooks_keep_fp env -> seek_keeps_fp env ->
  let r := sox_open_read env w path sig enc ftype in
  let closed := fcloses (added w (snd r)) in
  let opened :=
    match read_handler env ftype with
    | Some h =>
        if has_flag (flags h) SOX_FILE_NOSTDIO then None
        else if String.eqb path "-" then
          match stdin_in_use_by (sox_globals w) with
          | None => Some stdin
          | Some _ => None
          end
        else
          match xfopen env path with
          | Some _ => Some (file_of path)
          | None => None
          end
    | None => None
    end in
  match fst r with
  | Some ft => closed = [] /\ fp ft = opened
  | None =>
      closed = match opened with
               | Some (file_of p) => [EvFclose (Some (file_of p))]
               | _ => []
               end
  end.
Proof.
  intros Hk Hseek. cbv zeta.
  assert (Hadd : forall evs w', trace w' = trace w ++ evs ->
                                added w w' = evs).
  { intros evs w' E. unfold added. rewrite E.
    rewrite skipn_app, Nat.sub_diag, skipn_all. reflexivity. }
  assert (Hres : forall ft0 w0 f,
             trace w0 = trace w -> fp ft0 = f ->
             let r := open_read_resolve env ft0 w0 path sig enc ftype in
             match fst r with
             | Some ft => fcloses (added w (snd r)) = [] /\ fp ft = f
             | None =>
                 fcloses (added w (snd r)) =
                 match f with
                 | Some stdin => []
                 | Some f' => [EvFclose (Some f')]
                 | None => []
                 end
             end).
  { intros ft0 w0 f Hw Hf. cbv zeta.
    destruct (open_read_resolve_fp env ft0 w0 path sig enc ftype Hk Hseek)
      as (evs & Ht & Hb).
    rewrite Hw in Ht. rewrite (Hadd _ _ Ht).
    destruct (fst (open_read_resolve env ft0 w0 path sig enc ftype)).
    - destruct Hb as (Hc & Hfp). split; congruence.
    - rewrite Hb, Hf. reflexivity. }
  unfold sox_open_read, read_handler. cbv zeta.
  destruct ftype as [t|].
  - destruct (sox_find_format env t false) as [h|].
    + cbn [handler with_handler].
      destruct (has_flag (flags h) SOX_FILE_NOSTDIO); cbn [negb].
      * apply (Hres _ _ None); reflexivity.
      * destruct (String.eqb path "-").
        -- destruct (stdin_in_use_by (sox_globals w)).
           ++ cbn. rewrite (Hadd [] w) by (rewrite app_nil_r; reflexivity).
              reflexivity.
           ++ apply (Hres _ _ (Some stdin)); reflexivity.
        -- destruct (xfopen env path).
           ++ apply (Hres _ _ (Some (file_of path))); reflexivity.
           ++ cbn. rewrite (Hadd [] w) by (rewrite app_nil_r; reflexivity).
              reflexivity.
    + cbn. rewrite (Hadd [] w) by (rewrite app_nil_r; reflexivity).
      reflexivity.
  - cbn [handler zeroed_format null_handler flags].
    destruct (has_flag 0 SOX_FILE_NOSTDIO); cbn [negb].
    + apply (Hres _ _ None); reflexivity.
    + destruct (String.eqb path "-").
      * destruct (stdin_in_use_by (sox_globals w)).
        -- cbn. rewrite (Hadd [] w) by (rewrite app_nil_r; reflexivity).
           reflexivity.
        -- apply (Hres _ _ (Some stdin)); reflexivity.
      * destruct (xfopen env path).
        -- apply (Hres _ _ (Some (file_of path))); reflexivity.
        -- cbn. rewrite (Hadd [] w) by (rewrite app_nil_r; reflexivity).
           reflexivity.
Qed.

(** A file opened as ["raw"] with no rate given: the open fails and the
    file is closed again. *)
Lemma sox_open_read_stream_balance_witness :
  let env := with_file sample_env "in.raw" (mk_stream [1; 2] [] false) in
  let r := sox_open_read (H := sample_h) env initial_world "in.raw" None None
             (Some "raw") in
  hooks_keep_fp env /\ seek_keeps_fp env
  /\ fst r = None
  /\ fcloses (added initial_world (snd r))
     = [EvFclose (Some (file_of "in.raw"))].
Proof.
  cbv zeta.
  assert (Hk : hooks_keep_fp
                 (with_file sample_env "in.raw" (mk_stream [1; 2] [] false)))
    by (intros f ft; reflexivity).
  assert (Hs : seek_keeps_fp
                 (with_file sample_env "in.raw" (mk_stream [1; 2] [] false)))
    by (intros ft o wh; reflexivity).
  split; [exact Hk|]. split; [exact Hs|].
  pose proof (sox_open_read_stream_balance (H := sample_h)
                (with_file sample_env "in.raw" (mk_stream [1; 2] [] false))
                initial_world "in.raw" None None (Some "raw") Hk Hs) as P.
  cbv zeta in P.
  destruct (sox_open_read _ _ _ _ _ _) as [o w'] eqn:E.
  vm_compute in E. injection E as <- <-.
  vm_compute in P. split; [reflexivity|]. vm_compute. exact P.
Defined.

Lemma set_output_format_stream `{sox_h} (ft : sox_format_t) :
  fp (set_output_format ft) = fp ft
  /\ handler (set_output_format ft) = handler ft.
Proof.
  unfold set_output_format. cbv zeta.
  destruct (write_formats (handler ft)); [|split; reflexivity].
  destruct (negotiate_encoding _ _ _ _). split; reflexivity.
Qed.

Ltac write_balance_match :=
  match goal with
  | |- write_balance _ _ (match ?x with _ => _ end) => destruct x eqn:?
  end.

Lemma open_write_start_balance `{sox_h} (env : sox_env) (ft0 : sox_format_t)
  (w : world) (sig : sox_signalinfo_t) (len : Z) :
  hooks_keep_fp env ->
  write_balance ft0 w (open_write_start env ft0 w sig len).
Proof.
  intros Hk. unfold open_write_start. cbv zeta.
  match goal with
  | |- context [set_output_format ?x] =>
      destruct (set_output_format_stream x) as [Hsf Hsh];
      generalize dependent (set_output_format x)
  end.
  intros ft3 Hsf Hsh.
  cbn [fp fst set_endianness_if_not_already_set with_encoding] in Hsf.
  clear Hsh.
  match goal with
  | |- context [match startwrite ?h with _ => _ end] =>
      destruct (startwrite h)
  end; cbv beta iota.
  all: repeat write_balance_match.
  all: repeat match goal with
         | E : invoke _ _ _ _ = _ |- _ =>
             apply (invoke_fp _ _ _ _ _ _ _ Hk) in E;
             destruct E as (? & ?)
         | E : sox_checkformat _ = _ |- _ =>
             apply sox_checkformat_stream in E; destruct E as (? & _)
         end.
  all: unfold write_balance, open_write_error; cbn [fst snd].
  all: try match goal with
           | |- context [trace (match fp ?x with _ => _ end)] =>
               replace (fp x) with (fp ft0)
                 by (cbn [fp] in *; congruence);
               destruct (fp ft0) as [[| |]|]
           end.
  all: cbn [log trace]; repeat match goal with
                               | E : trace _ = _ |- _ => rewrite E; clear E
                               end;
       rewrite <- ?app_assoc; eexists;
       (split; [first [reflexivity | symmetry; apply app_nil_r]|]);
       unfold fcloses in *; rewrite ?filter_app; cbn [filter is_fclose app].
  all: try reflexivity.
  all: split; [reflexivity|]; cbn [fp] in *; congruence.
Qed.

Lemma sox_gettype_writable `{sox_h} (env : sox_env) (ft : sox_format_t)
  (t : string) (ext : bool) (h : sox_format_handler_t) :
  filetype ft = Some t -> sox_find_format env t ext = Some h ->
  writable h ->
  sox_gettype env ft ext = (SOX_SUCCESS, with_handler ft h).
Proof.
  intros Ht Hf Hw. unfold sox_gettype. rewrite Ht, Hf.
  destruct Hw as [Hw|Hw].
  - destruct (startwrite h); [|contradiction].
    destruct (Ascii.eqb _ _); reflexivity.
  - destruct (write h); [|contradiction].
    destruct (Ascii.eqb _ _), (startwrite h); reflexivity.
Qed.

(** X16. [sox_open_write] and the stream it opens, when the hooks leave
    the stream pointer alone (they may change anything else of the
    session, its handler included): a successful call closes nothing; a
    failed call closes at most the file at [path], never the standard
    output; when the file could not be opened nothing is closed; and
    when it was opened and the call fails later, it is closed exactly
    once. *)
Theorem sox_open_write_stream_balance `{sox_h} (env : sox_env) (w : world)
  (permitted : option (string -> bool)) (p : string)
  (sig : sox_signalinfo_t) (enc : option sox_encodinginfo_t)
  (ftype : option string) (len : Z) :
  hooks_keep_fp env ->
  let r := sox_open_write env w permitted (Some p) (Some sig) enc ftype len in
  let closed := fcloses (added w (snd r)) in
  match fst r with
  | Some ft => closed = []
  | None =>
      (closed = [] \/ closed = [EvFclose (Some (file_of p))])
      /\ (fopen_wb env p = None -> closed = [])
      /\ (forall h,
            write_handler env p ftype = Some h -> writable h ->
            uses_stdio h -> String.eqb p "-" = false ->
            (stat_regular env p
             && match permitted with
                | Some allowed => negb (allowed p)
                | None => false
                end) = false ->
            fopen_wb env p <> None ->
            closed = [EvFclose (Some (file_of p))])
  end.
Proof.
  intros Hk. cbv zeta.
  assert (Hadd : forall evs w', trace w' = trace w ++ evs ->
                                added w w' = evs).
  { intros evs w' E. unfold added. rewrite E.
    rewrite skipn_app, Nat.sub_diag, skipn_all. reflexivity. }
  assert (Hnil : fcloses (added w w) = []).
  { rewrite (Hadd [] w) by (rewrite app_nil_r; reflexivity). reflexivity. }
  assert (Hres : forall ft0 w0 f,
             trace w0 = trace w -> fp ft0 = f ->
             let r := open_write_start env ft0 w0 sig len in
             match fst r with
             | Some ft => fcloses (added w (snd r)) = []
             | None =>
                 fcloses (added w (snd r)) =
                 match f with
                 | Some stdout => []
                 | Some f' => [EvFclose (Some f')]
                 | None => []
                 end
             end).
  { intros ft0 w0 f Hw Hf. cbv zeta.
    destruct (open_write_start_balance env ft0 w0 sig len Hk)
      as (evs & Ht & Hb).
    rewrite Hw in Ht. rewrite (Hadd _ _ Ht).
    destruct (fst (open_write_start env ft0 w0 sig len)).
    - destruct Hb as (Hc & _). exact Hc.
    - rewrite Hb, Hf. reflexivity. }
  set (r := sox_open_write env w permitted (Some p) (Some sig) enc ftype len).
  (* the stream the call has opened, if any *)
  assert (Hshape :
            (match fst r with
             | Some _ => fcloses (added w (snd r)) = []
             | None => fcloses (added w (snd r)) = []
             end /\ (fopen_wb env p <> None ->
                     forall h, write_handler env p ftype = Some h ->
                               writable h -> uses_stdio h ->
                               String.eqb p "-" = false ->
                               (stat_regular env p
                                && match permitted with
                                   | Some allowed => negb (allowed p)
                                   | None => false
                                   end) = false -> False))
            \/ (fopen_wb env p <> None
                /\ match fst r with
                   | Some _ => fcloses (added w (snd r)) = []
                   | None =>
                       fcloses (added w (snd r))
                       = [EvFclose (Some (file_of p))]
                   end)).
  { subst r. unfold sox_open_write. cbv zeta.
    destruct (sox_gettype _ _ _) as [rc ft2] eqn:Hg.
    assert (Hlink : forall h, write_handler env p ftype = Some h ->
                              writable h ->
                              rc = SOX_SUCCESS /\ handler ft2 = h).
    { intros h Hh Hw. unfold write_handler in Hh.
      destruct ftype as [t|].
      - match type of Hg with
        | sox_gettype env ?x _ = _ =>
            rewrite (sox_gettype_writable env x t false h eq_refl Hh Hw) in Hg
        end.
        injection Hg as <- <-. split; reflexivity.
      - destruct (find_file_extension env p) as [t|] eqn:Hx; [|discriminate].
        match type of Hg with
        | sox_gettype env ?x _ = _ =>
            rewrite (sox_gettype_writable env x t true h eq_refl Hh Hw) in Hg
        end.
        injection Hg as <- <-. split; reflexivity. }
    assert (Hfp : fp ft2 = None).
    { revert Hg. unfold sox_gettype.
      repeat match goal with
             | |- context [match ?x with _ => _ end] => destruct x
             end; intros E; injection E as _ <-; reflexivity. }
    destruct (rc =? SOX_SUCCESS) eqn:Hrc; cbn [negb].
    2:{ left. unfold open_write_error. rewrite Hfp. cbn [fst snd].
        split; [exact Hnil|].
        intros _ h Hh Hw _ _ _. destruct (Hlink h Hh Hw) as [-> _].
        rewrite Z.eqb_refl in Hrc. discriminate Hrc. }
    cbn [handler with_encoding with_signal].
    destruct (has_flag (flags (handler ft2)) SOX_FILE_NOSTDIO) eqn:Hns;
      cbn [negb].
    { left. split.
      - match goal with
        | |- context [open_write_start env ?x w sig len] =>
            pose proof (Hres x w None eq_refl Hfp) as Hr; cbv zeta in Hr;
            destruct (fst (open_write_start env x w sig len)); exact Hr
        end.
      - intros _ h Hh Hw Hu. destruct (Hlink h Hh Hw) as [_ <-].
        unfold uses_stdio in Hu. congruence. }
    destruct (String.eqb p "-") eqn:Hp.
    { left. split; [|intros; congruence].
      destruct (stdout_in_use_by (sox_globals w)).
      - unfold open_write_error. cbn [fp with_encoding with_signal].
        rewrite Hfp. exact Hnil.
      - destruct (setvbuf_fails env stdout).
        + unfold open_write_error. cbn [fp fst snd].
          rewrite (Hadd [] _)
            by (cbn [trace]; rewrite app_nil_r; reflexivity).
          reflexivity.
        + match goal with
          | |- context [open_write_start env ?x ?y sig len] =>
              pose proof (Hres x y (Some stdout) eq_refl eq_refl) as Hr;
              cbv zeta in Hr;
              destruct (fst (open_write_start env x y sig len)); exact Hr
          end. }
    destruct (stat_regular env p && _) eqn:Hperm.
    { left. split; [|intros; congruence].
      unfold open_write_error. cbn [fp with_encoding with_signal].
      rewrite Hfp. exact Hnil. }
    destruct (fopen_wb env p) as [st|] eqn:Hop.
    2:{ left. split; [|intros E; contradiction].
        unfold open_write_error. cbn [fp with_encoding with_signal].
        rewrite Hfp. exact Hnil. }
    right. split; [discriminate|].
    destruct (setvbuf_fails env (file_of p)).
    - unfold open_write_error. cbn [fp fst snd].
      rewrite (Hadd [EvFclose (Some (file_of p))] _) by reflexivity.
      reflexivity.
    - match goal with
      | |- context [open_write_start env ?x ?y sig len] =>
          pose proof (Hres x y (Some (file_of p)) eq_refl eq_refl) as Hr;
          cbv zeta in Hr;
          destruct (fst (open_write_start env x y sig len)); exact Hr
      end. }
  destruct Hshape as [[Hs Hno]|[Hop Hs]]; destruct (fst r).
  - exact Hs.
  - split; [left; exact Hs|]. split; [intros _; exact Hs|].
    intros h H1 H2 H3 H4 H5 H6. exfalso. exact (Hno H6 h H1 H2 H3 H4 H5).
  - exact Hs.
  - split; [right; exact Hs|]. split; [intros E; contradiction|].
    intros; exact Hs.
Qed.

(** A file opened for writing as ["raw"] with no precision given: the
    open fails at [sox_checkformat] and the file is closed again. *)
Lemma sox_open_write_stream_balance_witness :
  let env := with_file sample_env "out.raw" (mk_stream [] [] false) in
  let r := sox_open_write (H := sample_h) env initial_world None
             (Some "out.raw") (Some (mk_signal 44100 2 0)) None
             (Some "raw") 0 in
  hooks_keep_fp env
  /\ fst r = None
  /\ fcloses (added initial_world (snd r))
     = [EvFclose (Some (file_of "out.raw"))].
Proof.
  cbv zeta.
  assert (Hk : hooks_keep_fp
                 (with_file sample_env "out.raw" (mk_stream [] [] false)))
    by (intros f ft; reflexivity).
  split; [exact Hk|].
  pose proof (sox_open_write_stream_balance (H := sample_h)
                (with_file sample_env "out.raw" (mk_stream [] [] false))
                initial_world None "out.raw" (mk_signal 44100 2 0) None
                (Some "raw") 0 Hk) as P.
  cbv zeta in P.
  destruct (sox_open_write _ _ _ _ _ _ _ _) as [o w'] eqn:E.
  vm_compute in E. injection E as <- <-.
  cbn [fst snd] in P. destruct P as (_ & _ & P).
  split; [reflexivity|]. cbn [snd].
  apply (P raw_handler).
  - reflexivity.
  - right. discriminate.
  - reflexivity.
  - reflexivity.
  - reflexivity.
  - discriminate.
Defined.

Lemma sox_close_stream `{sox_h} (env : sox_env) (ft : sox_format_t)
  (w : world) :
  keeps_stream env ->
  exists evs,
    trace (snd (sox_close env ft w)) = trace w ++ evs
    /\ fcloses evs =
       if has_flag (flags (handler ft)) SOX_FILE_NOSTDIO then []
       else [EvFclose (fp ft)].
Proof.
  intros Hk. unfold sox_close. cbv zeta.
  match goal with
  | |- context [let '(_, _) := ?x in _] =>
      assert (Hx : exists evs,
                 trace (snd x) = trace w ++ evs /\ fcloses evs = []
                 /\ fp (snd (fst x)) = fp ft
                 /\ handler (snd (fst x)) = handler ft);
      [|destruct x as [[rc ft1] w1]]
  end.
  { repeat match goal with
           | |- context [match ?x with _ => _ end] => destruct x eqn:?
           end;
      try match goal with
          | |- context [invoke ?e ?n ?f ?v] =>
              destruct (invoke e n f v) as [[? ?] ?] eqn:?
          end;
      repeat match goal with
        | E : invoke _ _ _ _ = _ |- _ =>
            apply (invoke_stream _ _ _ _ _ _ _ Hk) in E;
            destruct E as (? & ? & ?)
        | E : seeki _ _ _ _ _ = _ |- _ =>
            apply (seeki_stream _ _ _ _ _ _ _ _ Hk) in E;
            destruct E as (? & ? & ?)
        end; cbn [fst snd];
      repeat match goal with
             | E : trace _ = _ |- _ => rewrite E; clear E
             end;
      rewrite <- ?app_assoc; eexists;
      (split; [first [reflexivity | symmetry; apply app_nil_r]|]);
      (split; [reflexivity|]); split; congruence. }
  cbn [fst snd] in Hx. destruct Hx as (evs & Ht & Hc & Hfp & Hh).
  rewrite Hh, Hfp.
  destruct (has_flag (flags (handler ft)) SOX_FILE_NOSTDIO); cbn [negb snd].
  - exists evs. split; assumption.
  - exists (evs ++ [EvFclose (fp ft)]). cbn [log trace]. rewrite Ht.
    split; [rewrite app_assoc; reflexivity|].
    unfold fcloses in *. rewrite filter_app, Hc. reflexivity.
Qed.

(** X17. [sox_close] and the stream, when the hooks leave the stream
    pointer and the handler alone: whatever the hooks return, the
    stream of the session is closed exactly once, the standard input
    and output included, unless the handler does without stdio, in which
    case nothing is closed. *)
Theorem sox_close_closes_once `{sox_h} (env : sox_env) (ft : sox_format_t)
  (w : world) :
  keeps_stream env ->
  fcloses (added w (snd (sox_close env ft w)))
  = if has_flag (flags (handler ft)) SOX_FILE_NOSTDIO then []
    else [EvFclose (fp ft)].
Proof.
  intros Hk. destruct (sox_close_stream env ft w Hk) as (evs & Ht & Hc).
  unfold added. rewrite Ht, skipn_app, Nat.sub_diag, skipn_all. exact Hc.
Qed.

(** A write session on the file ["out"] with both hooks: the file is
    closed once. *)
Lemma sox_close_closes_once_witness :
  keeps_stream sample_env
  /\ fcloses
       (added initial_world
          (snd (sox_close (H := sample_h) sample_env
                  (sample_format (sample_writer 0 (Some 1%nat) (Some 2%nat)
                                    None None)
                     (mk_signal 44100 2 16) unset_encoding "w"%char)
                  initial_world)))
     = [EvFclose (Some (file_of "out"))].
Proof.
  assert (Hk : keeps_stream sample_env)
    by (split; intros; split; reflexivity).
  split; [exact Hk|].
  exact (sox_close_closes_once (H := sample_h) sample_env
           (sample_format (sample_writer 0 (Some 1%nat) (Some 2%nat)
                             None None)
              (mk_signal 44100 2 16) unset_encoding "w"%char)
           initial_world Hk).
Defined.

Lemma sox_open_read_holds `{sox_h} (env : sox_env) (w : world)
  (path : string) (sig : option sox_signalinfo_t)
  (enc : option sox_encodinginfo_t) (t : string) (ft : sox_format_t) :
  keeps_stream env ->
  fst (sox_open_read env w path sig enc (Some t)) = Some ft ->
  exists h evs,
    sox_find_format env t false = Some h /\ handler ft = h
    /\ fp ft = (if has_flag (flags h) SOX_FILE_NOSTDIO then None
                else Some (if String.eqb path "-" then stdin
                           else file_of path))
    /\ trace (snd (sox_open_read env w path sig enc (Some t)))
       = trace w ++ evs
    /\ fcloses evs = [].
Proof.
  intros Hk. unfold sox_open_read. cbv zeta.
  destruct (sox_find_format env t false) as [h|]; [|discriminate].
  assert (Hres : forall ft0 w0,
             trace w0 = trace w -> handler ft0 = h ->
             fst (open_read_resolve env ft0 w0 path sig enc (Some t))
             = Some ft ->
             exists evs,
               Some h = Some h /\ handler ft = h /\ fp ft = fp ft0
               /\ trace (snd (open_read_resolve env ft0 w0 path sig enc
                                (Some t)))
                  = trace w ++ evs
               /\ fcloses evs = []).
  { intros ft0 w0 Hw Hh Hopen.
    destruct (open_read_resolve_balance env ft0 w0 path sig enc (Some t) Hk)
      as (evs & Ht & Hb).
    rewrite Hopen in Hb. destruct Hb as (Hc & Hfp & Hhd).
    exists evs. split; [reflexivity|].
    split; [rewrite Hhd by discriminate; exact Hh|].
    split; [exact Hfp|]. split; [rewrite Ht, Hw; reflexivity | exact Hc]. }
  cbn [handler with_handler]. intros Hopen. exists h. revert Hopen.
  destruct (has_flag (flags h) SOX_FILE_NOSTDIO); cbn [negb].
  - apply Hres; reflexivity.
  - destruct (String.eqb path "-").
    + destruct (stdin_in_use_by (sox_globals w)); [discriminate|].
      apply Hres; reflexivity.
    + destruct (xfopen env path); [|discriminate].
      apply Hres; reflexivity.
Qed.

(** X18. Open, then close: for a session that [sox_open_read] returned
    under an explicitly given type, [sox_close] closes exactly the
    stream the open attached (the standard input for the path ["-"],
    the file at [path] otherwise) and, over both calls together, it is
    the only stream closed; with a handler that does without stdio no
    stream is closed.  The hooks are assumed to leave the stream pointer
    and the handler alone. *)
Theorem sox_open_read_then_close `{sox_h} (env : sox_env) (w : world)
  (path : string) (sig : option sox_signalinfo_t)
  (enc : option sox_encodinginfo_t) (t : string) (ft : sox_format_t) :
  keeps_stream env ->
  let opened := sox_open_read env w path sig enc (Some t) in
  fst opened = Some ft ->
  fcloses (added w (snd (sox_close env ft (snd opened))))
  = match sox_find_format env t false with
    | Some h =>
        if has_flag (flags h) SOX_FILE_NOSTDIO then []
        else [EvFclose (Some (if String.eqb path "-" then stdin
                              else file_of path))]
    | None => []
    end.
Proof.
  intros Hk opened Hopen. subst opened.
  destruct (sox_open_read_holds env w path sig enc t ft Hk Hopen)
    as (h & evs & Hf & Hh & Hfp & Ht & Hc).
  destruct (sox_close_stream env ft
              (snd (sox_open_read env w path sig enc (Some t))) Hk)
    as (evs' & Ht' & Hc').
  rewrite Hf. unfold added. rewrite Ht', Ht, <- app_assoc.
  rewrite skipn_app, Nat.sub_diag, skipn_all. cbn [skipn app].
  unfold fcloses in *. rewrite filter_app, Hc, Hc', Hh, Hfp. cbn [app].
  destruct (has_flag (flags h) SOX_FILE_NOSTDIO); reflexivity.
Qed.

(** Standard input opened as ["raw"], then closed. *)
Lemma sox_open_read_then_close_witness :
  let opened :=
    sox_open_read (H := sample_h) sample_env initial_world "-"
      (Some (mk_signal 44100 2 16)) None (Some "raw") in
  keeps_stream sample_env
  /\ match fst opened with
     | Some ft =>
         fcloses (added initial_world
                    (snd (sox_close (H := sample_h) sample_env ft
                            (snd opened))))
         = [EvFclose (Some stdin)]
     | None => False
     end.
Proof.
  cbv zeta.
  assert (Hk : keeps_stream sample_env)
    by (split; intros; split; reflexivity).
  split; [exact Hk|].
  pose proof (fun ft =>
                sox_open_read_then_close (H := sample_h) sample_env
                  initial_world "-" (Some (mk_signal 44100 2 16)) None "raw"
                  ft Hk) as P.
  cbv zeta in P.
  destruct (sox_open_read _ _ _ _ _ _) as [[ft|] w'] eqn:E.
  - exact (P ft eq_refl).
  - vm_compute in E. discriminate E.
Defined.
